(** * Tool source resolution and acquisition (setup-codeql)

    A shallow embedding of [setup-codeql.js]: the version normalizers, the
    candidate source enumerator, the release asset locator, the tool source
    resolver and the acquisition pipeline, with the properties the
    specification states about them; after them, with further properties
    of the same code, the dependency caches of [dependency-caching.ts] and
    the job status of [status-report.ts]. *)

From Stdlib Require Import Ascii String.
From Stdlib Require Import List NArith ZArith Bool Lia Arith DecimalN.
Import ListNotations.

Set Implicit Arguments.

(** ** JavaScript strings

    A JavaScript string is a sequence of UTF-16 code units.  A regular
    expression without the [u] flag works on code units, and [.] excludes
    the four line terminators, two of which are outside ASCII; so a code
    unit is a number here and a string a list of them.  Literals are
    written [str "..."]. *)

Definition char := N.
Definition jsstring := list char.

Definition chr (a : ascii) : char := N_of_ascii a.
Definition str (s : string) : jsstring := map chr (list_ascii_of_string s).

Definition char_eqb (a b : char) : bool := N.eqb a b.

Fixpoint jseqb (a b : jsstring) : bool :=
  match a, b with
  | [], [] => true
  | x :: a', y :: b' => char_eqb x y && jseqb a' b'
  | _, _ => false
  end.

(** [s.startsWith(p)]: the rest of [s] after [p], when [s] starts with [p]. *)
Fixpoint strip_prefix (p s : jsstring) : option jsstring :=
  match p with
  | [] => Some s
  | c :: p' =>
      match s with
      | x :: s' => if char_eqb x c then strip_prefix p' s' else None
      | [] => None
      end
  end.

Definition startsWith (s p : jsstring) : bool :=
  match strip_prefix p s with Some _ => true | None => false end.

(** [s.includes(p)] *)
Fixpoint includes (s p : jsstring) : bool :=
  startsWith s p || match s with [] => false | _ :: s' => includes s' p end.

(** The text left after the leading characters of a class. *)
Fixpoint drop_while (f : char -> bool) (s : jsstring) : jsstring :=
  match s with
  | x :: s' => if f x then drop_while f s' else s
  | [] => []
  end.

(** The longest prefix of class characters, and the rest. *)
Fixpoint span (f : char -> bool) (s : jsstring) : jsstring * jsstring :=
  match s with
  | x :: s' =>
      if f x then let (a, b) := span f s' in (x :: a, b) else ([], s)
  | [] => ([], [])
  end.

(** [s.split(sep)] for a one-character separator *)
Fixpoint split_on (sep : char) (s : jsstring) : list jsstring :=
  match s with
  | [] => [[]]
  | x :: s' =>
      if char_eqb x sep then [] :: split_on sep s'
      else match split_on sep s' with
           | h :: t => (x :: h) :: t
           | [] => [[x]]
           end
  end.

(** [a.join(sep)] *)
Fixpoint join (sep : jsstring) (l : list jsstring) : jsstring :=
  match l with
  | [] => []
  | [x] => x
  | x :: l' => x ++ sep ++ join sep l'
  end.

(** JavaScript truthiness of a string: every string but the empty one. *)
Definition truthy (s : jsstring) : bool :=
  match s with [] => false | _ => true end.

(** Truthiness of a value that is a string or [undefined]. *)
Definition truthy_opt (o : option jsstring) : bool :=
  match o with Some s => truthy s | None => false end.

(** ** Regular expressions

    The patterns of the source are sequences of literal characters, greedy
    repetitions of a character class, one capture group and the anchors
    [^] and [$] (no flags).  [rmatch] is the backtracking matcher of the
    language for such sequences, tried at one start position; [search]
    moves the start position from left to right as [String.prototype.match]
    does. *)

Inductive atom : Type :=
| Chr (c : char)                        (* a literal character *)
| Many (cls : char -> bool) (min : nat) (* greedy [cls*] (min 0), [cls+] (min 1) *)
| GroupOpen                             (* ( *)
| GroupClose                            (* ) *)
| Bol                                   (* ^ *)
| Eol.                                  (* $ *)

Definition regex := list atom.

Definition lit (s : string) : regex := map Chr (str s).

(** LineTerminator code units: LF, CR, LS, PS. *)
Definition is_line_terminator (c : char) : bool :=
  N.eqb c 10 || N.eqb c 13 || N.eqb c 8232 || N.eqb c 8233.

(** [.] without the [s] flag *)
Definition dot (c : char) : bool := negb (is_line_terminator c).

(** [[0-9]] *)
Definition digit (c : char) : bool := N.leb 48 c && N.leb c 57.

(** The characters consumed since the group opened, latest first, while
    the group is open. *)
Definition push (x : char) (acc : option (list char)) : option (list char) :=
  option_map (cons x) acc.

(** Result of a match attempt: the capture of group 1 ([None]: the
    group did not take part) and the input left after the match. *)
Definition mres := (option jsstring * jsstring)%type.

Fixpoint rmatch (r : regex) (bol : bool) (acc : option (list char))
    (s : jsstring) {struct r} : option mres :=
  match r with
  | [] => Some (None, s)
  | Chr c :: r' =>
      match s with
      | x :: s' => if char_eqb x c then rmatch r' false (push x acc) s' else None
      | [] => None
      end
  | Many cls min :: r' =>
      (fix go (n : nat) (bol : bool) (acc : option (list char))
           (s : jsstring) {struct s} : option mres :=
         let stop := if Nat.leb min n then rmatch r' bol acc s else None in
         match s with
         | x :: s' =>
             if cls x then
               match go (S n) false (push x acc) s' with
               | Some m => Some m
               | None => stop
               end
             else stop
         | [] => stop
         end) 0%nat bol acc s
  | GroupOpen :: r' => rmatch r' bol (Some []) s
  | GroupClose :: r' =>
      match rmatch r' bol None s with
      | Some (_, rest) => Some (option_map (@rev char) acc, rest)
      | None => None
      end
  | Bol :: r' => if bol then rmatch r' bol acc s else None
  | Eol :: r' => match s with [] => rmatch r' bol acc s | _ :: _ => None end
  end.

Fixpoint search (r : regex) (bol : bool) (s : jsstring) : option (mres * jsstring) :=
  match rmatch r bol None s with
  | Some m => Some (m, s)
  | None =>
      match s with
      | [] => None
      | _ :: s' => search r false s'
      end
  end.

Definition has_group (r : regex) : bool :=
  existsb (fun a => match a with GroupOpen => true | _ => false end) r.

(** [s.match(r)] for a pattern without the [g] flag: [null], or the array
    of the matched text followed by one entry per capture group. *)
Definition String_match (s : jsstring) (r : regex) : option (list (option jsstring)) :=
  match search r true s with
  | None => None
  | Some ((cap, rest), from) =>
      let whole := firstn (length from - length rest) from in
      Some (Some whole :: if has_group r then [cap] else [])
  end.

(** [a[i]] on an array of optional strings; out of range is [undefined]. *)
Definition array_get (a : list (option jsstring)) (i : nat) : option jsstring :=
  nth i a None.

(** ** Version normalizer *)

(** [^codeql-bundle-] then the group [.*] then [$] *)
Definition re_bundle_version : regex :=
  Bol :: lit "codeql-bundle-" ++ [GroupOpen; Many dot 0; GroupClose; Eol].

(** [/] then the group [codeql-bundle-.*] then [/] *)
Definition re_tag_in_url : regex :=
  lit "/" ++ GroupOpen :: lit "codeql-bundle-" ++ [Many dot 0; GroupClose] ++ lit "/".

(** [/codeql-bundle-] then the group [.*] then [/] *)
Definition re_url_version : regex :=
  lit "/codeql-bundle-" ++ [GroupOpen; Many dot 0; GroupClose] ++ lit "/".

Definition tryGetBundleVersionFromTagName (tagName : jsstring) : option jsstring :=
  match String_match tagName re_bundle_version with
  | None => None
  | Some m => if Nat.ltb (length m) 2 then None else array_get m 1
  end.

Definition tryGetTagNameFromUrl (url : jsstring) : option jsstring :=
  match String_match url re_tag_in_url with
  | None => None
  | Some m => if Nat.ltb (length m) 2 then None else array_get m 1
  end.

Definition tryGetBundleVersionFromUrl (url : jsstring) : option jsstring :=
  match tryGetTagNameFromUrl url with
  | None => None
  | Some tagName => tryGetBundleVersionFromTagName tagName
  end.

(** A thrown [Error] carries its message. *)
Inductive result (A : Type) : Type :=
| Ok (a : A)
| Throw (msg : jsstring).
Arguments Ok {A} a.
Arguments Throw {A} msg.

Definition getCodeQLURLVersion (url : jsstring) : result (option jsstring) :=
  match String_match url re_url_version with
  | None =>
      Throw (str "Malformed tools url: " ++ url ++ str ". Version could not be inferred")
  | Some m =>
      if Nat.ltb (length m) 2
      then Throw (str "Malformed tools url: " ++ url ++ str ". Version could not be inferred")
      else Ok (array_get m 1)
  end.

(** ** Vocabulary of the statements about the matcher *)

Definition is_nil (s : jsstring) : bool :=
  match s with [] => true | _ => false end.

(** The group's accumulator after the characters of [p] were consumed. *)
Definition pushes (p : jsstring) (acc : option (list char)) : option (list char) :=
  option_map (fun a => rev p ++ a) acc.

(** The greedy repetition, as a function of the continuation [k]. *)
Fixpoint many_go (k : bool -> option (list char) -> jsstring -> option mres)
    (cls : char -> bool) (min n : nat) (bol : bool) (acc : option (list char))
    (s : jsstring) : option mres :=
  let stop := if Nat.leb min n then k bol acc s else None in
  match s with
  | x :: s' =>
      if cls x then
        match many_go k cls min (S n) false (push x acc) s' with
        | Some m => Some m
        | None => stop
        end
      else stop
  | [] => stop
  end.

(** No line terminator in [s]: what [.*] can consume whole. *)
Definition one_line (s : jsstring) : bool := forallb dot s.

Definition slash : char := 47%N.

(** Both URL patterns are a literal [p], a group that opens before a literal
    [q] and closes after the repetition of [.], and a slash; [p ++ q] is
    [/codeql-bundle-]. *)
Definition re_seg (p q : jsstring) : regex :=
  map Chr p ++ GroupOpen :: map Chr q ++ [Many dot 0; GroupClose; Chr slash].

Section SegmentDefs.
Variables p q : jsstring.

(** [url] is [pre], then [p ++ q], then a one-line [X], then a slash. *)
Definition seg_occurrence (url pre X post : jsstring) : Prop :=
  url = pre ++ p ++ q ++ X ++ slash :: post /\ one_line X = true.

(** No occurrence starts further left, and none at the same place is longer. *)
Definition seg_first_longest (url pre X : jsstring) : Prop :=
  forall pre' X' post', seg_occurrence url pre' X' post' ->
    (length pre <= length pre')%nat /\
    (length pre' = length pre -> (length X' <= length X)%nat).

(** Group 1 of [url.match(re_seg p q)], [None] when there is no match. *)
Definition seg_group (url : jsstring) : option jsstring :=
  match String_match url (re_seg p q) with
  | None => None
  | Some m => if Nat.ltb (length m) 2 then None else array_get m 1
  end.
End SegmentDefs.

(** [url] holds [/codeql-bundle-X/] after [pre], with [X] on one line. *)
Definition bundle_occurrence (url pre X post : jsstring) : Prop :=
  url = pre ++ str "/codeql-bundle-" ++ X ++ str "/" ++ post /\ one_line X = true.

(** The occurrence after [pre] is the leftmost one and [X] its longest extent. *)
Definition first_longest (url pre X : jsstring) : Prop :=
  forall pre' X' post', bundle_occurrence url pre' X' post' ->
    (length pre <= length pre')%nat /\
    (length pre' = length pre -> (length X' <= length X)%nat).

Definition has_slash (s : jsstring) : bool := existsb (char_eqb slash) s.

(** ** The semver library

    [convertToSemVer] calls [semver.valid] and [semver.clean] of the npm
    package semver, which is not part of this repository.  The model
    follows the package (7.x, strict mode, no options): [parse] refuses
    more than [MAX_LENGTH] characters, matches the trimmed text against
    the pattern FULL, turns the three numbers and the numeric pre-release
    identifiers into numbers, and formats the version without the build
    metadata. *)

Module semver.

Definition MAX_LENGTH : nat := 256.
Definition MAX_SAFE_INTEGER : N := 9007199254740991.

(** WhiteSpace and LineTerminator code units, which [trim] removes. *)
Definition is_space (c : char) : bool :=
  (N.leb 9 c && N.leb c 13) || N.eqb c 32 || N.eqb c 160 || N.eqb c 5760 ||
  (N.leb 8192 c && N.leb c 8202) || N.eqb c 8232 || N.eqb c 8233 ||
  N.eqb c 8239 || N.eqb c 8287 || N.eqb c 12288 || N.eqb c 65279.

(** [String.prototype.trim] *)
Definition trim (s : jsstring) : jsstring :=
  rev (drop_while is_space (rev (drop_while is_space s))).

(** Decimal digits and numbers: [+m] on a string of digits, and the
    text of a non-negative integer. *)
Definition digit_of_char (c : char) (u : Decimal.uint) : Decimal.uint :=
  match c with
  | 48 => Decimal.D0 u | 49 => Decimal.D1 u | 50 => Decimal.D2 u
  | 51 => Decimal.D3 u | 52 => Decimal.D4 u | 53 => Decimal.D5 u
  | 54 => Decimal.D6 u | 55 => Decimal.D7 u | 56 => Decimal.D8 u
  | _ => Decimal.D9 u
  end%N.

Fixpoint uint_of_digits (ds : jsstring) : Decimal.uint :=
  match ds with
  | [] => Decimal.Nil
  | c :: ds' => digit_of_char c (uint_of_digits ds')
  end.

Fixpoint digits_of_uint (u : Decimal.uint) : jsstring :=
  match u with
  | Decimal.Nil => []
  | Decimal.D0 u => 48 :: digits_of_uint u
  | Decimal.D1 u => 49 :: digits_of_uint u
  | Decimal.D2 u => 50 :: digits_of_uint u
  | Decimal.D3 u => 51 :: digits_of_uint u
  | Decimal.D4 u => 52 :: digits_of_uint u
  | Decimal.D5 u => 53 :: digits_of_uint u
  | Decimal.D6 u => 54 :: digits_of_uint u
  | Decimal.D7 u => 55 :: digits_of_uint u
  | Decimal.D8 u => 56 :: digits_of_uint u
  | Decimal.D9 u => 57 :: digits_of_uint u
  end%N.

Definition number_of_digits (ds : jsstring) : N := N.of_uint (uint_of_digits ds).
Definition digits_of_number (n : N) : jsstring := digits_of_uint (N.to_uint n).

(** Character classes of the grammar *)
Definition letter (c : char) : bool :=
  (N.leb 97 c && N.leb c 122) || (N.leb 65 c && N.leb c 90).
Definition dash : char := 45%N.
Definition plus : char := 43%N.
Definition period : char := 46%N.
(** LETTERDASHNUMBER, [[a-zA-Z0-9-]] *)
Definition letterdashnumber (c : char) : bool :=
  letter c || digit c || char_eqb c dash.

(** NUMERICIDENTIFIER, [0|[1-9]\d*], on a text of digits *)
Definition numeric_identifier (ds : jsstring) : bool :=
  match ds with
  | [] => false
  | [_] => true
  | c :: _ => negb (char_eqb c 48%N)
  end.

(** PRERELEASEIDENTIFIER: a numeric identifier, or characters of
    LETTERDASHNUMBER of which one is not a digit. *)
Definition prerelease_identifier (id : jsstring) : bool :=
  forallb letterdashnumber id &&
  (if forallb digit id then numeric_identifier id else true).

(** BUILDIDENTIFIER, [[a-zA-Z0-9-]+] *)
Definition build_identifier (id : jsstring) : bool :=
  truthy id && forallb letterdashnumber id.

(** A numeric identifier at the head of [s]: the digits that follow are
    not part of what comes next in FULL, so it is the whole run. *)
Definition take_numeric (s : jsstring) : option (jsstring * jsstring) :=
  let (ds, rest) := span digit s in
  if numeric_identifier ds then Some (ds, rest) else None.

Definition expect (c : char) (s : jsstring) : option jsstring :=
  match s with
  | x :: s' => if char_eqb x c then Some s' else None
  | [] => None
  end.

(** The groups 1 to 5 of a match of FULL. *)
Record groups : Type := {
  g_major : jsstring;
  g_minor : jsstring;
  g_patch : jsstring;
  g_prerelease : option jsstring;
  g_build : option jsstring
}.

(** What follows the patch number: nothing, a pre-release after a dash
    up to a plus sign or the end, build metadata after a plus sign. *)
Definition match_tail (s : jsstring) : option (option jsstring * option jsstring) :=
  match s with
  | [] => Some (None, None)
  | c :: s' =>
      if char_eqb c dash then
        let (pre, rest) := span (fun x => negb (char_eqb x plus)) s' in
        if forallb prerelease_identifier (split_on period pre) then
          match rest with
          | [] => Some (Some pre, None)
          | _ :: b =>
              if forallb build_identifier (split_on period b)
              then Some (Some pre, Some b) else None
          end
        else None
      else if char_eqb c plus then
        if forallb build_identifier (split_on period s')
        then Some (None, Some s') else None
      else None
  end.

(** [s.match(re[t.FULL])]: an optional v, three numeric identifiers
    between periods, the optional pre-release and build, the end. *)
Definition match_FULL (s : jsstring) : option groups :=
  let s := match s with
           | c :: s' => if char_eqb c 118%N then s' else s
           | [] => s
           end in
  match take_numeric s with
  | None => None
  | Some (m1, s) =>
  match expect period s with
  | None => None
  | Some s =>
  match take_numeric s with
  | None => None
  | Some (m2, s) =>
  match expect period s with
  | None => None
  | Some s =>
  match take_numeric s with
  | None => None
  | Some (m3, s) =>
  match match_tail s with
  | None => None
  | Some (m4, m5) =>
      Some {| g_major := m1; g_minor := m2; g_patch := m3;
              g_prerelease := m4; g_build := m5 |}
  end end end end end end.

(** The fields of a [SemVer] object. *)
Record SemVer : Type := {
  major : N;
  minor : N;
  patch : N;
  prerelease : list (N + jsstring);
  build : list jsstring
}.

(** A pre-release identifier of digits only becomes a number when it is
    below [MAX_SAFE_INTEGER]. *)
Definition numberify (id : jsstring) : N + jsstring :=
  if truthy id && forallb digit id then
    let num := number_of_digits id in
    if N.ltb num MAX_SAFE_INTEGER then inl num else inr id
  else inr id.

Definition identifier_text (x : N + jsstring) : jsstring :=
  match x with inl n => digits_of_number n | inr s => s end.

(** [SemVer.format]: the [version] field. *)
Definition format (v : SemVer) : jsstring :=
  digits_of_number (major v) ++ str "." ++ digits_of_number (minor v) ++ str "." ++
  digits_of_number (patch v) ++
  match prerelease v with
  | [] => []
  | ids => str "-" ++ join (str ".") (map identifier_text ids)
  end.

(** The constructor after the match: the numbers, their bounds, the
    identifiers. *)
Definition of_groups (m : groups) : option SemVer :=
  let major := number_of_digits (g_major m) in
  let minor := number_of_digits (g_minor m) in
  let patch := number_of_digits (g_patch m) in
  if N.ltb MAX_SAFE_INTEGER major then None
  else if N.ltb MAX_SAFE_INTEGER minor then None
  else if N.ltb MAX_SAFE_INTEGER patch then None
  else
    Some {| major := major; minor := minor; patch := patch;
            prerelease :=
              match g_prerelease m with
              | None => []
              | Some pre =>
                  if truthy pre then map numberify (split_on period pre) else []
              end;
            build :=
              match g_build m with
              | None => []
              | Some b => if truthy b then split_on period b else []
              end |}.

(** [parse]: [new SemVer(version)], [null] where the constructor throws. *)
Definition parse (version : jsstring) : option SemVer :=
  if Nat.ltb MAX_LENGTH (length version) then None else
  match match_FULL (trim version) with
  | None => None
  | Some m => of_groups m
  end.

(** [semver.valid] *)
Definition valid (version : jsstring) : option jsstring :=
  option_map format (parse version).

(** [semver.clean]: leading [=] and [v] characters of the trimmed text
    are removed before it is parsed. *)
Definition clean (version : jsstring) : option jsstring :=
  option_map format
    (parse (drop_while (fun c => char_eqb c 61%N || char_eqb c 118%N) (trim version))).

(** The text FULL matched, without the optional v and the build. *)
Definition tail_text (m4 : option jsstring) : jsstring :=
  match m4 with None => [] | Some pre => dash :: pre end.

Definition canon (m : groups) : jsstring :=
  g_major m ++ period :: g_minor m ++ period :: g_patch m ++ tail_text (g_prerelease m).

Definition no_build (m : groups) : groups :=
  {| g_major := g_major m; g_minor := g_minor m; g_patch := g_patch m;
     g_prerelease := g_prerelease m; g_build := None |}.

Definition wf_numeric (ds : jsstring) : Prop :=
  forallb digit ds = true /\ numeric_identifier ds = true.

Definition wf_prerelease (m4 : option jsstring) : Prop :=
  match m4 with
  | None => True
  | Some pre =>
      forallb (fun x => negb (char_eqb x plus)) pre = true /\
      forallb prerelease_identifier (split_on period pre) = true
  end.

(** What a match of FULL guarantees about its groups. *)
Definition wf_groups (m : groups) : Prop :=
  wf_numeric (g_major m) /\ wf_numeric (g_minor m) /\ wf_numeric (g_patch m) /\
  wf_prerelease (g_prerelease m).

End semver.

(** [convertToSemVer], over the two functions of the library it calls. *)
Definition convertToSemVer_with (valid clean : jsstring -> option jsstring)
    (version : jsstring) : result jsstring :=
  let version :=
    if negb (truthy_opt (valid version))
    then str "0.0.0-" ++ version
    else version in
  match clean version with
  | Some s =>
      if truthy s then Ok s
      else Throw (str "Bundle version " ++ version ++ str " is not in SemVer format.")
  | None => Throw (str "Bundle version " ++ version ++ str " is not in SemVer format.")
  end.

Definition convertToSemVer : jsstring -> result jsstring :=
  convertToSemVer_with semver.valid semver.clean.

(** ** The host: environment, network, tool cache, file system

    The code reaches the outside through the GitHub API client, the
    [@actions/tool-cache] package, the file system and the process
    environment.  [W] is the state of that outside world.  An operation
    that changes it or may fail returns its result with the new world; a
    lookup is a function of the world.  Log messages have no effect on
    control flow and are left out. *)

(** Modelled from the spec: the enum [GitHubVariant] of [util.ts], which is
    not among the sources; the public multi-tenant host, the enterprise
    server and the managed variant. *)
Inductive GitHubVariant : Type := DOTCOM | GHES | GHAE.

Definition GitHubVariant_eqb (a b : GitHubVariant) : bool :=
  match a, b with
  | DOTCOM, DOTCOM | GHES, GHES | GHAE, GHAE => true
  | _, _ => false
  end.

Record GitHubApiDetails : Type := {
  auth : jsstring;
  url : jsstring
}.

Record asset : Type := {
  asset_name : jsstring;
  asset_url : jsstring
}.

Record release : Type := {
  tag_name : jsstring;
  assets : list asset
}.

(** A value of the language that is a string or [undefined]. *)
Definition maybe := option jsstring.

(** [a ?? b] *)
Definition nullish (a : maybe) (b : jsstring) : jsstring :=
  match a with Some s => s | None => b end.

(** A template literal prints [undefined] by name. *)
Definition tpl (a : maybe) : jsstring :=
  match a with Some s => s | None => str "undefined" end.

Record Host (W : Type) : Type := {
  (** [process.platform] *)
  platform : jsstring;
  (** [isRunningLocalAction()] of [actions-util] *)
  isRunningLocalAction : bool;
  (** [util.getRequiredEnvParam] *)
  getRequiredEnvParam : jsstring -> result jsstring;
  (** [util.GITHUB_DOTCOM_URL] *)
  GITHUB_DOTCOM_URL : jsstring;
  (** [defaults.json] *)
  defaults_cliVersion : jsstring;
  defaults_bundleVersion : jsstring;
  (** [util.isGoodVersion] *)
  isGoodVersion : jsstring -> bool;
  (** [getApiClient().rest.repos.getReleaseByTag({owner, repo, tag})] *)
  getReleaseByTag : W -> maybe -> maybe -> maybe -> result release * W;
  (** [GET /enterprise/code-scanning/codeql-bundle/find/{tag}]: the asset
      identifiers by name *)
  ghaeFind : W -> maybe -> result (list (jsstring * N)) * W;
  (** [GET /enterprise/code-scanning/codeql-bundle/download/{asset_id}] *)
  ghaeDownload : W -> N -> result jsstring * W;
  (** [toolcache.find(tool, version)]: the empty string on a miss *)
  toolcache_find : W -> jsstring -> jsstring -> jsstring;
  (** [toolcache.findAllVersions(tool)] *)
  toolcache_findAllVersions : W -> jsstring -> list jsstring;
  (** [toolcache.downloadTool(url, dest, auth, headers)] *)
  toolcache_downloadTool : W -> jsstring -> jsstring -> maybe ->
                 list (jsstring * jsstring) -> result jsstring * W;
  (** [toolcache.extractTar(file)] *)
  toolcache_extractTar : W -> jsstring -> result jsstring * W;
  (** [toolcache.cacheDir(sourceDir, tool, version)] *)
  toolcache_cacheDir : W -> jsstring -> jsstring -> jsstring -> result jsstring * W;
  (** [fs.existsSync] *)
  fs_existsSync : W -> jsstring -> bool;
  (** [path.join] *)
  path_join : jsstring -> jsstring -> jsstring;
  (** [del(path, {force: true})] *)
  del : W -> jsstring -> result unit * W;
  (** [checkDiskSpace(path)] *)
  checkDiskSpace : W -> result unit * W;
  (** [performance.now()], in whole milliseconds *)
  performance_now : W -> Z * W;
  (** [uuidV4()] *)
  uuid_v4 : W -> jsstring * W;
  (** [new URL(s).search], which throws on a text that is no URL *)
  URL_search : jsstring -> result jsstring;
  (** [new URLSearchParams(search).has(name)] *)
  URLSearchParams_has : jsstring -> jsstring -> bool
}.

(** The calls made to the outside, in order. *)
Inductive event : Type :=
| GetReleaseByTag (owner repo tag : maybe)
| GhaeFind (tag : maybe)
| GhaeDownload (asset_id : N)
| DownloadTool (url dest : jsstring) (authorization : maybe)
    (headers : list (jsstring * jsstring))
| ExtractTar (file : jsstring)
| CacheDir (sourceDir tool version : jsstring)
| Del (path : jsstring)
| CheckDiskSpace
| PerformanceNow
| UuidV4.

(** ** Computations: a world, a trace of calls, a result or an exception *)

Section Monad.
Variable W : Type.

Record state : Type := { world : W; trace : list event }.

Definition M (A : Type) : Type := state -> result A * state.

Definition ret {A} (a : A) : M A := fun st => (Ok a, st).

Definition throw {A} (msg : jsstring) : M A := fun st => (Throw msg, st).

Definition bind {A B} (m : M A) (k : A -> M B) : M B :=
  fun st =>
    match m st with
    | (Ok a, st') => k a st'
    | (Throw e, st') => (Throw e, st')
    end.

(** [try { m } catch (e) { h e }] *)
Definition try_catch {A} (m : M A) (h : jsstring -> M A) : M A :=
  fun st =>
    match m st with
    | (Ok a, st') => (Ok a, st')
    | (Throw e, st') => h e st'
    end.

(** A pure value that may be an exception. *)
Definition lift {A} (r : result A) : M A := fun st => (r, st).

(** A call that changes the world or may fail; it is recorded. *)
Definition call {A} (e : event) (op : W -> result A * W) : M A :=
  fun st =>
    let (r, w) := op (world st) in
    (r, {| world := w; trace := trace st ++ [e] |}).

(** A call that cannot fail. *)
Definition call_total {A} (e : event) (op : W -> A * W) : M A :=
  call e (fun w => let (a, w') := op w in (Ok a, w')).

(** A lookup in the world. *)
Definition query {A} (f : W -> A) : M A := fun st => (Ok (f (world st)), st).
End Monad.

Arguments ret {W A} a.
Arguments throw {W A} msg.
Arguments bind {W A B} m k.
Arguments try_catch {W A} m h.
Arguments lift {W A} r.
Arguments call {W A} e op.
Arguments call_total {W A} e op.
Arguments query {W A} f.

Notation "x <- m ;; k" := (bind m (fun x => k))
  (at level 61, m at next level, right associativity).
Notation "m ;;; k" := (bind m (fun _ => k))
  (at level 61, right associativity).

(** ** The source: [setup-codeql.js] *)

Inductive ToolsSource : Type := Unknown | Local | Toolcache | Download.

Definition CODEQL_DEFAULT_ACTION_REPOSITORY : jsstring := str "github/codeql-action".

(** A candidate source: the pair of an API endpoint and a repository. *)
Definition source := (jsstring * jsstring)%type.

(** [fast-deep-equal] on two arrays of two strings *)
Definition deep_equal (a b : source) : bool :=
  jseqb (fst a) (fst b) && jseqb (snd a) (snd b).

(** [self.filter((x, index, self) => f x index self)] *)
Fixpoint filter_from {A} (f : A -> nat -> list A -> bool) (self : list A)
    (index : nat) (l : list A) : list A :=
  match l with
  | [] => []
  | x :: l' =>
      if f x index self then x :: filter_from f self (S index) l'
      else filter_from f self (S index) l'
  end.

Definition Array_filter {A} (f : A -> nat -> list A -> bool) (self : list A) : list A :=
  filter_from f self 0 self.

(** [cli-version-] then the group [.*] then [.txt] *)
Definition re_cli_version_marker : regex :=
  lit "cli-version-" ++ [GroupOpen; Many dot 0; GroupClose] ++ lit ".txt".

(** Three runs of one or more digits between periods, from [^] to [$] *)
Definition re_stable_version : regex :=
  [Bol; Many digit 1] ++ lit "." ++ [Many digit 1] ++ lit "." ++ [Many digit 1; Eol].

(** The result types of the resolver and of the pipeline. *)
Inductive CodeQLToolsSource : Type :=
| SourceLocal (codeqlTarPath toolsVersion : jsstring)
| SourceToolcache (codeqlFolder toolsVersion : jsstring)
| SourceDownload (bundleVersion cliVersion : maybe) (codeqlURL : jsstring)
    (toolsVersion : jsstring).

Definition sourceType (s : CodeQLToolsSource) : jsstring :=
  match s with
  | SourceLocal _ _ => str "local"
  | SourceToolcache _ _ => str "toolcache"
  | SourceDownload _ _ _ _ => str "download"
  end.

Record CodeQLDefaultVersionInfo : Type := {
  cliVersion : jsstring;
  tagName : jsstring
}.

Record DownloadResult : Type := {
  toolsVersion : jsstring;
  codeqlFolder : jsstring;
  toolsDownloadDurationMs : Z
}.

Record SetupResult : Type := {
  setup_codeqlFolder : jsstring;
  setup_toolsDownloadDurationMs : option Z;
  setup_toolsSource : ToolsSource;
  setup_toolsVersion : jsstring
}.

Section Source.
Variable W : Type.
Variable host : Host W.

Definition getCodeQLBundleName : jsstring :=
  if jseqb (platform host) (str "win32") then str "codeql-bundle-win64.tar.gz"
  else if jseqb (platform host) (str "linux") then str "codeql-bundle-linux64.tar.gz"
  else if jseqb (platform host) (str "darwin") then str "codeql-bundle-osx64.tar.gz"
  else str "codeql-bundle.tar.gz".

Definition getCodeQLActionRepository : M W jsstring :=
  if isRunningLocalAction host then ret CODEQL_DEFAULT_ACTION_REPOSITORY
  else lift (getRequiredEnvParam host (str "GITHUB_ACTION_REPOSITORY")).

Definition tryGetCodeQLCliVersionForRelease (release : release) : maybe :=
  let cliVersionsFromMarkerFiles :=
    filter truthy_opt
      (map (fun asset =>
              match String_match (asset_name asset) re_cli_version_marker with
              | None => None
              | Some m => array_get m 1
              end)
           (assets release)) in
  if Nat.ltb 1 (length cliVersionsFromMarkerFiles) then None
  else if Nat.eqb (length cliVersionsFromMarkerFiles) 0 then None
  else nth 0 cliVersionsFromMarkerFiles None.

(** [s.split("/")] *)
Definition split_slash (s : jsstring) : list jsstring := split_on slash s.

Definition releaseByTag (repository : jsstring) (tag : maybe) : M W release :=
  let parts := split_slash repository in
  call (GetReleaseByTag (nth_error parts 0) (nth_error parts 1) tag)
       (fun w => getReleaseByTag host w (nth_error parts 0) (nth_error parts 1) tag).

Definition tryFindCliVersionDotcomOnly (tagName : jsstring) : M W maybe :=
  try_catch
    (codeQLActionRepository <- getCodeQLActionRepository ;;
     release <- releaseByTag codeQLActionRepository (Some tagName) ;;
     ret (tryGetCodeQLCliVersionForRelease release))
    (fun _ => ret None).

Definition potentialDownloadSources (apiDetails : GitHubApiDetails)
    (codeQLActionRepository : jsstring) : list source :=
  [ (url apiDetails, codeQLActionRepository);
    (url apiDetails, CODEQL_DEFAULT_ACTION_REPOSITORY);
    (GITHUB_DOTCOM_URL host, CODEQL_DEFAULT_ACTION_REPOSITORY) ].

Definition uniqueDownloadSources (apiDetails : GitHubApiDetails)
    (codeQLActionRepository : jsstring) : list source :=
  Array_filter
    (fun source index self => negb (existsb (fun other => deep_equal source other)
                                      (firstn index self)))
    (potentialDownloadSources apiDetails codeQLActionRepository).

(** The first asset named [name]. *)
Fixpoint find_asset (name : jsstring) (l : list asset) : maybe :=
  match l with
  | [] => None
  | a :: l' => if jseqb (asset_name a) name then Some (asset_url a) else find_asset name l'
  end.

(** [assets[name]] on the object of asset identifiers *)
Fixpoint assoc (name : jsstring) (l : list (jsstring * N)) : option N :=
  match l with
  | [] => None
  | (k, v) :: l' => if jseqb k name then Some v else assoc name l'
  end.

(** The GitHub AE endpoint, tried before the candidate sources. *)
Definition tryGhaeEndpoint (tagName : maybe) : M W maybe :=
  try_catch
    (release <- call (GhaeFind tagName) (fun w => ghaeFind host w tagName) ;;
     match assoc getCodeQLBundleName release with
     | Some assetID =>
         downloadURL <- call (GhaeDownload assetID) (fun w => ghaeDownload host w assetID) ;;
         ret (Some downloadURL)
     | None => ret None
     end)
    (fun _ => ret None).

(** The loop over the candidate sources: [None] when it ends, by [break]
    or at the end of the list, without [return]. *)
Fixpoint tryDownloadSources (tagName : maybe) (sources : list source) : M W maybe :=
  match sources with
  | [] => ret None
  | (apiURL, repository) :: rest =>
      if jseqb apiURL (GITHUB_DOTCOM_URL host) &&
         jseqb repository CODEQL_DEFAULT_ACTION_REPOSITORY
      then ret None
      else
        found <- try_catch
                   (release <- releaseByTag repository tagName ;;
                    ret (find_asset getCodeQLBundleName (assets release)))
                   (fun _ => ret None) ;;
        match found with
        | Some u => ret (Some u)
        | None => tryDownloadSources tagName rest
        end
  end.

Definition getCodeQLBundleDownloadURL (tagName : maybe) (apiDetails : GitHubApiDetails)
    (variant : GitHubVariant) : M W jsstring :=
  codeQLActionRepository <- getCodeQLActionRepository ;;
  let uniqueDownloadSources := uniqueDownloadSources apiDetails codeQLActionRepository in
  let codeQLBundleName := getCodeQLBundleName in
  fromGhae <- (if GitHubVariant_eqb variant GHAE then tryGhaeEndpoint tagName
               else ret None) ;;
  match fromGhae with
  | Some downloadURL => ret downloadURL
  | None =>
      found <- tryDownloadSources tagName uniqueDownloadSources ;;
      match found with
      | Some u => ret u
      | None =>
          ret (str "https://github.com/" ++ CODEQL_DEFAULT_ACTION_REPOSITORY ++
               str "/releases/download/" ++ tpl tagName ++ str "/" ++ codeQLBundleName)
      end
  end.

(** [a && f(a)] on a string or [undefined] *)
Definition and_then (a : maybe) (f : jsstring -> maybe) : maybe :=
  match a with
  | Some s => if truthy s then f s else Some s
  | None => None
  end.

Definition findOverridingToolsInCache (w : W) : option CodeQLToolsSource :=
  let candidates :=
    filter (fun c => fs_existsSync host w (path_join host (fst c) (str "pinned-version")))
      (map (fun version => (toolcache_find host w (str "CodeQL") version, version))
         (filter (isGoodVersion host) (toolcache_findAllVersions host w (str "CodeQL")))) in
  match candidates with
  | [candidate] => Some (SourceToolcache (fst candidate) (snd candidate))
  | _ => None
  end.

Definition forceShippedTools (toolsInput : maybe) : bool :=
  match toolsInput with Some t => jseqb t (str "latest") | None => false end.

(** The CLI version, the tag name and the URL asked for: the shipped
    defaults when forced, what the URL given tells, or the default
    passed in. *)
Definition requestedTools (toolsInput : maybe)
    (defaultCliVersion : CodeQLDefaultVersionInfo) : result (maybe * maybe * maybe) :=
  if forceShippedTools toolsInput then
    Ok (Some (defaults_cliVersion host), Some (defaults_bundleVersion host), None)
  else
    match toolsInput with
    | Some t =>
        let tagName := tryGetTagNameFromUrl t in
        let url := Some t in
        match tagName with
        | Some tag =>
            if truthy tag then
              match tryGetBundleVersionFromTagName tag with
              | Some bundleVersion =>
                  if truthy bundleVersion && truthy_opt (semver.valid bundleVersion) then
                    match convertToSemVer bundleVersion with
                    | Ok c => Ok (Some c, tagName, url)
                    | Throw e => Throw e
                    end
                  else Ok (None, tagName, url)
              | None => Ok (None, tagName, url)
              end
            else Ok (None, tagName, url)
        | None => Ok (None, tagName, url)
        end
    | None =>
        Ok (Some (cliVersion defaultCliVersion), Some (tagName defaultCliVersion), None)
    end.

Definition humanReadableVersion (cliVersion tagName url : maybe) : result jsstring :=
  match cliVersion with
  | Some c => Ok c
  | None =>
      match and_then tagName tryGetBundleVersionFromTagName with
      | Some bundleVersion =>
          if truthy bundleVersion then convertToSemVer bundleVersion
          else Ok bundleVersion
      | None => Ok (nullish tagName (nullish url (str "unknown")))
      end
  end.

(** The lookup by the CLI version, exact and then by the prefix
    [<cliVersion>-]; [None] while [codeqlFolder] is still [undefined]. *)
Definition findByCliVersion (w : W) (cliVersion : maybe) : maybe :=
  match cliVersion with
  | Some c =>
      if truthy c then
        let codeqlFolder := toolcache_find host w (str "CodeQL") c in
        if truthy codeqlFolder then Some codeqlFolder
        else
          let allVersions := toolcache_findAllVersions host w (str "CodeQL") in
          let candidateVersions :=
            filter (fun version => startsWith version (c ++ str "-")) allVersions in
          match candidateVersions with
          | [candidate] => Some (toolcache_find host w (str "CodeQL") candidate)
          | _ => Some codeqlFolder
          end
      else None
  | None => None
  end.

Definition tryGetFallbackToolcacheVersion (cliVersion : maybe) (tagName : jsstring)
    : result maybe :=
  match tryGetBundleVersionFromTagName tagName with
  | Some bundleVersion =>
      if truthy bundleVersion then
        match convertToSemVer bundleVersion with
        | Ok fallbackVersion => Ok (Some fallbackVersion)
        | Throw e => Throw e
        end
      else Ok None
  | None => Ok None
  end.

(** The lookup by the coerced bundle version, when the folder is not
    found yet and a tag name is known. *)
Definition findByFallbackVersion (w : W) (codeqlFolder cliVersion tagName : maybe)
    : result maybe :=
  if negb (truthy_opt codeqlFolder) && truthy_opt tagName then
    match tryGetFallbackToolcacheVersion cliVersion (nullish tagName []) with
    | Ok fallbackVersion =>
        if truthy_opt fallbackVersion
        then Ok (Some (toolcache_find host w (str "CodeQL") (nullish fallbackVersion [])))
        else Ok codeqlFolder
    | Throw e => Throw e
    end
  else Ok codeqlFolder.

(** An explicit tool specification that is a local path. *)
Definition isLocalPath (toolsInput : maybe) : bool :=
  match toolsInput with
  | Some t => truthy t && negb (jseqb t (str "latest")) && negb (startsWith t (str "http"))
  | None => false
  end.

(** The pinned version that may stand in on an enterprise host when no
    version was asked for explicitly. *)
Definition overridingTools (variant : GitHubVariant) (toolsInput : maybe) (w : W)
    : option CodeQLToolsSource :=
  if negb (GitHubVariant_eqb variant DOTCOM) &&
     negb (forceShippedTools toolsInput) && negb (truthy_opt toolsInput)
  then findOverridingToolsInCache w else None.

(** The URL of the download source: the one given, or the one the
    locator finds. *)
Definition resolveURL (tagName url : maybe) (apiDetails : GitHubApiDetails)
    (variant : GitHubVariant) : M W jsstring :=
  if negb (truthy_opt url)
  then getCodeQLBundleDownloadURL tagName apiDetails variant
  else ret (nullish url []).

Definition getCodeQLSource (toolsInput : maybe) (defaultCliVersion : CodeQLDefaultVersionInfo)
    (apiDetails : GitHubApiDetails) (variant : GitHubVariant) : M W CodeQLToolsSource :=
  if isLocalPath toolsInput then ret (SourceLocal (nullish toolsInput []) (str "local"))
  else
    requested <- lift (requestedTools toolsInput defaultCliVersion) ;;
    let '(cliVersion, tagName, url) := requested in
    humanReadableVersion <- lift (humanReadableVersion cliVersion tagName url) ;;
    codeqlFolder <- query (fun w => findByCliVersion w cliVersion) ;;
    w <- query (fun w => w) ;;
    codeqlFolder <- lift (findByFallbackVersion w codeqlFolder cliVersion tagName) ;;
    if truthy_opt codeqlFolder then
      ret (SourceToolcache (nullish codeqlFolder []) (nullish cliVersion humanReadableVersion))
    else
      overriding <- query (overridingTools variant toolsInput) ;;
      match overriding with
      | Some result => ret result
      | None =>
          url <- resolveURL tagName url apiDetails variant ;;
          ret (SourceDownload (and_then tagName tryGetBundleVersionFromTagName)
                 cliVersion url (nullish cliVersion humanReadableVersion))
      end.

Definition printDiskSpace : M W unit :=
  call CheckDiskSpace (checkDiskSpace host).

(** [maybeCliVersion?.match(/^[0-9]+\.[0-9]+\.[0-9]+$/)], as a condition *)
Definition is_stable_release (maybeCliVersion : maybe) : bool :=
  match maybeCliVersion with
  | Some c =>
      match String_match c re_stable_version with Some _ => true | None => false end
  | None => false
  end.

Definition downloadCodeQL (codeqlURL : jsstring) (maybeBundleVersion maybeCliVersion : maybe)
    (apiDetails : GitHubApiDetails) (variant : GitHubVariant) (tempDir : jsstring)
    : M W DownloadResult :=
  search <- lift (URL_search host codeqlURL) ;;
  let headers := [(str "accept", str "application/octet-stream")] in
  let authorization :=
    if URLSearchParams_has host search (str "token") then None
    else if startsWith codeqlURL (url apiDetails ++ str "/")
         then Some (str "token " ++ auth apiDetails)
         else None in
  printDiskSpace ;;;
  id <- call_total UuidV4 (uuid_v4 host) ;;
  let dest := path_join host tempDir id in
  let finalHeaders := (str "User-Agent", str "CodeQL Action") :: headers in
  toolsDownloadStart <- call_total PerformanceNow (performance_now host) ;;
  codeqlPath <- call (DownloadTool codeqlURL dest authorization finalHeaders)
                  (fun w => toolcache_downloadTool host w codeqlURL dest authorization
                              finalHeaders) ;;
  toolsDownloadEnd <- call_total PerformanceNow (performance_now host) ;;
  let toolsDownloadDurationMs := (toolsDownloadEnd - toolsDownloadStart)%Z in
  printDiskSpace ;;;
  codeqlExtracted <- call (ExtractTar codeqlPath)
                       (fun w => toolcache_extractTar host w codeqlPath) ;;
  printDiskSpace ;;;
  try_catch (call (Del codeqlPath) (fun w => del host w codeqlPath))
            (fun _ => ret tt) ;;;
  printDiskSpace ;;;
  let bundleVersion :=
    match maybeBundleVersion with
    | Some b => Some b
    | None => tryGetBundleVersionFromUrl codeqlURL
    end in
  match bundleVersion with
  | None =>
      ret {| toolsVersion := nullish maybeCliVersion (str "unknown");
             codeqlFolder := codeqlExtracted;
             toolsDownloadDurationMs := toolsDownloadDurationMs |}
  | Some bundleVersion =>
      maybeCliVersion <-
        (match maybeCliVersion with
         | None =>
             if GitHubVariant_eqb variant DOTCOM &&
                includes codeqlURL (str "/" ++ CODEQL_DEFAULT_ACTION_REPOSITORY ++ str "/")
             then tryFindCliVersionDotcomOnly (str "codeql-bundle-" ++ bundleVersion)
             else ret maybeCliVersion
         | Some _ => ret maybeCliVersion
         end) ;;
      toolcacheVersion <-
        (if is_stable_release maybeCliVersion
         then ret (tpl maybeCliVersion ++ str "-" ++ bundleVersion)
         else lift (convertToSemVer bundleVersion)) ;;
      codeqlFolder <- call (CacheDir codeqlExtracted (str "CodeQL") toolcacheVersion)
                        (fun w => toolcache_cacheDir host w codeqlExtracted (str "CodeQL")
                                    toolcacheVersion) ;;
      printDiskSpace ;;;
      call (Del codeqlExtracted) (fun w => del host w codeqlExtracted) ;;;
      printDiskSpace ;;;
      ret {| toolsVersion := nullish maybeCliVersion toolcacheVersion;
             codeqlFolder := codeqlFolder;
             toolsDownloadDurationMs := toolsDownloadDurationMs |}
  end.

Definition setupCodeQLBundle (toolsInput : maybe) (apiDetails : GitHubApiDetails)
    (tempDir : jsstring) (variant : GitHubVariant)
    (defaultCliVersion : CodeQLDefaultVersionInfo) : M W SetupResult :=
  source <- getCodeQLSource toolsInput defaultCliVersion apiDetails variant ;;
  match source with
  | SourceLocal codeqlTarPath toolsVersion =>
      codeqlFolder <- call (ExtractTar codeqlTarPath)
                        (fun w => toolcache_extractTar host w codeqlTarPath) ;;
      ret {| setup_codeqlFolder := codeqlFolder;
             setup_toolsDownloadDurationMs := None;
             setup_toolsSource := Local;
             setup_toolsVersion := toolsVersion |}
  | SourceToolcache codeqlFolder toolsVersion =>
      ret {| setup_codeqlFolder := codeqlFolder;
             setup_toolsDownloadDurationMs := None;
             setup_toolsSource := Toolcache;
             setup_toolsVersion := toolsVersion |}
  | SourceDownload bundleVersion cliVersion codeqlURL _ =>
      result <- downloadCodeQL codeqlURL bundleVersion cliVersion apiDetails
                  variant tempDir ;;
      ret {| setup_codeqlFolder := codeqlFolder result;
             setup_toolsDownloadDurationMs := Some (toolsDownloadDurationMs result);
             setup_toolsSource := Download;
             setup_toolsVersion := toolsVersion result |}
  end.
End Source.

(** ** Vocabulary of the statements about the enumerator *)

(** The first occurrence of every element, in order: what removing the
    later duplicates of an earlier pair means. *)
Fixpoint first_occurrences (seen l : list source) : list source :=
  match l with
  | [] => []
  | x :: l' =>
      if existsb (deep_equal x) seen then first_occurrences seen l'
      else x :: first_occurrences (seen ++ [x]) l'
  end.

(** The last element of a list, if any. *)
Fixpoint last_of {A} (l : list A) : option A :=
  match l with
  | [] => None
  | [x] => Some x
  | _ :: l' => last_of l'
  end.

(** ** Vocabulary of the statements about the asset locator *)

Section LocatorVocabulary.
Variable W : Type.
Variable host : Host W.

(** The candidates in front of the pair of the public endpoint and the
    canonical repository, at which the loop stops. *)
Fixpoint before_public (sources : list source) : list source :=
  match sources with
  | [] => []
  | (apiURL, repository) :: rest =>
      if jseqb apiURL (GITHUB_DOTCOM_URL host) &&
         jseqb repository CODEQL_DEFAULT_ACTION_REPOSITORY
      then []
      else (apiURL, repository) :: before_public rest
  end.

(** The release lookup made for a candidate. *)
Definition lookup_event (tagName : maybe) (s : source) : event :=
  GetReleaseByTag (nth_error (split_slash (snd s)) 0)
                  (nth_error (split_slash (snd s)) 1) tagName.

Definition is_release_lookup (e : event) : bool :=
  match e with GetReleaseByTag _ _ _ => true | _ => false end.

(** No release lookup for a candidate of [sources] yields the bundle: it
    fails, or the release has no asset of the bundle's name. *)
Definition release_lookups_miss (tagName : maybe) (sources : list source) : Prop :=
  forall w s, In s sources ->
    match fst (getReleaseByTag host w (nth_error (split_slash (snd s)) 0)
                 (nth_error (split_slash (snd s)) 1) tagName) with
    | Ok release => find_asset (getCodeQLBundleName host) (assets release) = None
    | Throw _ => True
    end.

(** The GitHub AE endpoint yields no URL for [tagName]: the search
    fails or does not list the bundle, or the download request fails. *)
Definition ghae_lookup_misses (tagName : maybe) : Prop :=
  forall w,
    match ghaeFind host w tagName with
    | (Ok found, w') =>
        match assoc (getCodeQLBundleName host) found with
        | Some assetID => exists e, fst (ghaeDownload host w' assetID) = Throw e
        | None => True
        end
    | (Throw _, _) => True
    end.

(** The Action's own repository is known: it runs from a local checkout,
    or [GITHUB_ACTION_REPOSITORY] is set. *)
Definition action_repository (repository : jsstring) : Prop :=
  if isRunningLocalAction host then repository = CODEQL_DEFAULT_ACTION_REPOSITORY
  else getRequiredEnvParam host (str "GITHUB_ACTION_REPOSITORY") = Ok repository.

(** The URL synthesized when no candidate yields one. *)
Definition public_download_url (tagName : maybe) : jsstring :=
  str "https://github.com/github/codeql-action/releases/download/" ++
  tpl tagName ++ str "/" ++ getCodeQLBundleName host.
End LocatorVocabulary.

(** ** Vocabulary of the statements about the pipeline *)

(** A run from the world [w], with an empty trace. *)
Definition start {W : Type} (w : W) : state W := {| world := w; trace := [] |}.

Definition is_cache_entry (e : event) : bool :=
  match e with CacheDir _ _ _ => true | _ => false end.

(** A text of one or more decimal digits. *)
Definition digits (s : jsstring) : Prop := s <> [] /\ forallb digit s = true.

(** The stable form of a CLI version: [x.y.z], digits only. *)
Definition stable_form (cliVersion : maybe) : Prop :=
  exists x y z, cliVersion = Some (x ++ str "." ++ y ++ str "." ++ z) /\
                digits x /\ digits y /\ digits z.

(** The pattern of the stable form, as a function: three runs of digits
    between periods, and nothing else. *)
Definition stable_runs (c : jsstring) : bool :=
  let (x, r1) := span digit c in
  match r1 with
  | p1 :: r2 =>
      let (y, r3) := span digit r2 in
      match r3 with
      | p2 :: r4 =>
          let (z, r5) := span digit r4 in
          truthy x && char_eqb p1 semver.period && truthy y &&
          char_eqb p2 semver.period && truthy z && is_nil r5
      | [] => false
      end
  | [] => false
  end.

(** The bundle version the pipeline works with: the one supplied, or the
    one in the URL. *)
Definition bundle_version_for (maybeBundleVersion : maybe) (codeqlURL : jsstring) : maybe :=
  match maybeBundleVersion with
  | Some b => Some b
  | None => tryGetBundleVersionFromUrl codeqlURL
  end.

Section PipelineVocabulary.
Variable W : Type.
Variable host : Host W.

(** The disk-space probes, the download and the extraction succeed. *)
Definition acquisition_succeeds : Prop :=
  (forall w, fst (checkDiskSpace host w) = Ok tt) /\
  (forall w u dest a h, exists p, fst (toolcache_downloadTool host w u dest a h) = Ok p) /\
  (forall w file, exists p, fst (toolcache_extractTar host w file) = Ok p).
End PipelineVocabulary.

(** ** A runner for the examples

    A Linux runner on the public host whose network lookups all fail and
    whose other operations succeed; its tool cache holds the versions it
    is given.  The world has no state of its own. *)

Module Runner.

(** The query of a URL: from the first question mark to a number sign. *)
Fixpoint from_char (c : char) (s : jsstring) : jsstring :=
  match s with
  | [] => []
  | x :: s' => if char_eqb x c then s else from_char c s'
  end.

Definition search_of (u : jsstring) : jsstring :=
  fst (span (fun x => negb (char_eqb x 35%N)) (from_char 63%N u)).

(** A query has a parameter when one of its parts, between ampersands,
    has that name in front of its equals sign. *)
Definition has_param (search name : jsstring) : bool :=
  existsb (fun part => jseqb (fst (span (fun x => negb (char_eqb x 61%N)) part)) name)
    (split_on 38%N (match search with 63%N :: q => q | _ => search end)).

Fixpoint lookup (k : jsstring) (l : list (jsstring * jsstring)) : jsstring :=
  match l with
  | [] => []
  | (k', v) :: l' => if jseqb k' k then v else lookup k l'
  end.

Definition host (cache : list (jsstring * jsstring)) : Host unit := {|
  platform := str "linux";
  isRunningLocalAction := false;
  getRequiredEnvParam := fun _ => Ok (str "github/codeql-action");
  GITHUB_DOTCOM_URL := str "https://github.com";
  defaults_cliVersion := str "2.12.1";
  defaults_bundleVersion := str "codeql-bundle-20230101";
  isGoodVersion := fun _ => true;
  getReleaseByTag := fun w _ _ _ => (Throw (str "Not Found"), w);
  ghaeFind := fun w _ => (Throw (str "Not Found"), w);
  ghaeDownload := fun w _ => (Throw (str "Not Found"), w);
  toolcache_find := fun _ _ version => lookup version cache;
  toolcache_findAllVersions := fun _ _ => map fst cache;
  toolcache_downloadTool := fun w _ dest _ _ => (Ok dest, w);
  toolcache_extractTar := fun w file => (Ok (file ++ str ".d"), w);
  toolcache_cacheDir := fun w _ tool version =>
                          (Ok (str "/opt/hostedtoolcache/" ++ tool ++ str "/" ++ version), w);
  fs_existsSync := fun _ _ => false;
  path_join := fun a b => a ++ str "/" ++ b;
  del := fun w _ => (Ok tt, w);
  checkDiskSpace := fun w => (Ok tt, w);
  performance_now := fun w => (0%Z, w);
  uuid_v4 := fun w => (str "0000", w);
  URL_search := fun u => Ok (search_of u);
  URLSearchParams_has := has_param
|}.

(** The API details of the job. *)
Definition api : GitHubApiDetails :=
  {| auth := str "secret"; url := str "https://github.com" |}.

End Runner.

(** The inputs of the examples. *)
Module Scenarios.
Import Runner.

Definition release_url : jsstring :=
  str "https://github.com/github/codeql-action/releases/download/codeql-bundle-20230101/codeql-bundle-linux64.tar.gz".

Definition opaque_url : jsstring := str "https://example.com/tools.tar.gz".

Definition default_version : CodeQLDefaultVersionInfo :=
  {| cliVersion := str "2.12.1"; tagName := str "codeql-bundle-20230101" |}.

Definition enterprise_api : GitHubApiDetails :=
  {| auth := str "secret"; url := str "https://ghe.example.com" |}.

Definition two_entries : list (jsstring * jsstring) :=
  [ (str "2.12.1-20230101", str "/opt/hostedtoolcache/CodeQL/2.12.1-20230101/x64");
    (str "2.12.1-20230102", str "/opt/hostedtoolcache/CodeQL/2.12.1-20230102/x64") ].

Definition one_entry : list (jsstring * jsstring) :=
  [ (str "2.12.1-20230101", str "/opt/hostedtoolcache/CodeQL/2.12.1-20230101/x64") ].
End Scenarios.

(** ** Vocabulary of the further statements *)

(** [pat] starts at a position within [pre] in the text [pre ++ pat]. *)
Fixpoint starts_within (pat pre : jsstring) : bool :=
  match pre with
  | [] => false
  | _ :: pre' => startsWith (pre ++ pat) pat || starts_within pat pre'
  end.

(** The part of the public download URL in front of the tag name. *)
Definition public_download_prefix : jsstring :=
  str "https://github.com/github/codeql-action/releases/download".

(** A text that FULL accepts as the pre-release part of a version: no
    plus sign, and between periods pre-release identifiers only. *)
Definition prerelease_text (v : jsstring) : bool :=
  forallb (fun x => negb (char_eqb x semver.plus)) v &&
  forallb semver.prerelease_identifier (split_on semver.period v).

(** The name of the marker file of the CLI version [v]. *)
Definition marker_name (v : jsstring) : jsstring :=
  str "cli-version-" ++ v ++ str ".txt".

(** Group 1 of the match of the marker pattern in an asset's name, if any. *)
Definition marker_version (name : jsstring) : maybe :=
  match String_match name re_cli_version_marker with
  | None => None
  | Some m => array_get m 1
  end.

(** The requests to the GitHub API among the calls. *)
Definition is_api_request (e : event) : bool :=
  match e with
  | GetReleaseByTag _ _ _ | GhaeFind _ | GhaeDownload _ => true
  | _ => false
  end.

Section SetupVocabulary.
Variable W : Type.
Variable host : Host W.

(** Caching succeeds, and so does the deletion of a directory that an
    extraction returned. *)
Definition caching_succeeds : Prop :=
  (forall w sourceDir tool version,
      exists p, fst (toolcache_cacheDir host w sourceDir tool version) = Ok p) /\
  (forall w w1 file w2 dir,
      toolcache_extractTar host w1 file = (Ok dir, w2) -> fst (del host w dir) = Ok tt).
End SetupVocabulary.

Section OverrideVocabulary.
Variable W : Type.
Variable host : Host W.

(** A version of the tool cache that is good and whose folder holds the
    file [pinned-version]. *)
Definition pinned (w : W) (version : jsstring) : Prop :=
  In version (toolcache_findAllVersions host w (str "CodeQL")) /\
  isGoodVersion host version = true /\
  fs_existsSync host w
    (path_join host (toolcache_find host w (str "CodeQL") version) (str "pinned-version")) = true.

(** The tag name that the resolver works with: the shipped one when
    [latest] is asked for, the one in the URL given, or the default one. *)
Definition requested_tag (toolsInput : maybe) (d : CodeQLDefaultVersionInfo) : maybe :=
  if forceShippedTools toolsInput then Some (defaults_bundleVersion host)
  else match toolsInput with
       | Some t => tryGetTagNameFromUrl t
       | None => Some (tagName d)
       end.
End OverrideVocabulary.

(** ** Dependency caching: [dependency-caching.ts]

    The code reaches the outside through [@actions/glob], [@actions/cache],
    [getTotalCacheSize] of [caching-utils], the home directory and the
    process environment.  A language is the string of its name.  The calls
    made are recorded in the world, next to the state of the outside. *)

Definition Language := jsstring.

Record CacheConfig : Type := {
  paths : list jsstring;
  hash : list jsstring
}.

Definition CODEQL_DEPENDENCY_CACHE_PREFIX : jsstring := str "codeql-dependencies".
Definition CODEQL_DEPENDENCY_CACHE_VERSION : N := 1.

Record CacheHost (W Globber : Type) : Type := {
  (** [os.homedir()] *)
  os_homedir : jsstring;
  (** [path.join] of any number of parts *)
  path_join_all : list jsstring -> jsstring;
  (** [getRequiredEnvParam] of [util] *)
  env_getRequiredEnvParam : jsstring -> result jsstring;
  (** [glob.create(patterns)] *)
  glob_create : W -> jsstring -> result Globber * W;
  (** [globber.glob()] *)
  globber_glob : W -> Globber -> result (list jsstring) * W;
  (** [glob.hashFiles(patterns)] *)
  glob_hashFiles : W -> jsstring -> result jsstring * W;
  (** [actionsCache.restoreCache(paths, primaryKey, restoreKeys)] *)
  actionsCache_restoreCache : W -> list jsstring -> jsstring -> list jsstring ->
                              result maybe * W;
  (** [actionsCache.saveCache(paths, key)] *)
  actionsCache_saveCache : W -> list jsstring -> jsstring -> result N * W;
  (** [getTotalCacheSize(paths, logger)] of [caching-utils] *)
  getTotalCacheSize : W -> list jsstring -> result N * W
}.

Inductive cache_event : Type :=
| GlobCreate (patterns : jsstring)
| GlobberGlob
| HashFiles (patterns : jsstring)
| RestoreCache (paths : list jsstring) (primaryKey : jsstring) (restoreKeys : list jsstring)
| SaveCache (paths : list jsstring) (key : jsstring)
| GetTotalCacheSize (paths : list jsstring).

(** The outside and the calls made to it so far. *)
Record cache_world (W : Type) : Type := {
  outside : W;
  calls : list cache_event
}.

(** A call to the outside; it is recorded. *)
Definition request {W A} (e : cache_event) (op : W -> result A * W)
    : M (cache_world W) A :=
  fun st =>
    let (r, w) := op (outside (world st)) in
    (r, {| world := {| outside := w; calls := calls (world st) ++ [e] |};
           trace := trace st |}).

(** What [object[name]] gives on an object literal: an own property, a
    property inherited from [Object.prototype], or [undefined]. *)
Inductive property (A : Type) : Type :=
| Own (a : A)
| Inherited
| Undefined.
Arguments Own {A} a.
Arguments Inherited {A}.
Arguments Undefined {A}.

(** The names of the properties of [Object.prototype]. *)
Definition Object_prototype_properties : list jsstring :=
  [ str "constructor"; str "__defineGetter__"; str "__defineSetter__";
    str "hasOwnProperty"; str "__lookupGetter__"; str "__lookupSetter__";
    str "isPrototypeOf"; str "propertyIsEnumerable"; str "toString";
    str "valueOf"; str "__proto__"; str "toLocaleString" ].

Fixpoint own_property {A} (name : jsstring) (object : list (jsstring * A)) : option A :=
  match object with
  | [] => None
  | (k, v) :: object' => if jseqb k name then Some v else own_property name object'
  end.

Definition get_property {A} (object : list (jsstring * A)) (name : jsstring) : property A :=
  match own_property name object with
  | Some v => Own v
  | None =>
      if existsb (jseqb name) Object_prototype_properties then Inherited else Undefined
  end.

Section DependencyCaching.
Variables W Globber : Type.
Variable host : CacheHost W Globber.

Definition CODEQL_DEFAULT_CACHE_CONFIG : list (jsstring * CacheConfig) :=
  [ (str "java",
     {| paths := [ path_join_all host [os_homedir host; str ".m2"; str "repository"];
                   path_join_all host [os_homedir host; str ".gradle"; str "caches"] ];
        hash := [ str "**/pom.xml";
                  str "**/*.gradle*";
                  str "**/gradle-wrapper.properties";
                  str "buildSrc/**/Versions.kt";
                  str "buildSrc/**/Dependencies.kt";
                  str "gradle/*.versions.toml";
                  str "**/versions.properties" ] |});
    (str "csharp",
     {| paths := [ path_join_all host [os_homedir host; str ".nuget"; str "packages"] ];
        hash := [ str "**/packages.lock.json" ] |});
    (str "go",
     {| paths := [ path_join_all host [os_homedir host; str "go"; str "pkg"; str "mod"] ];
        hash := [ str "**/go.sum" ] |}) ].

Definition makeGlobber (patterns : list jsstring) : M (cache_world W) Globber :=
  request (GlobCreate (join [10%N] patterns))
          (fun w => glob_create host w (join [10%N] patterns)).

Definition cachePrefix (language : Language) : M (cache_world W) jsstring :=
  runnerOs <- lift (env_getRequiredEnvParam host (str "RUNNER_OS")) ;;
  ret (CODEQL_DEPENDENCY_CACHE_PREFIX ++ str "-" ++
       semver.digits_of_number CODEQL_DEPENDENCY_CACHE_VERSION ++ str "-" ++
       runnerOs ++ str "-" ++ language ++ str "-").

Definition cacheKey (language : Language) (cacheConfig : CacheConfig)
    : M (cache_world W) jsstring :=
  hash <- request (HashFiles (join [10%N] (hash cacheConfig)))
            (fun w => glob_hashFiles host w (join [10%N] (hash cacheConfig))) ;;
  prefix <- cachePrefix language ;;
  ret (prefix ++ hash).

(** [cacheConfig.hash] where the property found is inherited from
    [Object.prototype]: it is [undefined], and [makeGlobber] fails on it. *)
Definition no_hash_property {A} : M (cache_world W) A :=
  throw (str "Cannot read properties of undefined (reading 'join')").

(** The loop of [downloadDependencyCaches], from the languages left and
    the languages restored so far. *)
Fixpoint downloadDependencyCaches_from (languages : list Language)
    (restoredCaches : list Language) : M (cache_world W) (list Language) :=
  match languages with
  | [] => ret restoredCaches
  | language :: rest =>
      match get_property CODEQL_DEFAULT_CACHE_CONFIG language with
      | Undefined => downloadDependencyCaches_from rest restoredCaches
      | Inherited => no_hash_property
      | Own cacheConfig =>
          globber <- makeGlobber (hash cacheConfig) ;;
          files <- request GlobberGlob (fun w => globber_glob host w globber) ;;
          if Nat.eqb (length files) 0 then downloadDependencyCaches_from rest restoredCaches
          else
            primaryKey <- cacheKey language cacheConfig ;;
            restoreKey <- cachePrefix language ;;
            let restoreKeys := [restoreKey] in
            hitKey <- request (RestoreCache (paths cacheConfig) primaryKey restoreKeys)
                        (fun w => actionsCache_restoreCache host w (paths cacheConfig)
                                    primaryKey restoreKeys) ;;
            match hitKey with
            | Some _ => downloadDependencyCaches_from rest (restoredCaches ++ [language])
            | None => downloadDependencyCaches_from rest restoredCaches
            end
      end
  end.

Definition downloadDependencyCaches (languages : list Language)
    : M (cache_world W) (list Language) :=
  downloadDependencyCaches_from languages [].


(** The prefix of the cache keys of a language on a runner. *)
Definition cache_prefix_text (runnerOs : jsstring) (language : Language) : jsstring :=
  str "codeql-dependencies-1-" ++ runnerOs ++ str "-" ++ language ++ str "-".

(** The languages that have a caching configuration. *)
Definition configured (language : Language) : Prop :=
  language = str "java" \/ language = str "csharp" \/ language = str "go".

(** A request to restore or to save is for the paths of a configured
    language, under the prefix of that language followed by a hash. *)
Definition well_keyed (e : cache_event) : Prop :=
  match e with
  | RestoreCache paths_ primaryKey restoreKeys =>
      exists language cacheConfig runnerOs hash_,
        own_property language CODEQL_DEFAULT_CACHE_CONFIG = Some cacheConfig /\
        paths_ = paths cacheConfig /\
        restoreKeys = [cache_prefix_text runnerOs language] /\
        primaryKey = cache_prefix_text runnerOs language ++ hash_
  | SaveCache paths_ key =>
      exists language cacheConfig runnerOs hash_,
        own_property language CODEQL_DEFAULT_CACHE_CONFIG = Some cacheConfig /\
        paths_ = paths cacheConfig /\
        key = cache_prefix_text runnerOs language ++ hash_
  | _ => True
  end.
End DependencyCaching.

(** [a] is [b] with some elements left out. *)
Fixpoint subsequence (a b : list jsstring) : Prop :=
  match a, b with
  | [], _ => True
  | _ :: _, [] => False
  | x :: a', y :: b' => (x = y /\ subsequence a' b') \/ subsequence a b'
  end.

Definition has_dash (s : jsstring) : bool := existsb (char_eqb semver.dash) s.

(** ** The job status: [status-report.ts] *)

(** The strings [aborted], [failure], [starting], [success] and
    [user-error]. *)
Inductive ActionStatus : Type :=
| aborted
| failure
| starting
| success
| user_error.

Inductive JobStatus : Type :=
| UnknownStatus
| SuccessStatus
| FailureStatus
| ConfigErrorStatus.

(** The string values of the enum. *)
Definition JobStatus_value (status : JobStatus) : jsstring :=
  match status with
  | UnknownStatus => str "JOB_STATUS_UNKNOWN"
  | SuccessStatus => str "JOB_STATUS_SUCCESS"
  | FailureStatus => str "JOB_STATUS_FAILURE"
  | ConfigErrorStatus => str "JOB_STATUS_CONFIGURATION_ERROR"
  end.

Definition getJobStatusDisplayName (status : JobStatus) : jsstring :=
  match status with
  | SuccessStatus => str "success"
  | FailureStatus => str "failure"
  | ConfigErrorStatus => str "configuration error"
  | UnknownStatus => str "unknown"
  end.

(** [process.env], and the variables exported to the steps that follow,
    in order. *)
Record process : Type := {
  env : jsstring -> maybe;
  exported : list (jsstring * jsstring)
}.

(** [core.exportVariable(name, val)] of [@actions/core]: the variable is
    set in this process and exported; names are compared as on a Linux
    runner. *)
Definition core_exportVariable (name val : jsstring) (p : process) : process :=
  {| env := fun k => if jseqb k name then Some val else env p k;
     exported := exported p ++ [(name, val)] |}.

Section JobStatusDefs.
(** [EnvVar.JOB_STATUS] of [environment.ts] *)
Variable JOB_STATUS : jsstring.

Definition setJobStatusIfUnsuccessful (actionStatus : ActionStatus) (p : process)
    : process :=
  match actionStatus with
  | user_error =>
      core_exportVariable JOB_STATUS
        (nullish (env p JOB_STATUS) (JobStatus_value ConfigErrorStatus)) p
  | failure | aborted =>
      core_exportVariable JOB_STATUS
        (nullish (env p JOB_STATUS) (JobStatus_value FailureStatus)) p
  | starting | success => p
  end.

(** The calls of the successive steps of a job, each with the status of
    its action. *)
Definition after_steps (statuses : list ActionStatus) (p : process) : process :=
  fold_left (fun p status => setJobStatusIfUnsuccessful status p) statuses p.
End JobStatusDefs.

(** The job status that an unsuccessful action stands for. *)
Definition job_status_for (status : ActionStatus) : option JobStatus :=
  match status with
  | user_error => Some ConfigErrorStatus
  | failure | aborted => Some FailureStatus
  | starting | success => None
  end.

(** The job status of the first unsuccessful action. *)
Fixpoint first_unsuccessful (statuses : list ActionStatus) : option JobStatus :=
  match statuses with
  | [] => None
  | status :: rest =>
      match job_status_for status with
      | Some s => Some s
      | None => first_unsuccessful rest
      end
  end.

(** ** Further runners, releases and caches for the examples *)

Module Fixtures.
(** A release with the bundles of two platforms and one marker file. *)
Definition marked : release :=
  {| tag_name := str "codeql-bundle-20230101";
     assets :=
       [ {| asset_name := str "codeql-bundle-linux64.tar.gz";
            asset_url := str "https://api.github.com/assets/1" |};
         {| asset_name := str "cli-version-2.12.1.txt";
            asset_url := str "https://api.github.com/assets/2" |};
         {| asset_name := str "codeql-bundle-osx64.tar.gz";
            asset_url := str "https://api.github.com/assets/3" |} ] |}.

(** A release with the marker files of two CLI versions. *)
Definition ambiguous : release :=
  {| tag_name := str "codeql-bundle-20230101";
     assets :=
       [ {| asset_name := str "cli-version-2.12.1.txt";
            asset_url := str "https://api.github.com/assets/1" |};
         {| asset_name := str "codeql-bundle-linux64.tar.gz";
            asset_url := str "https://api.github.com/assets/2" |};
         {| asset_name := str "cli-version-2.12.2.txt";
            asset_url := str "https://api.github.com/assets/3" |} ] |}.

(** A runner as [Runner.host], on which deleting a path succeeds only
    where [deletable] holds. *)
Definition host_deleting (deletable : jsstring -> bool) : Host unit := {|
  platform := str "linux";
  isRunningLocalAction := false;
  getRequiredEnvParam := fun _ => Ok (str "github/codeql-action");
  GITHUB_DOTCOM_URL := str "https://github.com";
  defaults_cliVersion := str "2.12.1";
  defaults_bundleVersion := str "codeql-bundle-20230101";
  isGoodVersion := fun _ => true;
  getReleaseByTag := fun w _ _ _ => (Throw (str "Not Found"), w);
  ghaeFind := fun w _ => (Throw (str "Not Found"), w);
  ghaeDownload := fun w _ => (Throw (str "Not Found"), w);
  toolcache_find := fun _ _ _ => [];
  toolcache_findAllVersions := fun _ _ => [];
  toolcache_downloadTool := fun w _ dest _ _ => (Ok dest, w);
  toolcache_extractTar := fun w file => (Ok (file ++ str ".d"), w);
  toolcache_cacheDir := fun w _ tool version =>
                          (Ok (str "/opt/hostedtoolcache/" ++ tool ++ str "/" ++ version), w);
  fs_existsSync := fun _ _ => false;
  path_join := fun a b => a ++ str "/" ++ b;
  del := fun w path => (if deletable path then Ok tt else Throw (str "EPERM"), w);
  checkDiskSpace := fun w => (Ok tt, w);
  performance_now := fun w => (0%Z, w);
  uuid_v4 := fun w => (str "0000", w);
  URL_search := fun u => Ok (Runner.search_of u);
  URLSearchParams_has := Runner.has_param
|}.

(** The paths of extracted bundles on that runner end in [.d]. *)
Definition is_extracted (path : jsstring) : bool :=
  startsWith (rev path) (rev (str ".d")).

(** A tool cache with an entry under the CLI version itself and one under
    the CLI version and a bundle version. *)
Definition exact_and_prefixed : list (jsstring * jsstring) :=
  [ (str "2.12.1-20230101", str "/opt/hostedtoolcache/CodeQL/2.12.1-20230101/x64");
    (str "2.12.1", str "/opt/hostedtoolcache/CodeQL/2.12.1/x64") ].

(** A Linux runner for the caching code: the patterns of every language
    match [files], every hash is the same, and every cache is hit under
    its primary key. *)
Definition cache_host (files : list jsstring) : CacheHost unit jsstring := {|
  os_homedir := str "/home/runner";
  path_join_all := join (str "/");
  env_getRequiredEnvParam := fun _ => Ok (str "Linux");
  glob_create := fun w patterns => (Ok patterns, w);
  globber_glob := fun w _ => (Ok files, w);
  glob_hashFiles := fun w _ => (Ok (str "0a1b2c"), w);
  actionsCache_restoreCache := fun w _ primaryKey _ => (Ok (Some primaryKey), w);
  actionsCache_saveCache := fun w _ _ => (Ok 1%N, w);
  getTotalCacheSize := fun w _ => (Ok 0%N, w)
|}.

(** No call made yet. *)
Definition cache_start : state (cache_world unit) :=
  start {| outside := tt; calls := [] |}.
End Fixtures.

(** * Properties *)

Unset Implicit Arguments.

(** ** Strings and the matcher *)

Lemma char_eqb_eq (a b : char) : char_eqb a b = true <-> a = b.
Proof. apply N.eqb_eq. Qed.

Lemma char_eqb_refl (a : char) : char_eqb a a = true.
Proof. apply N.eqb_refl. Qed.

Lemma jseqb_eq (a b : jsstring) : jseqb a b = true <-> a = b.
Proof.
  revert b; induction a as [|x a IH]; intros [|y b]; simpl; split; intro H;
    try discriminate; try reflexivity.
  - apply andb_true_iff in H as [H1 H2].
    apply char_eqb_eq in H1. apply IH in H2. congruence.
  - injection H as -> ->. rewrite char_eqb_refl. simpl. now apply IH.
Qed.

Lemma strip_prefix_spec (p s s' : jsstring) :
  strip_prefix p s = Some s' <-> s = p ++ s'.
Proof.
  revert s; induction p as [|c p IH]; intros s; simpl.
  - split; congruence.
  - destruct s as [|x s]; [split; discriminate|].
    destruct (char_eqb x c) eqn:E.
    + apply char_eqb_eq in E; subst x. rewrite IH. split; congruence.
    + split; [discriminate|]. intros H; injection H as -> _.
      now rewrite char_eqb_refl in E.
Qed.

Lemma strip_prefix_app (p s : jsstring) : strip_prefix p (p ++ s) = Some s.
Proof. now apply strip_prefix_spec. Qed.

Lemma strip_prefix_none (p s : jsstring) :
  strip_prefix p s = None <-> forall s', s <> p ++ s'.
Proof.
  split.
  - intros H s' E. apply strip_prefix_spec in E. congruence.
  - intros H. destruct (strip_prefix p s) as [s'|] eqn:E; [|reflexivity].
    apply strip_prefix_spec in E. now elim (H s').
Qed.

Lemma startsWith_spec (s p : jsstring) :
  startsWith s p = true <-> exists s', s = p ++ s'.
Proof.
  unfold startsWith. destruct (strip_prefix p s) as [s'|] eqn:E.
  - apply strip_prefix_spec in E. split; eauto.
  - split; [discriminate|]. intros [s' H].
    apply strip_prefix_spec in H. congruence.
Qed.



Lemma pushes_nil acc : pushes [] acc = acc.
Proof. now destruct acc. Qed.

Lemma pushes_cons x p acc : pushes (x :: p) acc = pushes p (push x acc).
Proof. destruct acc; simpl; [|reflexivity]. now rewrite <- app_assoc. Qed.

Lemma pushes_app p q acc : pushes (p ++ q) acc = pushes q (pushes p acc).
Proof.
  destruct acc; simpl; [|reflexivity]. now rewrite rev_app_distr, app_assoc.
Qed.

(** A literal prefix of the pattern consumes exactly that text. *)
Lemma rmatch_lit (p : jsstring) (r : regex) bol acc s :
  rmatch (map Chr p ++ r) bol acc s =
  match strip_prefix p s with
  | Some s' => rmatch r (bol && is_nil p) (pushes p acc) s'
  | None => None
  end.
Proof.
  revert bol acc s; induction p as [|c p IH]; intros bol acc s.
  - simpl. now rewrite andb_true_r, pushes_nil.
  - change (map Chr (c :: p) ++ r) with (Chr c :: (map Chr p ++ r)).
    simpl. destruct s as [|x s]; [reflexivity|].
    destruct (char_eqb x c) eqn:E; [|reflexivity].
    apply char_eqb_eq in E; subst x.
    rewrite IH, andb_false_r. destruct (strip_prefix p s); [|reflexivity].
    now rewrite pushes_cons.
Qed.


Lemma rmatch_Many cls min r bol acc s :
  rmatch (Many cls min :: r) bol acc s = many_go (rmatch r) cls min 0 bol acc s.
Proof.
  simpl. generalize 0%nat. revert bol acc.
  induction s as [|x s IH]; intros bol acc n; simpl; [reflexivity|].
  now rewrite IH.
Qed.

(** The repetition fails when the rest of the pattern fails after every
    run of class characters it could take. *)
Lemma many_go_none k cls min n bol acc s :
  many_go k cls min n bol acc s = None <->
  forall a b, s = a ++ b -> forallb cls a = true -> (min <= n + length a)%nat ->
    k (bol && is_nil a) (pushes a acc) b = None.
Proof.
  revert n bol acc; induction s as [|x s IH]; intros n bol acc.
  - simpl. split.
    + intros H a b Hs _ Hmin. symmetry in Hs. apply app_eq_nil in Hs as [-> ->].
      simpl in Hmin. rewrite andb_true_r, pushes_nil.
      destruct (Nat.leb min n) eqn:E; [exact H|]. apply Nat.leb_gt in E. lia.
    + intros H. destruct (Nat.leb min n) eqn:E; [|reflexivity].
      apply Nat.leb_le in E. specialize (H [] [] eq_refl eq_refl).
      rewrite andb_true_r, pushes_nil in H. apply H. simpl; lia.
  - cbn [many_go].
    assert (Hstop : (if Nat.leb min n then k bol acc (x :: s) else None) = None <->
              ((min <= n)%nat -> k bol acc (x :: s) = None)).
    { destruct (Nat.leb min n) eqn:E.
      - apply Nat.leb_le in E. tauto.
      - apply Nat.leb_gt in E. split; [lia|reflexivity]. }
    destruct (cls x) eqn:Ex.
    + destruct (many_go k cls min (S n) false (push x acc) s) as [m'|] eqn:Em.
      * split; [discriminate|]. intros H.
        assert (Hn : many_go k cls min (S n) false (push x acc) s = None).
        { apply IH. intros a b Hs Ha Hmin. rewrite andb_false_l.
          specialize (H (x :: a) b). simpl in H. rewrite Ex, Ha in H.
          rewrite andb_false_r, pushes_cons in H. apply H; auto; [congruence|lia]. }
        congruence.
      * rewrite Hstop. split.
        -- intros H [|y a] b Hs Ha Hmin.
           ++ simpl in Hs, Hmin. subst b. rewrite andb_true_r, pushes_nil.
              apply H; lia.
           ++ simpl in Hs. injection Hs as <- Hs. simpl in Ha, Hmin. rewrite Ex in Ha.
              rewrite andb_false_r, pushes_cons.
              pose proof (proj1 (IH _ _ _) Em a b Hs Ha) as Hk.
              rewrite andb_false_l in Hk. apply Hk. lia.
        -- intros H Hmin. specialize (H [] (x :: s) eq_refl eq_refl).
           rewrite andb_true_r, pushes_nil in H. apply H. simpl; lia.
    + rewrite Hstop. split.
      * intros H [|y a] b Hs Ha Hmin.
        -- simpl in Hs, Hmin. subst b. rewrite andb_true_r, pushes_nil.
           apply H; lia.
        -- simpl in Hs. injection Hs as <- Hs. simpl in Ha. now rewrite Ex in Ha.
      * intros H Hmin. specialize (H [] (x :: s) eq_refl eq_refl).
        rewrite andb_true_r, pushes_nil in H. apply H. simpl; lia.
Qed.

(** Greedy choice: the repetition takes the longest run [a] of class
    characters after which the rest of the pattern matches. *)
Lemma many_go_some k cls min n bol acc s m :
  many_go k cls min n bol acc s = Some m <->
  exists a b, s = a ++ b /\ forallb cls a = true /\ (min <= n + length a)%nat /\
    k (bol && is_nil a) (pushes a acc) b = Some m /\
    forall a' b', s = a' ++ b' -> forallb cls a' = true ->
      (length a < length a')%nat -> k false (pushes a' acc) b' = None.
Proof.
  revert n bol acc m; induction s as [|x s IH]; intros n bol acc m.
  - simpl. split.
    + intros H. exists [], []. destruct (Nat.leb min n) eqn:E; [|discriminate].
      apply Nat.leb_le in E.
      rewrite andb_true_r, pushes_nil. repeat split; auto; try (simpl; lia).
      intros a' b' Hs _ Hl. destruct a'; [simpl in Hl; lia|discriminate].
    + intros (a & b & Hs & _ & Hmin & Hk & _).
      symmetry in Hs. apply app_eq_nil in Hs as [-> ->].
      simpl in Hmin. rewrite andb_true_r, pushes_nil in Hk.
      replace (Nat.leb min n) with true; [exact Hk|].
      symmetry; apply Nat.leb_le; lia.
  - cbn [many_go].
    assert (Hstop : forall m, (if Nat.leb min n then k bol acc (x :: s) else None) = Some m <->
              ((min <= n)%nat /\ k bol acc (x :: s) = Some m)).
    { intros m0. destruct (Nat.leb min n) eqn:E.
      - apply Nat.leb_le in E. tauto.
      - apply Nat.leb_gt in E. split; [discriminate|lia]. }
    destruct (cls x) eqn:Ex.
    + destruct (many_go k cls min (S n) false (push x acc) s) as [m'|] eqn:Em.
      * split.
        -- intros H; injection H as <-.
           apply IH in Em as (a & b & Hs & Ha & Hmin & Hk & Hmax).
           exists (x :: a), b. subst s. simpl. rewrite Ex, Ha, andb_false_r.
           rewrite pushes_cons. repeat split; auto; try lia.
           intros a' b' Hs' Ha' Hl. destruct a' as [|y a']; [simpl in Hl; lia|].
           simpl in Hs'. injection Hs' as <- Hs'. rewrite pushes_cons.
           simpl in Ha'. rewrite Ex in Ha'. simpl in Hl.
           apply (Hmax a' b'); auto; lia.
        -- intros (a2 & b2 & Hs2 & Ha2 & Hmin2 & Hk2 & Hmax2).
           destruct a2 as [|y a2].
           ++ exfalso. apply IH in Em as (a & b & Hs & Ha & Hmin & Hk & Hmax).
              specialize (Hmax2 (x :: a) b). simpl in Hmax2.
              rewrite Ex, Ha, pushes_cons in Hmax2. rewrite andb_false_l in Hk.
              rewrite Hmax2 in Hk; [discriminate|congruence|reflexivity|lia].
           ++ simpl in Hs2. injection Hs2 as <- Hs2. simpl in Ha2, Hmin2.
              rewrite Ex in Ha2. rewrite andb_false_r, pushes_cons in Hk2.
              assert (Em2 : many_go k cls min (S n) false (push x acc) s = Some m).
              { apply IH. exists a2, b2. repeat split; auto; try lia.
                intros a' b' Hs' Ha' Hl. rewrite <- pushes_cons.
                apply Hmax2; simpl; [congruence|now rewrite Ex|lia]. }
              congruence.
      * rewrite Hstop. split.
        -- intros [Hmin Hk]. exists [], (x :: s).
           rewrite andb_true_r, pushes_nil. repeat split; auto; try (simpl; lia).
           intros [|y a'] b' Hs' Ha' Hl; [simpl in Hl; lia|].
           simpl in Hs'. injection Hs' as <- Hs'. simpl in Ha'. rewrite Ex in Ha'.
           rewrite pushes_cons.
           pose proof (proj1 (many_go_none _ _ _ _ _ _ _) Em a' b' Hs' Ha') as Hn.
           rewrite andb_false_l in Hn. apply Hn. lia.
        -- intros (a2 & b2 & Hs2 & Ha2 & Hmin2 & Hk2 & Hmax2).
           destruct a2 as [|y a2].
           ++ simpl in Hs2, Hmin2. subst b2. rewrite andb_true_r, pushes_nil in Hk2.
              split; [lia|exact Hk2].
           ++ exfalso. simpl in Hs2. injection Hs2 as <- Hs2. simpl in Ha2, Hmin2.
              rewrite Ex in Ha2. rewrite andb_false_r, pushes_cons in Hk2.
              pose proof (proj1 (many_go_none _ _ _ _ _ _ _) Em a2 b2 Hs2 Ha2) as Hn.
              rewrite andb_false_l in Hn. rewrite Hn in Hk2; [discriminate|lia].
    + rewrite Hstop. split.
      * intros [Hmin Hk]. exists [], (x :: s).
        rewrite andb_true_r, pushes_nil. repeat split; auto; try (simpl; lia).
        intros [|y a'] b' Hs' Ha' Hl; [simpl in Hl; lia|].
        simpl in Hs'. injection Hs' as <- Hs'. simpl in Ha'. now rewrite Ex in Ha'.
      * intros (a2 & b2 & Hs2 & Ha2 & Hmin2 & Hk2 & Hmax2).
        destruct a2 as [|y a2].
        -- simpl in Hs2, Hmin2. subst b2. rewrite andb_true_r, pushes_nil in Hk2.
           split; [lia|exact Hk2].
        -- simpl in Hs2. injection Hs2 as <- Hs2. simpl in Ha2. now rewrite Ex in Ha2.
Qed.

Lemma rmatch_Bol r bol acc s :
  rmatch (Bol :: r) bol acc s = if bol then rmatch r bol acc s else None.
Proof. reflexivity. Qed.

Lemma rmatch_GroupOpen r bol acc s :
  rmatch (GroupOpen :: r) bol acc s = rmatch r bol (Some []) s.
Proof. reflexivity. Qed.

(** The search returns the leftmost start position at which the pattern
    matches. *)
Lemma search_none r bol s :
  search r bol s = None <->
  forall pre from, s = pre ++ from -> rmatch r (bol && is_nil pre) None from = None.
Proof.
  revert bol; induction s as [|x s IH]; intros bol; simpl.
  - destruct (rmatch r bol None []) eqn:E.
    + split; [discriminate|]. intros H. specialize (H [] [] eq_refl).
      rewrite andb_true_r in H. congruence.
    + split; [|reflexivity]. intros _ pre from Hs.
      symmetry in Hs. apply app_eq_nil in Hs as [-> ->]. now rewrite andb_true_r.
  - destruct (rmatch r bol None (x :: s)) eqn:E.
    + split; [discriminate|]. intros H. specialize (H [] (x :: s) eq_refl).
      rewrite andb_true_r in H. congruence.
    + rewrite IH. split.
      * intros H [|y pre] from Hs.
        -- simpl in Hs. subst from. now rewrite andb_true_r.
        -- simpl in Hs. injection Hs as <- Hs. rewrite andb_false_r.
           apply (H pre from Hs).
      * intros H pre from Hs. specialize (H (x :: pre) from).
        rewrite andb_false_r in H. simpl. apply H. simpl; congruence.
Qed.

Lemma search_some r bol s m from :
  search r bol s = Some (m, from) <->
  exists pre, s = pre ++ from /\ rmatch r (bol && is_nil pre) None from = Some m /\
    forall pre' from', s = pre' ++ from' -> (length pre' < length pre)%nat ->
      rmatch r (bol && is_nil pre') None from' = None.
Proof.
  revert bol; induction s as [|x s IH]; intros bol; simpl.
  - destruct (rmatch r bol None []) eqn:E.
    + split.
      * intros H; injection H as <- <-. exists []. rewrite andb_true_r.
        repeat split; auto. intros ? ? _ Hl. simpl in Hl; lia.
      * intros (pre & Hs & Hm & _). symmetry in Hs.
        apply app_eq_nil in Hs as [-> ->]. rewrite andb_true_r in Hm. congruence.
    + split; [discriminate|]. intros (pre & Hs & Hm & _). symmetry in Hs.
      apply app_eq_nil in Hs as [-> ->]. rewrite andb_true_r in Hm. congruence.
  - destruct (rmatch r bol None (x :: s)) eqn:E.
    + split.
      * intros H; injection H as <- <-. exists []. rewrite andb_true_r.
        repeat split; auto. intros ? ? _ Hl. simpl in Hl; lia.
      * intros ([|y pre] & Hs & Hm & Hmin).
        -- simpl in Hs. subst from. rewrite andb_true_r in Hm. congruence.
        -- specialize (Hmin [] (x :: s) eq_refl). rewrite andb_true_r in Hmin.
           rewrite Hmin in E; [discriminate|simpl; lia].
    + rewrite IH. split.
      * intros (pre & Hs & Hm & Hmin). exists (x :: pre). subst s.
        rewrite andb_false_r. repeat split; auto.
        intros [|y pre'] from' Hs' Hl.
        -- simpl in Hs'. subst from'. now rewrite andb_true_r.
        -- simpl in Hs'. injection Hs' as <- Hs'. rewrite andb_false_r.
           apply (Hmin pre' from' Hs'). simpl in Hl; lia.
      * intros ([|y pre] & Hs & Hm & Hmin).
        -- simpl in Hs. subst from. rewrite andb_true_r in Hm. congruence.
        -- simpl in Hs. injection Hs as <- Hs. rewrite andb_false_r in Hm.
           exists pre. repeat split; auto.
           intros pre' from' Hs' Hl. specialize (Hmin (x :: pre') from').
           rewrite andb_false_r in Hmin. apply Hmin; simpl; [congruence|lia].
Qed.


(** *** The bundle version of a tag name *)

Lemma many_dot_to_end n bol acc X :
  many_go (rmatch [GroupClose; Eol]) dot 0 n bol (Some acc) X =
  if one_line X then Some (Some (rev acc ++ X), []) else None.
Proof.
  revert n bol acc; induction X as [|x X IH]; intros n bol acc.
  - simpl. now rewrite app_nil_r.
  - cbn [many_go one_line forallb]. destruct (dot x) eqn:Ex; [|reflexivity].
    simpl push. rewrite IH. fold (one_line X). simpl andb.
    destruct (one_line X); [|reflexivity].
    simpl. now rewrite <- app_assoc.
Qed.

Lemma rmatch_bundle_version bol s :
  rmatch re_bundle_version bol None s =
  if bol then
    match strip_prefix (str "codeql-bundle-") s with
    | Some X => if one_line X then Some (Some X, []) else None
    | None => None
    end
  else None.
Proof.
  unfold re_bundle_version. cbn [rmatch]. destruct bol; [|reflexivity].
  unfold lit. rewrite rmatch_lit.
  destruct (strip_prefix (str "codeql-bundle-") s) as [X|]; [|reflexivity].
  rewrite rmatch_GroupOpen, rmatch_Many. apply many_dot_to_end.
Qed.

Lemma tryGetBundleVersionFromTagName_eq tagName :
  tryGetBundleVersionFromTagName tagName =
  match strip_prefix (str "codeql-bundle-") tagName with
  | Some X => if one_line X then Some X else None
  | None => None
  end.
Proof.
  unfold tryGetBundleVersionFromTagName, String_match.
  destruct tagName as [|x s]; [reflexivity|].
  cbn [search]. rewrite rmatch_bundle_version.
  assert (Hn : search re_bundle_version false s = None).
  { apply search_none. intros pre from _. now rewrite rmatch_bundle_version. }
  rewrite Hn.
  destruct (strip_prefix (str "codeql-bundle-") (x :: s)) as [X|]; [|reflexivity].
  destruct (one_line X); reflexivity.
Qed.

(** C8 (as the code has it): the extractor returns [X] exactly on the
    strings [codeql-bundle-X] whose [X] holds no line terminator, since
    [.] does not match one; on every other string it returns none. *)
Theorem bundle_version_from_tag_name (tagName X : jsstring) :
  tryGetBundleVersionFromTagName tagName = Some X <->
  tagName = str "codeql-bundle-" ++ X /\ one_line X = true.
Proof.
  rewrite tryGetBundleVersionFromTagName_eq.
  destruct (strip_prefix (str "codeql-bundle-") tagName) as [Y|] eqn:E.
  - apply strip_prefix_spec in E. subst tagName. split.
    + destruct (one_line Y) eqn:EY; [|discriminate].
      intros H; injection H as <-. auto.
    + intros [H HX]. apply app_inv_head in H. subst Y. now rewrite HX.
  - split; [discriminate|]. intros [H _].
    apply strip_prefix_spec in H. congruence.
Qed.

(** C8, the claim as stated fails: [X] is the three characters a, LF, b. *)
Lemma bundle_version_from_tag_name_line_terminator :
  tryGetBundleVersionFromTagName (str "codeql-bundle-" ++ [97; 10; 98]%N) = None.
Proof. reflexivity. Qed.

(** *** The tag name and the version in a URL *)


Lemma re_tag_in_url_seg : re_tag_in_url = re_seg (str "/") (str "codeql-bundle-").
Proof. reflexivity. Qed.

Lemma re_url_version_seg : re_url_version = re_seg (str "/codeql-bundle-") [].
Proof. reflexivity. Qed.

Lemma rmatch_close_slash bol acc t :
  rmatch [GroupClose; Chr slash] bol (Some acc) t =
  match strip_prefix [slash] t with
  | Some rest => Some (Some (rev acc), rest)
  | None => None
  end.
Proof.
  simpl. destruct t as [|x t]; [reflexivity|].
  destruct (char_eqb x slash); reflexivity.
Qed.

(** A match of [re_seg p q] at the start of [s]: the group takes [q]
    and the longest one-line [X] that a slash follows. *)
Lemma rmatch_seg_some p q bol s cap rest :
  rmatch (re_seg p q) bol None s = Some (cap, rest) <->
  exists X, s = p ++ q ++ X ++ slash :: rest /\ cap = Some (q ++ X) /\
    one_line X = true /\
    forall X' rest', X ++ slash :: rest = X' ++ slash :: rest' ->
      one_line X' = true -> (length X' <= length X)%nat.
Proof.
  unfold re_seg. rewrite rmatch_lit.
  destruct (strip_prefix p s) as [s1|] eqn:E1.
  2:{ split; [discriminate|]. intros (X & Hs & _).
      apply strip_prefix_spec in Hs. congruence. }
  apply strip_prefix_spec in E1. subst s.
  rewrite rmatch_GroupOpen, rmatch_lit.
  destruct (strip_prefix q s1) as [s2|] eqn:E2.
  2:{ split; [discriminate|]. intros (X & Hs & _).
      apply app_inv_head in Hs. apply strip_prefix_spec in Hs. congruence. }
  apply strip_prefix_spec in E2. subst s1.
  rewrite rmatch_Many, many_go_some. cbn [pushes option_map].
  split.
  - intros (a & b & Hs & Ha & _ & Hk & Hmax).
    rewrite rmatch_close_slash in Hk.
    destruct (strip_prefix [slash] b) as [r|] eqn:Eb; [|discriminate].
    apply strip_prefix_spec in Eb. simpl in Eb. subst b.
    injection Hk as <- <-. exists a. subst s2.
    rewrite rev_app_distr, app_nil_r, !rev_involutive.
    repeat split; auto.
    intros X' rest' HX HX'.
    destruct (Nat.le_gt_cases (length X') (length a)) as [Hle|Hgt]; [exact Hle|].
    specialize (Hmax X' (slash :: rest') HX HX' Hgt).
    rewrite rmatch_close_slash in Hmax.
    change (slash :: rest') with ([slash] ++ rest') in Hmax.
    rewrite strip_prefix_app in Hmax. discriminate.
  - intros (X & Hs & -> & HX & Hmax).
    apply app_inv_head in Hs. apply app_inv_head in Hs. subst s2.
    exists X, (slash :: rest). repeat split; auto; try lia.
    + rewrite rmatch_close_slash.
      change (slash :: rest) with ([slash] ++ rest).
      now rewrite strip_prefix_app, rev_app_distr, app_nil_r, !rev_involutive.
    + intros a' b' Hs' Ha' Hl. rewrite rmatch_close_slash.
      destruct (strip_prefix [slash] b') as [r|] eqn:Eb; [|reflexivity].
      apply strip_prefix_spec in Eb. simpl in Eb. subst b'.
      specialize (Hmax a' r Hs' Ha'). lia.
Qed.

Lemma rmatch_seg_none p q bol s :
  rmatch (re_seg p q) bol None s = None <->
  forall X rest, s = p ++ q ++ X ++ slash :: rest -> one_line X = false.
Proof.
  unfold re_seg. rewrite rmatch_lit.
  destruct (strip_prefix p s) as [s1|] eqn:E1.
  2:{ split; [|reflexivity]. intros _ X rest Hs.
      apply strip_prefix_spec in Hs. congruence. }
  apply strip_prefix_spec in E1. subst s.
  rewrite rmatch_GroupOpen, rmatch_lit.
  destruct (strip_prefix q s1) as [s2|] eqn:E2.
  2:{ split; [|reflexivity]. intros _ X rest Hs.
      apply app_inv_head in Hs. apply strip_prefix_spec in Hs. congruence. }
  apply strip_prefix_spec in E2. subst s1.
  rewrite rmatch_Many, many_go_none. cbn [pushes option_map].
  split.
  - intros H X rest Hs. apply app_inv_head in Hs. apply app_inv_head in Hs.
    destruct (one_line X) eqn:EX; [|reflexivity].
    specialize (H X (slash :: rest) Hs EX (Nat.le_0_l _)).
    rewrite rmatch_close_slash in H.
    change (slash :: rest) with ([slash] ++ rest) in H.
    rewrite strip_prefix_app in H. discriminate.
  - intros H a b Hs Ha _. rewrite rmatch_close_slash.
    destruct (strip_prefix [slash] b) as [r|] eqn:Eb; [|reflexivity].
    apply strip_prefix_spec in Eb. simpl in Eb. subst b.
    subst s2. specialize (H a r eq_refl). unfold one_line in H. congruence.
Qed.

Lemma app_eq_length (A : Type) (a a' b b' : list A) :
  a ++ b = a' ++ b' -> length a = length a' -> a = a' /\ b = b'.
Proof.
  revert a'; induction a as [|x a IH]; intros [|y a'] H Hl; simpl in *;
    try discriminate; auto.
  injection H as -> H. injection Hl as Hl.
  destruct (IH a' H Hl) as [-> ->]. auto.
Qed.

Section Segment.
Variables p q : jsstring.

Lemma has_group_seg : has_group (re_seg p q) = true.
Proof.
  unfold has_group, re_seg. rewrite existsb_app. simpl. apply orb_true_r.
Qed.

Lemma seg_group_search url :
  seg_group p q url =
  match search (re_seg p q) true url with
  | Some ((cap, _), _) => cap
  | None => None
  end.
Proof.
  unfold seg_group, String_match.
  destruct (search (re_seg p q) true url) as [[[cap rest] from]|]; [|reflexivity].
  now rewrite has_group_seg.
Qed.

Lemma seg_group_some url t :
  seg_group p q url = Some t <->
  exists pre X post, seg_occurrence p q url pre X post /\
    seg_first_longest p q url pre X /\ t = q ++ X.
Proof.
  rewrite seg_group_search. split.
  - destruct (search (re_seg p q) true url) as [[[cap rest] from]|] eqn:E;
      [|discriminate].
    intros ->. apply search_some in E as (pre & Hs & Hm & Hleft).
    apply rmatch_seg_some in Hm as (X & Hfrom & Hcap & HX & Hlong).
    injection Hcap as ->. exists pre, X, rest. subst from.
    repeat split; auto.
    + destruct H as [Hs' HX'].
      destruct (Nat.le_gt_cases (length pre) (length pre')) as [Hle|Hgt]; [exact Hle|].
      specialize (Hleft pre' _ Hs' Hgt).
      pose proof (proj1 (rmatch_seg_none _ _ _ _) Hleft X' post' eq_refl). congruence.
    + intros Hl. destruct H as [Hs' HX']. rewrite Hs in Hs'.
      symmetry in Hl.
      apply app_eq_length in Hs' as [_ Hs']; [|exact Hl].
      do 2 apply app_inv_head in Hs'. apply (Hlong X' post' Hs' HX').
  - intros (pre & X & post & [Hs HX] & Hfl & ->).
    assert (E : search (re_seg p q) true url =
                Some ((Some (q ++ X), post), p ++ q ++ X ++ slash :: post)).
    { apply search_some. exists pre. repeat split; auto.
      - apply rmatch_seg_some. exists X. repeat split; auto.
        intros X' rest' HX' Hone.
        apply (Hfl pre X' rest'); [|reflexivity].
        split; [|exact Hone]. now rewrite <- HX'.
      - intros pre' from' Hs' Hl. apply rmatch_seg_none.
        intros X' rest' Hfrom. destruct (one_line X') eqn:EX'; [|reflexivity].
        exfalso. destruct (Hfl pre' X' rest') as [Hle _]; [|lia].
        split; [|exact EX']. now rewrite <- Hfrom. }
    now rewrite E.
Qed.

Lemma seg_group_none url :
  seg_group p q url = None <-> forall pre X post, ~ seg_occurrence p q url pre X post.
Proof.
  rewrite seg_group_search. split.
  - destruct (search (re_seg p q) true url) as [[[cap rest] from]|] eqn:E.
    + intros ->. apply search_some in E as (pre & _ & Hm & _).
      apply rmatch_seg_some in Hm as (X & _ & Hcap & _). discriminate.
    + intros _ pre X post [Hs HX].
      pose proof (proj1 (search_none _ _ _) E pre _ Hs) as Hn.
      pose proof (proj1 (rmatch_seg_none _ _ _ _) Hn X post eq_refl). congruence.
  - intros H.
    assert (E : search (re_seg p q) true url = None).
    { apply search_none. intros pre from Hs. apply rmatch_seg_none.
      intros X rest Hfrom. destruct (one_line X) eqn:EX; [|reflexivity].
      exfalso. apply (H pre X rest). split; [|exact EX]. now rewrite <- Hfrom. }
    now rewrite E.
Qed.
End Segment.


(** C9 (as the code has it): the extractor returns the text the pattern
    captures: it starts at the leftmost [/codeql-bundle-] that a slash follows
    on the same line and runs to the last such slash, so it begins with
    [codeql-bundle-], holds no line terminator, and may hold slashes; it
    returns none exactly when no [/codeql-bundle-X/] with a one-line [X]
    occurs. *)
Theorem tag_name_from_url (url : jsstring) :
  (forall t, tryGetTagNameFromUrl url = Some t <->
     exists pre X post, bundle_occurrence url pre X post /\
       first_longest url pre X /\ t = str "codeql-bundle-" ++ X) /\
  (tryGetTagNameFromUrl url = None <->
     forall pre X post, ~ bundle_occurrence url pre X post).
Proof.
  change (tryGetTagNameFromUrl url) with (seg_group (str "/") (str "codeql-bundle-") url).
  split; [intros t; apply seg_group_some | apply seg_group_none].
Qed.

(** C9, the claim as stated fails: the segment [codeql-bundle-1] lies
    between two slashes and holds none, and the extractor returns a text
    with a slash in it. *)
Lemma tag_name_from_url_spans_segments :
  let url := str "https://example.com/codeql-bundle-1/a/b" in
  url = str "https://example.com" ++ str "/" ++ str "codeql-bundle-1" ++ str "/" ++ str "a/b" /\
  has_slash (str "codeql-bundle-1") = false /\
  tryGetTagNameFromUrl url = Some (str "codeql-bundle-1/a").
Proof. repeat split. Qed.

(** C10: on a URL that holds [/codeql-bundle-X/] with a one-line [X] the
    helper returns the captured suffix (of the leftmost occurrence, at its
    longest extent); on every other string it raises the error
    [Malformed tools url]; it never returns undefined. *)
Theorem url_version_total (url : jsstring) :
  (exists pre X post, bundle_occurrence url pre X post /\ first_longest url pre X /\
     getCodeQLURLVersion url = Ok (Some X)) \/
  ((forall pre X post, ~ bundle_occurrence url pre X post) /\
   getCodeQLURLVersion url =
     Throw (str "Malformed tools url: " ++ url ++ str ". Version could not be inferred")).
Proof.
  assert (E : getCodeQLURLVersion url =
    match seg_group (str "/codeql-bundle-") [] url with
    | Some X => Ok (Some X)
    | None => Throw (str "Malformed tools url: " ++ url ++ str ". Version could not be inferred")
    end).
  { unfold getCodeQLURLVersion. rewrite seg_group_search. unfold String_match.
    rewrite re_url_version_seg.
    destruct (search _ true url) as [[[cap rest] from]|] eqn:Es; [|reflexivity].
    rewrite has_group_seg. simpl.
    apply search_some in Es as (pre & _ & Hm & _).
    apply rmatch_seg_some in Hm as (X & _ & -> & _). reflexivity. }
  rewrite E. destruct (seg_group (str "/codeql-bundle-") [] url) as [X|] eqn:Eg.
  - left. apply seg_group_some in Eg as (pre & X' & post & Ho & Hfl & ->).
    exists pre, X', post. split; [exact Ho|]. split; [exact Hfl|reflexivity].
  - right. split; [|reflexivity].
    exact (proj1 (seg_group_none (str "/codeql-bundle-") [] url) Eg).
Qed.

Example url_version_release_url :
  getCodeQLURLVersion
    (str "https://github.com/github/codeql-action/releases/download/codeql-bundle-20230101/codeql-bundle-linux64.tar.gz")
  = Ok (Some (str "20230101")).
Proof. reflexivity. Qed.

Example tag_name_release_url :
  tryGetTagNameFromUrl
    (str "https://github.com/github/codeql-action/releases/download/codeql-bundle-20230101/codeql-bundle-linux64.tar.gz")
  = Some (str "codeql-bundle-20230101").
Proof. reflexivity. Qed.

(** ** The semver model *)

Module semver_facts.
Import semver.

Lemma digit_cases c :
  digit c = true ->
  (c = 48 \/ c = 49 \/ c = 50 \/ c = 51 \/ c = 52 \/
   c = 53 \/ c = 54 \/ c = 55 \/ c = 56 \/ c = 57)%N.
Proof.
  unfold digit. intros H. apply andb_true_iff in H as [H1 H2].
  apply N.leb_le in H1, H2. lia.
Qed.

Lemma digits_of_uint_of_digits ds :
  forallb digit ds = true -> digits_of_uint (uint_of_digits ds) = ds.
Proof.
  induction ds as [|c ds IH]; simpl; [reflexivity|].
  intros H. apply andb_true_iff in H as [Hc Hds].
  apply digit_cases in Hc.
  repeat (destruct Hc as [->|Hc]); try subst c; simpl; now rewrite IH.
Qed.

Lemma unorm_numeric ds :
  forallb digit ds = true -> numeric_identifier ds = true ->
  Decimal.unorm (uint_of_digits ds) = uint_of_digits ds.
Proof.
  destruct ds as [|c ds]; [discriminate|].
  simpl forallb. intros H Hn. apply andb_true_iff in H as [Hc _].
  apply digit_cases in Hc.
  destruct ds as [|c' ds].
  - repeat (destruct Hc as [->|Hc]); try subst c; reflexivity.
  - simpl in Hn. apply negb_true_iff in Hn.
    repeat (destruct Hc as [->|Hc]); try subst c; try discriminate; reflexivity.
Qed.

(** A numeric identifier is the text of the number it denotes. *)
Lemma digits_of_number_of_digits ds :
  forallb digit ds = true -> numeric_identifier ds = true ->
  digits_of_number (number_of_digits ds) = ds.
Proof.
  intros Hd Hn. unfold digits_of_number, number_of_digits.
  rewrite Unsigned.to_of, unorm_numeric by assumption.
  now apply digits_of_uint_of_digits.
Qed.

Lemma identifier_text_numberify id :
  prerelease_identifier id = true -> identifier_text (numberify id) = id.
Proof.
  unfold prerelease_identifier, numberify. intros H.
  apply andb_true_iff in H as [_ H].
  destruct (forallb digit id) eqn:Hd; [|now rewrite andb_false_r].
  rewrite andb_true_r. destruct (truthy id); [|reflexivity].
  destruct (N.ltb _ _); [|reflexivity].
  simpl. now apply digits_of_number_of_digits.
Qed.

Lemma split_on_not_nil sep s : split_on sep s <> [].
Proof.
  destruct s as [|x s]; simpl; [discriminate|].
  destruct (char_eqb x sep); [discriminate|].
  destruct (split_on sep s); discriminate.
Qed.

Lemma join_cons sep x h t : join sep (x :: h :: t) = x ++ sep ++ join sep (h :: t).
Proof. reflexivity. Qed.

Lemma join_split_on sep s : join [sep] (split_on sep s) = s.
Proof.
  induction s as [|x s IH]; [reflexivity|]. simpl split_on.
  pose proof (split_on_not_nil sep s) as Hne.
  destruct (char_eqb x sep) eqn:E.
  - apply char_eqb_eq in E. subst x.
    destruct (split_on sep s) as [|h t]; [congruence|].
    rewrite join_cons, IH. reflexivity.
  - destruct (split_on sep s) as [|h t]; [congruence|].
    destruct t as [|h' t]; simpl in *; now rewrite <- IH.
Qed.

(** The characters of a text are those of its parts and the separator. *)
Lemma in_split_on sep s c :
  In c s -> c = sep \/ exists id, In id (split_on sep s) /\ In c id.
Proof.
  induction s as [|x s IH]; [intros []|]. simpl split_on.
  intros [->|Hin].
  - destruct (char_eqb c sep) eqn:E; [left; now apply char_eqb_eq|].
    right. destruct (split_on sep s) as [|h t]; eexists; split;
      try (left; reflexivity); now left.
  - destruct (IH Hin) as [->|(id & Hid & Hc)]; [now left|]. right.
    destruct (char_eqb x sep).
    + exists id. split; [now right|assumption].
    + destruct (split_on sep s) as [|h t]; [destruct Hid|].
      destruct Hid as [->|Hid].
      * exists (x :: id). split; [now left|now right].
      * exists id. split; [now right|assumption].
Qed.

Lemma span_spec f s a b :
  span f s = (a, b) ->
  s = a ++ b /\ forallb f a = true /\
  match b with [] => True | x :: _ => f x = false end.
Proof.
  revert a b; induction s as [|x s IH]; intros a b; simpl.
  - intros H; injection H as <- <-. auto.
  - destruct (f x) eqn:E.
    + destruct (span f s) as [a' b'] eqn:Es. intros H; injection H as <- <-.
      destruct (IH a' b' eq_refl) as (-> & Ha & Hb). simpl. rewrite E. auto.
    + intros H; injection H as <- <-. simpl. auto.
Qed.

Lemma span_app f a b :
  forallb f a = true -> match b with [] => True | x :: _ => f x = false end ->
  span f (a ++ b) = (a, b).
Proof.
  intros Ha Hb. induction a as [|x a IH]; simpl.
  - destruct b as [|y b]; simpl; [reflexivity|]. now rewrite Hb.
  - simpl in Ha. apply andb_true_iff in Ha as [Hx Ha]. now rewrite Hx, IH.
Qed.

Lemma drop_while_head f s :
  match s with [] => True | x :: _ => f x = false end -> drop_while f s = s.
Proof. destruct s as [|x s]; simpl; [reflexivity|]. now intros ->. Qed.

Lemma drop_while_length f s : (length (drop_while f s) <= length s)%nat.
Proof.
  induction s as [|x s IH]; simpl; [lia|]. destruct (f x); simpl; lia.
Qed.

Lemma trim_length s : (length (trim s) <= length s)%nat.
Proof.
  unfold trim. rewrite length_rev.
  etransitivity; [apply drop_while_length|]. rewrite length_rev.
  apply drop_while_length.
Qed.

Lemma trim_no_space s :
  (forall c, In c s -> is_space c = false) -> trim s = s.
Proof.
  intros H. unfold trim. rewrite (drop_while_head is_space s).
  - rewrite drop_while_head; [apply rev_involutive|].
    destruct (rev s) as [|x r] eqn:E; [exact I|].
    apply H. apply in_rev. rewrite E. now left.
  - destruct s as [|x s]; [exact I|]. apply H. now left.
Qed.
End semver_facts.

Module semver_parse_facts.
Import semver semver_facts.

Lemma take_numeric_sound s ds rest :
  take_numeric s = Some (ds, rest) ->
  s = ds ++ rest /\ wf_numeric ds.
Proof.
  unfold take_numeric. destruct (span digit s) as [a b] eqn:E.
  destruct (numeric_identifier a) eqn:En; [|discriminate].
  intros H; injection H as <- <-.
  apply span_spec in E as (-> & Ha & _). repeat split; auto.
Qed.

Lemma take_numeric_app ds rest :
  wf_numeric ds -> match rest with [] => True | x :: _ => digit x = false end ->
  take_numeric (ds ++ rest) = Some (ds, rest).
Proof.
  intros [Hd Hn] Hr. unfold take_numeric. now rewrite span_app, Hn.
Qed.

Lemma expect_sound c s s' : expect c s = Some s' -> s = c :: s'.
Proof.
  destruct s as [|x s]; simpl; [discriminate|].
  destruct (char_eqb x c) eqn:E; [|discriminate].
  apply char_eqb_eq in E. congruence.
Qed.

Lemma match_tail_sound s m4 m5 :
  match_tail s = Some (m4, m5) ->
  wf_prerelease m4 /\ (length (tail_text m4) <= length s)%nat.
Proof.
  destruct s as [|c s]; simpl.
  - intros H; injection H as <- <-. simpl. auto.
  - destruct (char_eqb c dash) eqn:Ec.
    + destruct (span _ s) as [pre rest] eqn:Es.
      destruct (forallb prerelease_identifier _) eqn:Ep; [|discriminate].
      apply span_spec in Es as (-> & Hpre & _).
      destruct rest as [|x b].
      * intros H; injection H as <- <-. simpl. rewrite app_nil_r. auto.
      * destruct (forallb build_identifier _); [|discriminate].
        intros H; injection H as <- <-. simpl. rewrite length_app. split; [auto|lia].
    + destruct (char_eqb c plus); [|discriminate].
      destruct (forallb build_identifier _); [|discriminate].
      intros H; injection H as <- <-. simpl. split; [auto|lia].
Qed.

Lemma match_tail_canon m4 :
  wf_prerelease m4 -> match_tail (tail_text m4) = Some (m4, None).
Proof.
  destruct m4 as [pre|]; simpl; [|reflexivity].
  intros [Hp Hids]. 
  replace (span (fun x => negb (char_eqb x plus)) pre) with (pre, @nil char).
  - now rewrite Hids.
  - symmetry. rewrite <- (app_nil_r pre) at 1. now apply span_app.
Qed.

Lemma tail_text_head m4 :
  match tail_text m4 with [] => True | x :: _ => digit x = false end.
Proof. destruct m4; simpl; auto. Qed.

Lemma match_FULL_sound s m :
  match_FULL s = Some m -> wf_groups m /\ (length (canon m) <= length s)%nat.
Proof.
  unfold match_FULL.
  set (s0 := match s with c :: s' => if char_eqb c 118%N then s' else s | [] => s end).
  assert (Hl : (length s0 <= length s)%nat).
  { subst s0. destruct s as [|c s']; [simpl; lia|].
    destruct (char_eqb c 118%N); simpl; lia. }
  destruct (take_numeric s0) as [[m1 s1]|] eqn:E1; [|discriminate].
  destruct (expect period s1) as [s2|] eqn:E2; [|discriminate].
  destruct (take_numeric s2) as [[m2 s3]|] eqn:E3; [|discriminate].
  destruct (expect period s3) as [s4|] eqn:E4; [|discriminate].
  destruct (take_numeric s4) as [[m3 s5]|] eqn:E5; [|discriminate].
  destruct (match_tail s5) as [[m4 m5]|] eqn:E6; [|discriminate].
  intros H; injection H as <-.
  apply take_numeric_sound in E1 as [H1 W1], E3 as [H3 W3], E5 as [H5 W5].
  apply expect_sound in E2, E4. apply match_tail_sound in E6 as [W4 L4].
  split; [repeat split; simpl; auto; apply W1 || apply W3 || apply W5|].
  unfold canon. simpl. rewrite H1, E2, H3, E4, H5 in Hl.
  revert Hl. rewrite !length_app. simpl. rewrite !length_app. simpl.
  rewrite !length_app. lia.
Qed.

Lemma numeric_head ds :
  wf_numeric ds -> exists c ds', ds = c :: ds' /\ digit c = true.
Proof.
  intros [Hd Hn]. destruct ds as [|c ds']; [discriminate|].
  simpl in Hd. apply andb_true_iff in Hd as [Hc _]. eauto.
Qed.

Lemma strip_v_digit (s : jsstring) :
  match s with [] => True | x :: _ => digit x = true end ->
  match s with c :: s' => if char_eqb c 118%N then s' else s | [] => s end = s.
Proof.
  destruct s as [|c s]; [reflexivity|]. intros Hc.
  apply digit_cases in Hc.
  repeat (destruct Hc as [->|Hc]); try subst c; reflexivity.
Qed.

Lemma canon_head m :
  wf_groups m -> match canon m with [] => True | x :: _ => digit x = true end.
Proof.
  intros (W1 & _). destruct (numeric_head _ W1) as (c & ds & E & Hc).
  unfold canon. now rewrite E.
Qed.

Lemma match_FULL_canon m :
  wf_groups m -> match_FULL (canon m) = Some (no_build m).
Proof.
  intros W. pose proof (canon_head _ W) as Hh. destruct W as (W1 & W2 & W3 & W4).
  unfold match_FULL. cbv zeta. rewrite (strip_v_digit _ Hh). unfold canon.
  rewrite take_numeric_app; [|assumption|reflexivity].
  simpl expect. cbv beta iota.
  rewrite take_numeric_app; [|assumption|reflexivity].
  simpl expect. cbv beta iota.
  rewrite take_numeric_app; [|assumption|apply tail_text_head].
  now rewrite match_tail_canon.
Qed.
End semver_parse_facts.

Module semver_canonical.
Import semver semver_facts semver_parse_facts.

Ltac bool_to_prop :=
  repeat match goal with
    | H : _ || _ = true |- _ => apply orb_true_iff in H; destruct H as [H|H]
    | H : _ && _ = true |- _ => apply andb_true_iff in H; destruct H as [? H]
    | H : N.leb _ _ = true |- _ => apply N.leb_le in H
    | H : N.eqb _ _ = true |- _ => apply N.eqb_eq in H
    | H : char_eqb _ _ = true |- _ => apply N.eqb_eq in H
    end.

Lemma letterdashnumber_not_space c :
  letterdashnumber c = true -> is_space c = false.
Proof.
  intros H. destruct (is_space c) eqn:E; [exfalso|reflexivity].
  unfold letterdashnumber, letter, digit, dash in H. unfold is_space in E.
  bool_to_prop; lia.
Qed.

Lemma digit_letterdashnumber c : digit c = true -> letterdashnumber c = true.
Proof.
  intros H. unfold letterdashnumber. rewrite H. now rewrite orb_true_r.
Qed.

Lemma numeric_no_space ds c :
  wf_numeric ds -> In c ds -> is_space c = false.
Proof.
  intros [Hd _] Hin. apply letterdashnumber_not_space, digit_letterdashnumber.
  rewrite forallb_forall in Hd. now apply Hd.
Qed.

Lemma canon_no_space m c :
  wf_groups m -> In c (canon m) -> is_space c = false.
Proof.
  intros (W1 & W2 & W3 & W4). unfold canon.
  rewrite in_app_iff. cbn [In]. rewrite in_app_iff. cbn [In]. rewrite in_app_iff.
  intros [H|[E|[H|[E|[H|H]]]]]; try (subst c; vm_compute; reflexivity);
    try (first [exact (@numeric_no_space _ _ W1 H) | exact (@numeric_no_space _ _ W2 H)
               | exact (@numeric_no_space _ _ W3 H)]).
  revert H W4. destruct (g_prerelease m) as [pre|]; simpl; intros H W4; [|destruct H].
  destruct H as [<-|H]; [reflexivity|].
  destruct W4 as [_ Hids].
  destruct (in_split_on period pre c H) as [->|(id & Hid & Hc)]; [reflexivity|].
  rewrite forallb_forall in Hids. specialize (Hids id Hid).
  unfold prerelease_identifier in Hids. apply andb_true_iff in Hids as [Hl _].
  rewrite forallb_forall in Hl. apply letterdashnumber_not_space. now apply Hl.
Qed.

Lemma map_text_numberify ids :
  forallb prerelease_identifier ids = true ->
  map identifier_text (map numberify ids) = ids.
Proof.
  induction ids as [|id ids IH]; simpl; [reflexivity|].
  intros H. apply andb_true_iff in H as [Hid Hids].
  now rewrite identifier_text_numberify, IH.
Qed.

(** The formatted version is the matched text without the v and the
    build metadata. *)
Lemma of_groups_format m sv :
  wf_groups m -> of_groups m = Some sv -> format sv = canon m.
Proof.
  intros (W1 & W2 & W3 & W4). unfold of_groups.
  destruct (N.ltb _ _); [discriminate|].
  destruct (N.ltb _ _); [discriminate|].
  destruct (N.ltb _ _); [discriminate|].
  intros H; injection H as <-. unfold format, canon. cbn [major minor patch prerelease].
  destruct W1 as [D1 N1], W2 as [D2 N2], W3 as [D3 N3].
  rewrite !digits_of_number_of_digits by assumption.
  change (str ".") with [period]. cbn [app]. do 4 f_equal.
  destruct (g_prerelease m) as [pre|]; [|reflexivity].
  destruct W4 as [_ Hids]. simpl tail_text.
  destruct pre as [|x pre]; [discriminate|]. cbn [truthy].
  pose proof (split_on_not_nil period (x :: pre)) as Hne.
  pose proof (map_text_numberify _ Hids) as Hmap.
  pose proof (join_split_on period (x :: pre)) as Hjoin.
  destruct (split_on period (x :: pre)) as [|h t]; [congruence|].
  cbn [map] in *. rewrite Hmap. change (str ".") with [period].
  rewrite Hjoin. reflexivity.
Qed.

Lemma of_groups_no_build m sv :
  of_groups m = Some sv -> exists sv', of_groups (no_build m) = Some sv'.
Proof.
  unfold of_groups. cbn [no_build g_major g_minor g_patch].
  destruct (N.ltb _ _); [discriminate|].
  destruct (N.ltb _ _); [discriminate|].
  destruct (N.ltb _ _); [discriminate|]. eauto.
Qed.

Lemma wf_no_build m : wf_groups m -> wf_groups (no_build m).
Proof. intros H; exact H. Qed.

(** A version that [parse] produced parses again, to itself. *)
Lemma parse_format x sv :
  parse x = Some sv ->
  exists sv', parse (format sv) = Some sv' /\ format sv' = format sv.
Proof.
  unfold parse. destruct (Nat.ltb MAX_LENGTH (length x)) eqn:El; [discriminate|].
  destruct (match_FULL (trim x)) as [m|] eqn:Em; [|discriminate].
  intros Hg. apply match_FULL_sound in Em as [W L].
  rewrite (of_groups_format _ _ W Hg).
  apply Nat.ltb_ge in El. pose proof (trim_length x) as Lt.
  replace (Nat.ltb MAX_LENGTH (length (canon m))) with false
    by (symmetry; apply Nat.ltb_ge; lia).
  rewrite trim_no_space by (intros c; now apply canon_no_space).
  rewrite (match_FULL_canon _ W).
  destruct (of_groups_no_build _ _ Hg) as [sv' Hsv']. exists sv'. split; [exact Hsv'|].
  now rewrite (of_groups_format _ _ (wf_no_build _ W) Hsv').
Qed.

Lemma format_head x sv :
  parse x = Some sv ->
  match format sv with [] => False | c :: _ => digit c = true end.
Proof.
  unfold parse. destruct (Nat.ltb _ _); [discriminate|].
  destruct (match_FULL (trim x)) as [m|] eqn:Em; [|discriminate].
  intros Hg. apply match_FULL_sound in Em as [W L].
  rewrite (of_groups_format _ _ W Hg).
  pose proof (canon_head _ W) as Hh. destruct W as (W1 & _).
  destruct (numeric_head _ W1) as (c & ds & E & Hc).
  unfold canon in *. rewrite E in *. exact Hh.
Qed.

Lemma valid_format x sv :
  parse x = Some sv -> valid (format sv) = Some (format sv).
Proof.
  intros H. destruct (parse_format _ _ H) as (sv' & Hp & Hf).
  unfold valid. now rewrite Hp, <- Hf.
Qed.

Lemma clean_format x sv :
  parse x = Some sv -> clean (format sv) = Some (format sv).
Proof.
  intros H. pose proof (format_head _ _ H) as Hh.
  destruct (parse_format _ _ H) as (sv' & Hp & Hf).
  assert (Ht : trim (format sv) = format sv).
  { unfold parse in Hp. destruct (Nat.ltb _ _); [discriminate|].
    unfold parse in H. destruct (Nat.ltb _ _); [discriminate|].
    destruct (match_FULL (trim x)) as [m|] eqn:Em; [|discriminate].
    apply match_FULL_sound in Em as [W L].
    rewrite (of_groups_format _ _ W H).
    apply trim_no_space. intros c; now apply canon_no_space. }
  unfold clean. rewrite Ht, drop_while_head, Hp; [simpl; now rewrite Hf|].
  destruct (format sv) as [|c s]; [exact I|].
  apply digit_cases in Hh.
  repeat (destruct Hh as [->|Hh]); try subst c; reflexivity.
Qed.
End semver_canonical.

(** ** Coercion to a semantic version *)

(** The coercion is idempotent for every version of the library in which
    a cleaned version is valid and cleans to itself. *)
Section AnySemver.
Variables valid clean : jsstring -> option jsstring.
Hypothesis clean_canonical :
  forall v s, clean v = Some s -> valid s = Some s /\ clean s = Some s.

Lemma convertToSemVer_with_idempotent (v s : jsstring) :
  convertToSemVer_with valid clean v = Ok s ->
  convertToSemVer_with valid clean s = Ok s.
Proof.
  unfold convertToSemVer_with.
  set (x := if negb (truthy_opt (valid v)) then str "0.0.0-" ++ v else v).
  destruct (clean x) as [s'|] eqn:E; [|discriminate].
  destruct (truthy s') eqn:Ht; [|discriminate].
  intros H; injection H as <-.
  destruct (clean_canonical _ _ E) as [Hv Hc].
  rewrite Hv. cbn [truthy_opt]. rewrite Ht. cbn [negb]. now rewrite Hc, Ht.
Qed.
End AnySemver.

Lemma semver_clean_canonical (v s : jsstring) :
  semver.clean v = Some s -> semver.valid s = Some s /\ semver.clean s = Some s.
Proof.
  unfold semver.clean at 1.
  destruct (semver.parse _) as [sv|] eqn:E; [|discriminate].
  intros H; injection H as <-.
  split; [exact (semver_canonical.valid_format _ _ E)
         |exact (semver_canonical.clean_format _ _ E)].
Qed.

(** C2: the coercion is idempotent wherever it returns. *)
Theorem convertToSemVer_idempotent (v s : jsstring) :
  convertToSemVer v = Ok s -> convertToSemVer s = Ok s.
Proof.
  apply convertToSemVer_with_idempotent. exact semver_clean_canonical.
Qed.

Lemma convertToSemVer_idempotent_witness :
  convertToSemVer (str "20230101") = Ok (str "0.0.0-20230101") /\
  convertToSemVer (str "0.0.0-20230101") = Ok (str "0.0.0-20230101").
Proof.
  split; [vm_compute; reflexivity|].
  apply (convertToSemVer_idempotent (str "20230101")). vm_compute. reflexivity.
Defined.

Example convertToSemVer_semver : convertToSemVer (str "2.12.1") = Ok (str "2.12.1").
Proof. vm_compute. reflexivity. Qed.

Example convertToSemVer_throws :
  convertToSemVer (str "a b") = Throw (str "Bundle version 0.0.0-a b is not in SemVer format.").
Proof. vm_compute. reflexivity. Qed.

(** ** The candidate source enumerator *)

Lemma deep_equal_eq (a b : source) : deep_equal a b = true <-> a = b.
Proof.
  destruct a as [a1 a2], b as [b1 b2]. unfold deep_equal. simpl.
  rewrite andb_true_iff, !jseqb_eq. split; [intros [-> ->]|intros H; injection H]; auto.
Qed.

Lemma existsb_deep_equal (x : source) (l : list source) :
  existsb (deep_equal x) l = true <-> In x l.
Proof.
  rewrite existsb_exists. split.
  - intros (y & Hy & E). apply deep_equal_eq in E. now subst.
  - intros H. exists x. split; [assumption|now apply deep_equal_eq].
Qed.

Lemma first_occurrences_ext (seen seen' l : list source) :
  (forall y, In y seen <-> In y seen') ->
  first_occurrences seen l = first_occurrences seen' l.
Proof.
  revert seen seen'; induction l as [|x l IH]; intros seen seen' H; [reflexivity|].
  cbn [first_occurrences].
  assert (E : existsb (deep_equal x) seen = existsb (deep_equal x) seen').
  { apply eq_true_iff_eq. now rewrite !existsb_deep_equal. }
  rewrite E. destruct (existsb (deep_equal x) seen'); [now apply IH|].
  f_equal. apply IH. intros y. rewrite !in_app_iff, H. tauto.
Qed.

(** The filter of the source keeps the first occurrences. *)
Lemma filter_from_first_occurrences (seen l : list source) :
  filter_from
    (fun source index self =>
       negb (existsb (fun other => deep_equal source other) (firstn index self)))
    (seen ++ l) (length seen) l
  = first_occurrences seen l.
Proof.
  revert seen; induction l as [|x l IH]; intros seen; [reflexivity|].
  cbn [filter_from first_occurrences].
  rewrite firstn_app, firstn_all, Nat.sub_diag. cbn [firstn]. rewrite app_nil_r.
  replace (seen ++ x :: l) with ((seen ++ [x]) ++ l) by now rewrite <- app_assoc.
  replace (S (length seen)) with (length (seen ++ [x]))
    by (rewrite length_app; simpl; lia).
  rewrite IH.
  destruct (existsb (deep_equal x) seen) eqn:E; cbn [negb]; [|reflexivity].
  apply first_occurrences_ext. intros y. rewrite in_app_iff. simpl.
  apply existsb_deep_equal in E. split; [intros [H|[<-|[]]]; assumption|auto].
Qed.

Lemma first_occurrences_not_seen (seen l : list source) (x : source) :
  In x (first_occurrences seen l) -> In x l /\ ~ In x seen.
Proof.
  revert seen; induction l as [|y l IH]; intros seen; [intros []|].
  cbn [first_occurrences]. destruct (existsb (deep_equal y) seen) eqn:E.
  - intros H. destruct (IH _ H). split; [now right|assumption].
  - intros [<-|H].
    + split; [now left|]. intros Hin. apply existsb_deep_equal in Hin. congruence.
    + destruct (IH _ H) as [H1 H2]. split; [now right|].
      intros Hin. apply H2. apply in_app_iff. now left.
Qed.

Lemma first_occurrences_NoDup (seen l : list source) :
  NoDup (first_occurrences seen l).
Proof.
  revert seen; induction l as [|y l IH]; intros seen; [constructor|].
  cbn [first_occurrences]. destruct (existsb (deep_equal y) seen); [apply IH|].
  constructor; [|apply IH].
  intros H. apply first_occurrences_not_seen in H as [_ H].
  apply H. apply in_app_iff. right. now left.
Qed.

Section Enumerator.
Variable W : Type.
Variable host : Host W.

Lemma uniqueDownloadSources_first_occurrences apiDetails repository :
  uniqueDownloadSources host apiDetails repository =
  first_occurrences [] (potentialDownloadSources host apiDetails repository).
Proof.
  unfold uniqueDownloadSources, Array_filter.
  exact (filter_from_first_occurrences [] _).
Qed.

Lemma uniqueDownloadSources_NoDup apiDetails repository :
  NoDup (uniqueDownloadSources host apiDetails repository).
Proof.
  rewrite uniqueDownloadSources_first_occurrences. apply first_occurrences_NoDup.
Qed.

(** C5: the enumerator's list is the list of three candidates with the
    later duplicates of an earlier pair removed; it holds no pair twice,
    and its last element is the pair of the public endpoint and the
    canonical repository. *)
Theorem enumerator_unique_public_last (apiDetails : GitHubApiDetails)
    (codeQLActionRepository : jsstring) :
  let sources := uniqueDownloadSources host apiDetails codeQLActionRepository in
  sources = first_occurrences []
              [ (url apiDetails, codeQLActionRepository);
                (url apiDetails, CODEQL_DEFAULT_ACTION_REPOSITORY);
                (GITHUB_DOTCOM_URL host, CODEQL_DEFAULT_ACTION_REPOSITORY) ] /\
  NoDup sources /\
  last_of sources = Some (GITHUB_DOTCOM_URL host, CODEQL_DEFAULT_ACTION_REPOSITORY).
Proof.
  cbv zeta. split; [apply uniqueDownloadSources_first_occurrences|].
  split; [apply uniqueDownloadSources_NoDup|].
  rewrite uniqueDownloadSources_first_occurrences.
  unfold potentialDownloadSources. cbn [first_occurrences existsb app].
  set (a := (url apiDetails, codeQLActionRepository)).
  set (b := (url apiDetails, CODEQL_DEFAULT_ACTION_REPOSITORY)).
  set (c := (GITHUB_DOTCOM_URL host, CODEQL_DEFAULT_ACTION_REPOSITORY)).
  rewrite !orb_false_r.
  destruct (deep_equal b a) eqn:Eba.
  - apply deep_equal_eq in Eba. rewrite <- Eba.
    destruct (deep_equal c b) eqn:Ecb; cbn [last_of]; [|reflexivity].
    apply deep_equal_eq in Ecb. now rewrite Ecb.
  - destruct (deep_equal c a) eqn:Eca; cbn [orb].
    + apply deep_equal_eq in Eca.
      assert (b = a); [|subst b; apply deep_equal_eq in H; congruence].
      subst a b c. injection Eca as H1 H2. now rewrite <- H1, <- H2.
    + destruct (deep_equal c b) eqn:Ecb; cbn [last_of]; [|reflexivity].
      apply deep_equal_eq in Ecb. now rewrite Ecb.
Qed.
End Enumerator.

(** ** The release asset locator *)

Section Locator.
Variable W : Type.
Variable host : Host W.

Lemma getCodeQLActionRepository_known repository (st : state W) :
  action_repository host repository ->
  getCodeQLActionRepository host st = (Ok repository, st).
Proof.
  unfold action_repository, getCodeQLActionRepository.
  destruct (isRunningLocalAction host); [now intros ->|].
  unfold lift. now intros ->.
Qed.

Lemma before_public_prefix sources :
  exists rest, sources = before_public host sources ++ rest.
Proof.
  induction sources as [|[a r] l [rest IH]]; [now exists []|].
  cbn [before_public]. destruct (_ && _).
  - now exists ((a, r) :: l).
  - exists rest. simpl. now rewrite <- IH.
Qed.

Lemma before_public_NoDup sources :
  NoDup sources -> NoDup (before_public host sources).
Proof.
  intros H. destruct (before_public_prefix sources) as [rest E].
  rewrite E in H. now apply NoDup_app_remove_r in H.
Qed.

(** When no lookup yields the bundle, the loop makes one lookup per
    candidate in front of the public pair and ends without a URL. *)
Lemma tryDownloadSources_miss tagName sources (st : state W) :
  release_lookups_miss host tagName (before_public host sources) ->
  exists w',
    tryDownloadSources host tagName sources st =
    (Ok None, {| world := w';
                 trace := trace st ++
                          map (lookup_event tagName) (before_public host sources) |}).
Proof.
  revert st; induction sources as [|[a r] l IH]; intros st Hmiss.
  - exists (world st). simpl. rewrite app_nil_r. now destruct st.
  - cbn [tryDownloadSources before_public] in *. destruct (_ && _).
    + exists (world st). simpl. rewrite app_nil_r. now destruct st.
    + unfold bind at 1, try_catch, releaseByTag, bind at 1, call.
      pose proof (Hmiss (world st) (a, r) (or_introl eq_refl)) as Hfirst.
      assert (Hrest : release_lookups_miss host tagName (before_public host l)).
      { intros w s Hs. apply Hmiss. now right. }
      cbn [snd] in Hfirst.
      destruct (getReleaseByTag host (world st) _ _ tagName) as [[rel|e] w1];
        simpl in Hfirst.
      * unfold ret. rewrite Hfirst.
        destruct (IH {| world := w1; trace := trace st ++
            [GetReleaseByTag (nth_error (split_slash r) 0)
               (nth_error (split_slash r) 1) tagName] |} Hrest) as [w' E].
        exists w'. rewrite E. cbn [trace map]. unfold lookup_event at 2.
        now rewrite <- app_assoc.
      * unfold ret.
        destruct (IH {| world := w1; trace := trace st ++
            [GetReleaseByTag (nth_error (split_slash r) 0)
               (nth_error (split_slash r) 1) tagName] |} Hrest) as [w' E].
        exists w'. rewrite E. cbn [trace map]. unfold lookup_event at 2.
        now rewrite <- app_assoc.
Qed.

Lemma tryGhaeEndpoint_miss tagName (st : state W) :
  ghae_lookup_misses host tagName ->
  exists w' events,
    tryGhaeEndpoint host tagName st =
      (Ok None, {| world := w'; trace := trace st ++ events |}) /\
    filter is_release_lookup events = [].
Proof.
  intros Hmiss. specialize (Hmiss (world st)).
  unfold tryGhaeEndpoint, try_catch, bind, call.
  destruct (ghaeFind host (world st) tagName) as [[found|e] w1].
  - destruct (assoc (getCodeQLBundleName host) found) as [assetID|].
    + destruct Hmiss as [e He]. cbn [world trace].
      destruct (ghaeDownload host w1 assetID) as [[u|e'] w2]; simpl in He;
        [discriminate|].
      exists w2, [GhaeFind tagName; GhaeDownload assetID].
      unfold ret. now rewrite <- app_assoc.
    + exists w1, [GhaeFind tagName]. now unfold ret.
  - exists w1, [GhaeFind tagName]. now unfold ret.
Qed.

(** C6: with the Action's repository known, when no lookup yields an
    asset URL the locator returns the public URL synthesized from the
    canonical repository and the tag asked for; it has then made one
    release lookup for each candidate in front of the public pair, and
    no candidate occurs twice. *)
Theorem download_url_falls_back (tagName : maybe) (apiDetails : GitHubApiDetails)
    (variant : GitHubVariant) (repository : jsstring) (st : state W) :
  let tried := before_public host (uniqueDownloadSources host apiDetails repository) in
  action_repository host repository ->
  release_lookups_miss host tagName tried ->
  (variant = GHAE -> ghae_lookup_misses host tagName) ->
  exists st',
    getCodeQLBundleDownloadURL host tagName apiDetails variant st =
      (Ok (public_download_url host tagName), st') /\
    filter is_release_lookup (skipn (length (trace st)) (trace st')) =
      map (lookup_event tagName) tried /\
    NoDup tried.
Proof.
  intros tried Hrepo Hmiss Hghae.
  assert (Hnd : NoDup tried).
  { apply before_public_NoDup.
    apply uniqueDownloadSources_NoDup. }
  assert (Hlook : forall l, filter is_release_lookup (map (lookup_event tagName) l)
                            = map (lookup_event tagName) l).
  { induction l as [|x l IH]; simpl; [reflexivity|]. now rewrite IH. }
  unfold getCodeQLBundleDownloadURL. unfold bind at 1.
  rewrite (getCodeQLActionRepository_known repository st Hrepo).
  unfold bind at 1.
  destruct (GitHubVariant_eqb variant GHAE) eqn:Ev.
  - assert (variant = GHAE) as Hv by (destruct variant; discriminate || reflexivity).
    destruct (tryGhaeEndpoint_miss tagName st (Hghae Hv)) as (w1 & events & E & Hev).
    rewrite E. unfold bind.
    destruct (tryDownloadSources_miss tagName
                (uniqueDownloadSources host apiDetails repository)
                {| world := w1; trace := trace st ++ events |} Hmiss) as [w2 E2].
    rewrite E2. eexists. split; [reflexivity|]. split; [|exact Hnd].
    cbn [trace]. rewrite <- app_assoc, skipn_app, skipn_all, Nat.sub_diag.
    cbn [skipn app]. rewrite filter_app, Hev. apply Hlook.
  - unfold ret at 1. unfold bind.
    destruct (tryDownloadSources_miss tagName
                (uniqueDownloadSources host apiDetails repository) st Hmiss) as [w2 E2].
    rewrite E2. eexists. split; [reflexivity|]. split; [|exact Hnd].
    cbn [trace]. rewrite skipn_app, skipn_all, Nat.sub_diag.
    cbn [skipn app]. apply Hlook.
Qed.
End Locator.

(** ** The tool source resolver *)

Section Resolver.
Variable W : Type.
Variable host : Host W.

(** C3: with a known CLI version that the exact lookup misses, one
    cached version that starts with the CLI version and a dash is used,
    as a toolcache source with its folder; with none or several the
    folder stays unset and the resolver goes on to the next fallback, so
    that without another cache match or a pinned override it emits a
    download source. *)
Theorem resolver_prefix_lookup (toolsInput : maybe)
    (defaultCliVersion : CodeQLDefaultVersionInfo) (apiDetails : GitHubApiDetails)
    (variant : GitHubVariant) (st : state W) (cli : jsstring) (tagName url : maybe) :
  isLocalPath toolsInput = false ->
  requestedTools host toolsInput defaultCliVersion = Ok (Some cli, tagName, url) ->
  truthy cli = true ->
  toolcache_find host (world st) (str "CodeQL") cli = [] ->
  let candidateVersions :=
    filter (fun version => startsWith version (cli ++ str "-"))
           (toolcache_findAllVersions host (world st) (str "CodeQL")) in
  (forall candidate,
      candidateVersions = [candidate] ->
      truthy (toolcache_find host (world st) (str "CodeQL") candidate) = true ->
      getCodeQLSource host toolsInput defaultCliVersion apiDetails variant st =
        (Ok (SourceToolcache (toolcache_find host (world st) (str "CodeQL") candidate) cli),
         st)) /\
  (length candidateVersions <> 1%nat ->
      findByCliVersion host (world st) (Some cli) = Some [] /\
      forall folder,
        findByFallbackVersion host (world st) (Some []) (Some cli) tagName = Ok folder ->
        truthy_opt folder = false ->
        overridingTools host variant toolsInput (world st) = None ->
        getCodeQLSource host toolsInput defaultCliVersion apiDetails variant st =
          (codeqlURL <- resolveURL host tagName url apiDetails variant ;;
           ret (SourceDownload (and_then tagName tryGetBundleVersionFromTagName)
                  (Some cli) codeqlURL cli)) st).
Proof.
  intros Hlocal Hreq Hcli Hfind candidateVersions.
  assert (Hby : findByCliVersion host (world st) (Some cli) =
                match candidateVersions with
                | [candidate] => Some (toolcache_find host (world st) (str "CodeQL") candidate)
                | _ => Some []
                end).
  { unfold findByCliVersion. rewrite Hcli, Hfind. cbn [truthy].
    fold candidateVersions. now destruct candidateVersions as [|c [|c' l]]. }
  split.
  - intros candidate Hone Hfolder.
    unfold getCodeQLSource. rewrite Hlocal, Hreq.
    unfold bind, lift, query, ret. cbn [humanReadableVersion].
    rewrite Hby, Hone. unfold findByFallbackVersion. cbn [truthy_opt].
    rewrite Hfolder. cbn [negb andb truthy_opt nullish]. now rewrite Hfolder.
  - intros Hlen.
    assert (Hmiss : findByCliVersion host (world st) (Some cli) = Some []).
    { rewrite Hby. destruct candidateVersions as [|c [|c' l]]; try reflexivity.
      now elim Hlen. }
    split; [exact Hmiss|].
    intros folder Hfallback Hfolder Hover.
    unfold getCodeQLSource. rewrite Hlocal, Hreq.
    unfold bind at 1, lift at 1. cbn [humanReadableVersion].
    unfold bind at 1, lift at 1.
    unfold bind at 1, query at 1. rewrite Hmiss.
    unfold bind at 1, query at 1.
    unfold bind at 1, lift at 1. rewrite Hfallback, Hfolder.
    unfold bind at 1, query at 1. rewrite Hover. reflexivity.
Qed.
End Resolver.

(** ** The acquisition pipeline *)

Section Runs.
Variable W : Type.
Implicit Types st : state W.

Lemma inv_bind (A B : Type) (m : M W A) (k : A -> M W B) st r st' :
  bind m k st = (r, st') ->
  (exists e, m st = (Throw e, st') /\ r = Throw e) \/
  (exists a st1, m st = (Ok a, st1) /\ k a st1 = (r, st')).
Proof.
  unfold bind. destruct (m st) as [[a|e] st1].
  - intros H. right. eauto.
  - intros H. injection H as <- <-. left. eauto.
Qed.

Lemma inv_try_catch (A : Type) (m : M W A) (h : jsstring -> M W A) st r st' :
  try_catch m h st = (r, st') ->
  (exists a, m st = (Ok a, st') /\ r = Ok a) \/
  (exists e st1, m st = (Throw e, st1) /\ h e st1 = (r, st')).
Proof.
  unfold try_catch. destruct (m st) as [[a|e] st1].
  - intros H. injection H as <- <-. left. eauto.
  - intros H. right. eauto.
Qed.

Lemma inv_ret (A : Type) (a : A) st r st' :
  ret a st = (r, st') -> r = Ok a /\ st' = st.
Proof. unfold ret. intros H. injection H as <- <-. auto. Qed.

Lemma inv_lift (A : Type) (r0 : result A) st r st' :
  lift r0 st = (r, st') -> r = r0 /\ st' = st.
Proof. unfold lift. intros H. injection H as <- <-. auto. Qed.

Lemma inv_query (A : Type) (f : W -> A) st r st' :
  query f st = (r, st') -> r = Ok (f (world st)) /\ st' = st.
Proof. unfold query. intros H. injection H as <- <-. auto. Qed.

Lemma inv_call (A : Type) (e : event) (op : W -> result A * W) st r st' :
  call e op st = (r, st') ->
  exists w', op (world st) = (r, w') /\
             st' = {| world := w'; trace := trace st ++ [e] |}.
Proof.
  unfold call. destruct (op (world st)) as [r0 w'].
  intros H. injection H as <- <-. eauto.
Qed.

Lemma inv_call_total (A : Type) (e : event) (op : W -> A * W) st r st' :
  call_total e op st = (r, st') ->
  exists a w', op (world st) = (a, w') /\ r = Ok a /\
               st' = {| world := w'; trace := trace st ++ [e] |}.
Proof.
  unfold call_total, call. destruct (op (world st)) as [a w'].
  intros H. injection H as <- <-. eauto.
Qed.
End Runs.

(** Equations between results and between states, once a step of a run
    is taken apart. *)
Ltac clean_run :=
  repeat match goal with
    | H : Ok _ = Throw _ |- _ => discriminate H
    | H : Throw _ = Ok _ |- _ => discriminate H
    | H : Ok _ = Ok _ |- _ => injection H as H
    | H : Throw _ = Throw _ |- _ => injection H as H
    | H : Some _ = None |- _ => discriminate H
    | H : None = Some _ |- _ => discriminate H
    | H : ?x = _ |- _ => is_var x; subst x
    | H : _ = ?x |- _ => is_var x; subst x
    end.

(** Takes one step of a run apart: the step fails or returns, a
    condition holds or not. *)
Ltac inv_step :=
  match goal with
  | H : bind _ _ _ = _ |- _ =>
      apply inv_bind in H as [(? & H & ?) | (? & ? & ? & H)]
  | H : try_catch _ _ _ = _ |- _ =>
      apply inv_try_catch in H as [(? & H & ?) | (? & ? & ? & H)]
  | H : ret _ _ = _ |- _ => apply inv_ret in H as [? ?]
  | H : lift _ _ = _ |- _ => apply inv_lift in H as [? ?]
  | H : query _ _ = _ |- _ => apply inv_query in H as [? ?]
  | H : call_total _ _ _ = _ |- _ => apply inv_call_total in H as (? & ? & H & ? & ?)
  | H : call _ _ _ = _ |- _ => apply inv_call in H as (? & H & ?)
  | H : (match ?x with _ => _ end) _ = (_, _) |- _ => destruct x eqn:?
  end.

(** Takes a run apart, call by call: in every case the final state is
    the record of the calls made. *)
Ltac inv_run := repeat (inv_step; clean_run).

(** Membership of an event in a recorded trace, case by case. *)
Ltac in_trace H :=
  cbn [trace start world app In] in H;
  repeat (destruct H as [H|H]; [try discriminate H|]);
  try contradiction.

Section Pipeline.
Variable W : Type.
Variable host : Host W.

(** C7: the download request carries the token exactly when the URL has
    no [token] query parameter and starts with the job's own endpoint
    followed by a slash; otherwise it carries no authorization, and its
    headers are the user agent and the accepted type.  The request is
    made as soon as the first disk-space probe returns. *)
Theorem download_authorization (codeqlURL : jsstring)
    (maybeBundleVersion maybeCliVersion : maybe) (apiDetails : GitHubApiDetails)
    (variant : GitHubVariant) (tempDir : jsstring) (w : W) (search : jsstring)
    (r : result DownloadResult) (st' : state W) :
  URL_search host codeqlURL = Ok search ->
  downloadCodeQL host codeqlURL maybeBundleVersion maybeCliVersion
    apiDetails variant tempDir (start w) = (r, st') ->
  let same_host := startsWith codeqlURL (url apiDetails ++ str "/") in
  let embeds_token := URLSearchParams_has host search (str "token") in
  (forall u dest authorization headers,
      In (DownloadTool u dest authorization headers) (trace st') ->
      u = codeqlURL /\
      (authorization = Some (str "token " ++ auth apiDetails) <->
         embeds_token = false /\ same_host = true) /\
      (authorization = None <-> ~ (embeds_token = false /\ same_host = true)) /\
      headers = [(str "User-Agent", str "CodeQL Action");
                 (str "accept", str "application/octet-stream")]) /\
  (fst (checkDiskSpace host w) = Ok tt ->
   exists dest authorization headers,
     In (DownloadTool codeqlURL dest authorization headers) (trace st')).
Proof.
  intros Hurl Hrun same_host embeds_token.
  assert (Hauth : forall authorization,
    authorization = (if embeds_token then None
                     else if same_host then Some (str "token " ++ auth apiDetails)
                          else None) ->
    (authorization = Some (str "token " ++ auth apiDetails) <->
       embeds_token = false /\ same_host = true) /\
    (authorization = None <-> ~ (embeds_token = false /\ same_host = true))).
  { intros authorization ->.
    destruct embeds_token, same_host; intuition (discriminate || congruence). }
  unfold downloadCodeQL in Hrun. rewrite Hurl in Hrun.
  fold same_host embeds_token in Hrun.
  unfold printDiskSpace, tryFindCliVersionDotcomOnly, getCodeQLActionRepository,
    releaseByTag in Hrun.
  inv_run.
  all: (split;
    [ intros u dest authorization headers Hin; in_trace Hin;
      try (injection Hin as <- <- <- <-;
           split; [reflexivity|]; split; [apply Hauth; reflexivity|];
           split; [apply Hauth; reflexivity|reflexivity])
    | intros Hprobe; cbn [start world] in *;
      try (match goal with
           | H : checkDiskSpace host _ = _ |- _ =>
               rewrite H in Hprobe; discriminate Hprobe
           end);
      do 3 eexists; cbn [trace start app]; simpl; eauto 20 ]).
Qed.
End Pipeline.

(** ** The stable form of a CLI version *)

Section Stable.
Import semver semver_facts.

(** A repetition whose continuation refuses a class character at its
    start takes the whole run. *)
Lemma many_go_span k cls min n bol acc s :
  (forall b a x rest, cls x = true -> k b a (x :: rest) = None) ->
  many_go k cls min n bol acc s =
  let (a, b) := span cls s in
  if Nat.leb min (n + length a) then k (bol && is_nil a) (pushes a acc) b else None.
Proof.
  intros Hk. revert n bol acc; induction s as [|x s IH]; intros n bol acc.
  - simpl. now rewrite Nat.add_0_r, andb_true_r, pushes_nil.
  - cbn [many_go span]. destruct (cls x) eqn:Ex.
    + rewrite IH. destruct (span cls s) as [a b]. cbn [length is_nil andb].
      rewrite andb_false_r, pushes_cons.
      replace (n + S (length a))%nat with (S n + length a)%nat by lia.
      destruct (Nat.leb min (S n + length a)).
      * destruct (k false (pushes a (push x acc)) b); [reflexivity|].
        rewrite Hk by assumption. now destruct (Nat.leb min n).
      * rewrite Hk by assumption. now destruct (Nat.leb min n).
    + cbn [length is_nil]. now rewrite Nat.add_0_r, andb_true_r, pushes_nil.
Qed.

Lemma digit_not_period x : digit x = true -> char_eqb x period = false.
Proof.
  intros H. apply digit_cases in H.
  repeat (destruct H as [->|H]); try subst x; reflexivity.
Qed.

Lemma leb_1_length (s : jsstring) : Nat.leb 1 (0 + length s) = truthy s.
Proof. now destruct s. Qed.

Lemma stable_step k bol acc c (Hc : forall b a x rest, digit x = true ->
                                   rmatch (Chr period :: k) b a (x :: rest) = None) :
  rmatch (Many digit 1 :: Chr period :: k) bol acc c =
  let (x, r1) := span digit c in
  match r1 with
  | p1 :: r2 =>
      if truthy x && char_eqb p1 period
      then rmatch k false (push p1 (pushes x acc)) r2 else None
  | [] => None
  end.
Proof.
  rewrite rmatch_Many, many_go_span by exact Hc.
  destruct (span digit c) as [x r1]. rewrite leb_1_length.
  destruct (truthy x); cbn [andb]; [|now destruct r1].
  cbn [rmatch]. destruct r1 as [|p1 r2]; [reflexivity|].
  now destruct (char_eqb p1 period).
Qed.

Lemma period_refuses_digit k b a x rest :
  digit x = true -> rmatch (Chr period :: k) b a (x :: rest) = None.
Proof. intros H. cbn [rmatch]. now rewrite digit_not_period. Qed.

Lemma rmatch_stable bol c :
  rmatch re_stable_version bol None c =
  if bol && stable_runs c then Some (None, []) else None.
Proof.
  change re_stable_version with
    (Bol :: Many digit 1 :: Chr period :: Many digit 1 :: Chr period ::
     [Many digit 1; Eol]).
  rewrite rmatch_Bol. destruct bol; [|reflexivity]. cbn [andb].
  rewrite stable_step by (intros; now apply period_refuses_digit).
  unfold stable_runs. destruct (span digit c) as [x r1].
  destruct r1 as [|p1 r2]; [reflexivity|].
  destruct (truthy x); cbn [andb]; [|now destruct (span digit r2) as [? [|? ?]];
                                      try destruct (span digit _)].
  destruct (char_eqb p1 period); cbn [andb];
    [|now destruct (span digit r2) as [? [|? ?]]; try destruct (span digit _)].
  rewrite stable_step by (intros; now apply period_refuses_digit).
  destruct (span digit r2) as [y r3]. destruct r3 as [|p2 r4]; [reflexivity|].
  destruct (truthy y); cbn [andb]; [|now destruct (span digit r4)].
  destruct (char_eqb p2 period); cbn [andb]; [|now destruct (span digit r4)].
  rewrite rmatch_Many, many_go_span
    by (intros b a x0 rest _; reflexivity).
  destruct (span digit r4) as [z r5]. rewrite leb_1_length.
  destruct (truthy z); cbn [andb]; [|reflexivity].
  cbn [rmatch]. now destruct r5.
Qed.

Lemma is_stable_release_runs c :
  is_stable_release (Some c) = stable_runs c.
Proof.
  unfold is_stable_release, String_match.
  destruct c as [|x c].
  - reflexivity.
  - cbn [search]. rewrite rmatch_stable. cbn [andb].
    destruct (stable_runs (x :: c)); [reflexivity|].
    assert (E : search re_stable_version false c = None).
    { apply search_none. intros pre from _. now rewrite rmatch_stable. }
    now rewrite E.
Qed.

Lemma truthy_not_nil (s : jsstring) : truthy s = true <-> s <> [].
Proof. destruct s; simpl; split; congruence. Qed.

(** The condition of the source holds exactly on the stable form. *)
Lemma is_stable_release_spec (cliVersion : maybe) :
  is_stable_release cliVersion = true <-> stable_form cliVersion.
Proof.
  destruct cliVersion as [c|].
  2:{ split; [discriminate|]. intros (x & y & z & H & _). discriminate. }
  rewrite is_stable_release_runs. unfold stable_runs, stable_form, digits.
  change (str ".") with [period]. split.
  - destruct (span digit c) as [x r1] eqn:E1.
    destruct r1 as [|p1 r2]; [discriminate|].
    destruct (span digit r2) as [y r3] eqn:E2.
    destruct r3 as [|p2 r4]; [discriminate|].
    destruct (span digit r4) as [z r5] eqn:E3.
    intros H. repeat (apply andb_true_iff in H as [H ?]).
    apply span_spec in E1 as (-> & Hx & _), E2 as (-> & Hy & _), E3 as (-> & Hz & _).
    destruct r5; [|discriminate].
    repeat match goal with
           | H : char_eqb _ _ = true |- _ => apply char_eqb_eq in H; subst
           | H : truthy _ = true |- _ => apply truthy_not_nil in H
           end.
    exists x, y, z. rewrite app_nil_r. repeat split; auto.
  - intros (x & y & z & H & (Nx & Dx) & (Ny & Dy) & (Nz & Dz)).
    injection H as ->. cbn [app].
    rewrite (span_app digit x (period :: y ++ period :: z)); [|assumption|reflexivity].
    rewrite (span_app digit y (period :: z)); [|assumption|reflexivity].
    rewrite <- (app_nil_r z) at 1.
    rewrite (span_app digit z []); [|assumption|exact I].
    apply truthy_not_nil in Nx, Ny, Nz. now rewrite Nx, Ny, Nz.
Qed.
End Stable.

(** ** The pipeline: caching *)

Section PipelineCache.
Variable W : Type.
Variable host : Host W.

(** A host operation that is known to succeed did not fail. *)
Ltac succeeded Hok :=
  destruct Hok as (Hprobe & Hdownload & Hextract);
  match goal with
  | H : checkDiskSpace host ?w = (Throw _, _) |- _ =>
      specialize (Hprobe w); rewrite H in Hprobe; discriminate Hprobe
  | H : toolcache_downloadTool host ?w ?u ?d ?a ?h = (Throw _, _) |- _ =>
      destruct (Hdownload w u d a h) as [? Hp]; rewrite H in Hp; discriminate Hp
  | H : toolcache_extractTar host ?w ?f = (Throw _, _) |- _ =>
      destruct (Hextract w f) as [? Hp]; rewrite H in Hp; discriminate Hp
  end.

(** C1 (as the code has it): without a bundle version, supplied or in
    the URL, no cache entry is made, the result carries the extracted
    path, and its version label is the CLI version supplied, or
    [unknown] when none is; the pipeline returns whenever the URL parses
    and the probes, the download and the extraction succeed. *)
Theorem no_bundle_version_no_cache (codeqlURL : jsstring) (maybeCliVersion : maybe)
    (apiDetails : GitHubApiDetails) (variant : GitHubVariant) (tempDir : jsstring)
    (w : W) (r : result DownloadResult) (st' : state W) :
  tryGetBundleVersionFromUrl codeqlURL = None ->
  downloadCodeQL host codeqlURL None maybeCliVersion apiDetails variant tempDir
    (start w) = (r, st') ->
  (forall e, In e (trace st') -> is_cache_entry e = false) /\
  (forall res, r = Ok res ->
     toolsVersion res = nullish maybeCliVersion (str "unknown") /\
     exists w1 archive w2,
       toolcache_extractTar host w1 archive = (Ok (codeqlFolder res), w2)) /\
  ((exists search, URL_search host codeqlURL = Ok search) ->
   acquisition_succeeds host -> exists res, r = Ok res).
Proof.
  intros Hurl Hrun.
  unfold downloadCodeQL in Hrun. rewrite Hurl in Hrun. unfold printDiskSpace in Hrun.
  inv_run.
  all: (split; [|split]);
    [ intros ev Hin; in_trace Hin; subst ev; reflexivity
    | intros res Hres; clean_run; cbn [toolsVersion codeqlFolder]; split;
      try reflexivity; do 3 eexists; eassumption
    | intros [search Hsearch] Hok;
      try (eexists; reflexivity);
      try (succeeded Hok);
      try congruence ].
Qed.

(** C4: the version under which the pipeline caches the bundle is the
    CLI version, a dash and the bundle version exactly when the CLI
    version known at that point has the stable form [x.y.z]; otherwise
    it is the coerced bundle version.  The CLI version known is the one
    supplied; one is looked up only if none is supplied, on the public
    host, for a URL of the canonical repository.  The result reports the
    CLI version, or the cache version when none is known. *)
Theorem cache_version_string (codeqlURL : jsstring)
    (maybeBundleVersion maybeCliVersion : maybe) (apiDetails : GitHubApiDetails)
    (variant : GitHubVariant) (tempDir : jsstring) (w : W)
    (r : result DownloadResult) (st' : state W) (sourceDir tool version : jsstring) :
  downloadCodeQL host codeqlURL maybeBundleVersion maybeCliVersion apiDetails variant
    tempDir (start w) = (r, st') ->
  In (CacheDir sourceDir tool version) (trace st') ->
  tool = str "CodeQL" /\
  exists bundleVersion knownCliVersion,
    bundle_version_for maybeBundleVersion codeqlURL = Some bundleVersion /\
    (knownCliVersion = maybeCliVersion \/
     (maybeCliVersion = None /\ variant = DOTCOM /\
      includes codeqlURL (str "/github/codeql-action/") = true)) /\
    ((stable_form knownCliVersion /\
      version = tpl knownCliVersion ++ str "-" ++ bundleVersion) \/
     (~ stable_form knownCliVersion /\
      convertToSemVer bundleVersion = Ok version)) /\
    (forall res, r = Ok res -> toolsVersion res = nullish knownCliVersion version).
Proof.
  intros Hrun Hin.
  unfold downloadCodeQL in Hrun.
  unfold printDiskSpace, tryFindCliVersionDotcomOnly, getCodeQLActionRepository,
    releaseByTag in Hrun.
  inv_run.
  all: in_trace Hin.
  all: injection Hin as <- <- <-.
  all: split; [reflexivity|].
  all: match goal with
       | H : _ = Some ?b |- _ =>
           match type of H with
           | context [tryGetBundleVersionFromUrl] => exists b
           end
       end.
  all: match goal with
       | H : is_stable_release ?c = _ |- _ => exists c
       end.
  all: (split; [unfold bundle_version_for; assumption|]).
  all: (split;
    [ first [ left; reflexivity
            | right; split; [reflexivity|];
              match goal with
              | H : _ && _ = true |- _ =>
                  apply andb_true_iff in H as [Hv Hi];
                  split; [destruct variant; (reflexivity || discriminate Hv)|exact Hi]
              end ]
    | ]).
  all: (split;
    [ match goal with
      | H : is_stable_release _ = true |- _ =>
          left; split; [now apply is_stable_release_spec|reflexivity]
      | H : is_stable_release ?c = false |- _ =>
          right; split;
          [ intros Hs; apply is_stable_release_spec in Hs; congruence
          | symmetry; assumption ]
      end
    | intros res Hres; clean_run; reflexivity ]).
Qed.
End PipelineCache.

(** ** The statements at work on the example runner *)


(** C1, the claim as stated fails: the URL holds no bundle version and none
    is supplied, and the label of the result is the CLI version supplied,
    not [unknown]. *)
Lemma no_bundle_version_keeps_cli_version :
  tryGetBundleVersionFromUrl Scenarios.opaque_url = None /\
  exists res st',
    downloadCodeQL (Runner.host []) Scenarios.opaque_url None (Some (str "2.12.1"))
      Runner.api DOTCOM (str "/tmp") (start tt) = (Ok res, st') /\
    toolsVersion res = str "2.12.1" /\
    toolsVersion res <> str "unknown".
Proof.
  split; [reflexivity|]. do 2 eexists. split; [vm_compute; reflexivity|].
  split; [reflexivity|discriminate].
Qed.

Lemma no_bundle_version_no_cache_witness :
  tryGetBundleVersionFromUrl Scenarios.opaque_url = None /\
  exists res,
    fst (downloadCodeQL (Runner.host []) Scenarios.opaque_url None None
           Runner.api DOTCOM (str "/tmp") (start tt)) = Ok res /\
    toolsVersion res = str "unknown".
Proof.
  split; [reflexivity|]. eexists. split; [vm_compute; reflexivity|].
  destruct (no_bundle_version_no_cache unit (Runner.host []) Scenarios.opaque_url None
              Runner.api DOTCOM (str "/tmp") tt _ _ eq_refl (surjective_pairing _))
    as (_ & Hres & _).
  apply Hres. vm_compute. reflexivity.
Defined.

Lemma resolver_prefix_lookup_witness :
  fst (getCodeQLSource (Runner.host Scenarios.two_entries) None Scenarios.default_version
         Runner.api DOTCOM (start tt)) =
  Ok (SourceDownload (Some (str "20230101")) (Some (str "2.12.1"))
        Scenarios.release_url (str "2.12.1")).
Proof.
  destruct (resolver_prefix_lookup unit (Runner.host Scenarios.two_entries) None
              Scenarios.default_version Runner.api DOTCOM (start tt)
              (str "2.12.1") (Some (str "codeql-bundle-20230101")) None
              eq_refl eq_refl eq_refl eq_refl)
    as [_ Htwo].
  assert (Hlen : length (filter (fun version => startsWith version (str "2.12.1" ++ str "-"))
                           (toolcache_findAllVersions (Runner.host Scenarios.two_entries)
                              (world (start tt)) (str "CodeQL"))) <> 1%nat)
    by (vm_compute; discriminate).
  destruct (Htwo Hlen) as [_ Hdownload].
  rewrite (Hdownload (Some []) eq_refl eq_refl eq_refl).
  vm_compute. reflexivity.
Defined.

Example resolver_local_path :
  fst (getCodeQLSource (Runner.host []) (Some (str "foo/bar.tar.gz"))
         Scenarios.default_version Runner.api DOTCOM (start tt)) =
  Ok (SourceLocal (str "foo/bar.tar.gz") (str "local")).
Proof. reflexivity. Qed.

Example resolver_one_entry :
  fst (getCodeQLSource (Runner.host Scenarios.one_entry) None Scenarios.default_version
         Runner.api DOTCOM (start tt)) =
  Ok (SourceToolcache (str "/opt/hostedtoolcache/CodeQL/2.12.1-20230101/x64") (str "2.12.1")).
Proof. vm_compute. reflexivity. Qed.

Lemma cache_version_string_witness :
  let run := downloadCodeQL (Runner.host []) Scenarios.release_url None (Some (str "2.12.1"))
               Runner.api GHES (str "/tmp") (start tt) in
  In (CacheDir (str "/tmp/0000.d") (str "CodeQL") (str "2.12.1-20230101"))
     (trace (snd run)) /\
  stable_form (Some (str "2.12.1")).
Proof.
  cbv zeta.
  assert (Hin : In (CacheDir (str "/tmp/0000.d") (str "CodeQL") (str "2.12.1-20230101"))
                  (trace (snd (downloadCodeQL (Runner.host []) Scenarios.release_url None
                                 (Some (str "2.12.1")) Runner.api GHES (str "/tmp")
                                 (start tt))))).
  { vm_compute. repeat (first [left; reflexivity | right]). }
  split; [exact Hin|].
  destruct (cache_version_string unit (Runner.host []) Scenarios.release_url None
              (Some (str "2.12.1")) Runner.api GHES (str "/tmp") tt _ _ _ _ _
              (surjective_pairing _) Hin)
    as (_ & bundleVersion & known & Hbundle & Hknown & Hversion & _).
  vm_compute in Hbundle. injection Hbundle as <-.
  destruct Hknown as [->|[Hnone _]]; [|discriminate Hnone].
  destruct Hversion as [[Hstable _]|[_ Hcoerced]]; [exact Hstable|].
  vm_compute in Hcoerced. discriminate Hcoerced.
Defined.

Lemma download_url_falls_back_witness :
  fst (getCodeQLBundleDownloadURL (Runner.host []) (Some (str "codeql-bundle-20230101"))
         Scenarios.enterprise_api GHES (start tt)) = Ok Scenarios.release_url /\
  filter is_release_lookup
    (trace (snd (getCodeQLBundleDownloadURL (Runner.host [])
                   (Some (str "codeql-bundle-20230101"))
                   Scenarios.enterprise_api GHES (start tt)))) =
  [GetReleaseByTag (Some (str "github")) (Some (str "codeql-action"))
     (Some (str "codeql-bundle-20230101"))].
Proof.
  destruct (download_url_falls_back unit (Runner.host [])
              (Some (str "codeql-bundle-20230101")) Scenarios.enterprise_api GHES
              (str "github/codeql-action") (start tt)) as (st' & E & Hlookups & _).
  - reflexivity.
  - intros w s _. exact I.
  - discriminate.
  - rewrite E. split; [reflexivity|]. exact Hlookups.
Defined.

Lemma download_authorization_witness :
  exists dest headers,
    In (DownloadTool Scenarios.release_url dest (Some (str "token secret")) headers)
       (trace (snd (downloadCodeQL (Runner.host []) Scenarios.release_url None None
                      Runner.api GHES (str "/tmp") (start tt)))).
Proof.
  destruct (download_authorization unit (Runner.host []) Scenarios.release_url None None
              Runner.api GHES (str "/tmp") tt (Runner.search_of Scenarios.release_url)
              _ _ eq_refl (surjective_pairing _))
    as [Hall Hrequest].
  destruct (Hrequest eq_refl) as (dest & authorization & headers & Hin).
    destruct (Hall _ _ _ _ Hin) as (_ & Hiff & _).
    assert (E : authorization = Some (str "token secret")).
    { apply Hiff. split; vm_compute; reflexivity. }
  exists dest, headers. rewrite <- E. exact Hin.
Defined.

Example download_without_token_cross_host :
  In (DownloadTool Scenarios.release_url (str "/tmp/0000") None
        [(str "User-Agent", str "CodeQL Action");
         (str "accept", str "application/octet-stream")])
     (trace (snd (downloadCodeQL (Runner.host []) Scenarios.release_url None None
                    Scenarios.enterprise_api GHES (str "/tmp") (start tt)))).
Proof. vm_compute. repeat (first [left; reflexivity | right]). Qed.

(** The end-to-end scenario of the specification: no tool specification,
    the default 2.15.0 with the tag [codeql-bundle-20231114], an empty cache,
    the public host. *)
Example end_to_end :
  let run := setupCodeQLBundle (Runner.host []) None Runner.api (str "/tmp") DOTCOM
               {| cliVersion := str "2.15.0"; tagName := str "codeql-bundle-20231114" |}
               (start tt) in
  fst run =
    Ok {| setup_codeqlFolder := str "/opt/hostedtoolcache/CodeQL/2.15.0-20231114";
          setup_toolsDownloadDurationMs := Some 0%Z;
          setup_toolsSource := Download;
          setup_toolsVersion := str "2.15.0" |} /\
  In (CacheDir (str "/tmp/0000.d") (str "CodeQL") (str "2.15.0-20231114")) (trace (snd run)).
Proof. vm_compute. split; [reflexivity|]. repeat (first [left; reflexivity | right]). Qed.

(** * Further properties *)

(** ** The extractors together *)

Lemma seg_occurrence_assoc p q url pre X post :
  seg_occurrence p q url pre X post <-> seg_occurrence (p ++ q) [] url pre X post.
Proof. unfold seg_occurrence. cbn [app]. now rewrite <- app_assoc. Qed.

(** The two URL patterns differ in where the group opens only. *)
Lemma seg_group_assoc p q url :
  seg_group p q url = option_map (app q) (seg_group (p ++ q) [] url).
Proof.
  destruct (seg_group (p ++ q) [] url) as [X|] eqn:E; cbn [option_map].
  - apply seg_group_some in E as (pre & X' & post & Ho & Hfl & ->).
    apply seg_group_some. exists pre, X', post. cbn [app].
    split; [exact (proj2 (seg_occurrence_assoc p q url pre X' post) Ho)|].
    split; [|reflexivity].
    intros pre' X'' post' Ho'. apply (Hfl pre' X'' post').
    exact (proj1 (seg_occurrence_assoc p q url pre' X'' post') Ho').
  - apply seg_group_none. intros pre X post Ho.
    apply (proj1 (seg_group_none (p ++ q) [] url) E pre X post).
    exact (proj1 (seg_occurrence_assoc p q url pre X post) Ho).
Qed.

Lemma tryGetBundleVersionFromUrl_seg url :
  tryGetBundleVersionFromUrl url = seg_group (str "/codeql-bundle-") [] url.
Proof.
  unfold tryGetBundleVersionFromUrl.
  change (tryGetTagNameFromUrl url) with (seg_group (str "/") (str "codeql-bundle-") url).
  rewrite seg_group_assoc.
  change (str "/" ++ str "codeql-bundle-") with (str "/codeql-bundle-").
  destruct (seg_group (str "/codeql-bundle-") [] url) as [X|] eqn:E; [|reflexivity].
  cbn [option_map]. rewrite tryGetBundleVersionFromTagName_eq, strip_prefix_app.
  apply seg_group_some in E as (pre & X' & post & [_ Hone] & _ & ->).
  cbn [app]. now rewrite Hone.
Qed.

(** X1: the helper that raises and the extractor that returns undefined
    read the same bundle version off every URL. *)
Theorem url_version_extractors_agree (url : jsstring) :
  getCodeQLURLVersion url =
  match tryGetBundleVersionFromUrl url with
  | Some X => Ok (Some X)
  | None => Throw (str "Malformed tools url: " ++ url ++ str ". Version could not be inferred")
  end.
Proof.
  rewrite tryGetBundleVersionFromUrl_seg.
  unfold getCodeQLURLVersion. rewrite seg_group_search. unfold String_match.
  rewrite re_url_version_seg.
  destruct (search _ true url) as [[[cap rest] from]|] eqn:Es; [|reflexivity].
  rewrite has_group_seg. cbn [length Nat.ltb Nat.leb array_get nth].
  apply search_some in Es as (pre & _ & Hm & _).
  apply rmatch_seg_some in Hm as (X & _ & -> & _). reflexivity.
Qed.

(** X2: the tag name of a URL is the prefix and the bundle version of that URL. *)
Theorem tag_name_is_prefixed_bundle_version (url : jsstring) :
  tryGetTagNameFromUrl url =
  option_map (app (str "codeql-bundle-")) (tryGetBundleVersionFromUrl url).
Proof.
  rewrite tryGetBundleVersionFromUrl_seg.
  change (tryGetTagNameFromUrl url) with (seg_group (str "/") (str "codeql-bundle-") url).
  apply (seg_group_assoc (str "/") (str "codeql-bundle-")).
Qed.

(** *** The synthesized URL *)

Lemma app_prefix_short (pat s R R' : jsstring) :
  s ++ R = pat ++ R' -> (length pat <= length s)%nat -> startsWith s pat = true.
Proof.
  revert s; induction pat as [|c pat IH]; intros s H Hl.
  - reflexivity.
  - destruct s as [|x s]; [simpl in Hl; lia|].
    simpl in H. injection H as -> H. unfold startsWith. simpl.
    rewrite char_eqb_refl. apply (IH s H). simpl in Hl. lia.
Qed.

Lemma starts_within_leftmost (pat pre pre' R R' : jsstring) :
  starts_within pat pre = false ->
  pre ++ pat ++ R = pre' ++ pat ++ R' -> (length pre <= length pre')%nat.
Proof.
  revert pre'; induction pre as [|x pre IH]; intros pre' Hw H; [simpl; lia|].
  cbn [starts_within] in Hw. apply orb_false_iff in Hw as [Hhere Hw].
  destruct pre' as [|y pre'].
  - exfalso. change ([] ++ pat ++ R') with (pat ++ R') in H.
    rewrite app_assoc in H.
    apply app_prefix_short in H; [congruence|].
    rewrite length_app. simpl. lia.
  - simpl in H. injection H as _ H. simpl. apply le_n_S. now apply IH.
Qed.

Lemma no_slash_longest (X X' n post' : jsstring) :
  X ++ slash :: n = X' ++ slash :: post' -> has_slash n = false ->
  (length X' <= length X)%nat.
Proof.
  revert X'; induction X as [|x X IH]; intros X' H Hn.
  - destruct X' as [|y X']; [simpl; lia|]. exfalso.
    simpl in H. injection H as _ H. subst n.
    unfold has_slash in Hn. rewrite existsb_app in Hn. cbn [existsb] in Hn.
    rewrite char_eqb_refl in Hn. cbn [orb] in Hn. now rewrite orb_true_r in Hn.
  - destruct X' as [|y X']; [simpl; lia|].
    simpl in H. injection H as _ H. simpl. apply le_n_S. now apply IH.
Qed.

Lemma public_download_prefix_leftmost :
  starts_within (str "/codeql-bundle-") public_download_prefix = false.
Proof. vm_compute. reflexivity. Qed.

Section SynthesizedURL.
Variable W : Type.
Variable host : Host W.

Lemma getCodeQLBundleName_no_slash : has_slash (getCodeQLBundleName host) = false.
Proof.
  unfold getCodeQLBundleName.
  destruct (jseqb _ _); [reflexivity|].
  destruct (jseqb _ _); [reflexivity|].
  destruct (jseqb _ _); reflexivity.
Qed.

Lemma public_download_url_seg (X : jsstring) :
  one_line X = true ->
  seg_group (str "/codeql-bundle-") []
    (public_download_url host (Some (str "codeql-bundle-" ++ X))) = Some X.
Proof.
  intros Hone. apply seg_group_some.
  exists public_download_prefix, X, (getCodeQLBundleName host).
  assert (Hurl : public_download_url host (Some (str "codeql-bundle-" ++ X)) =
                 public_download_prefix ++ str "/codeql-bundle-" ++
                 (X ++ slash :: getCodeQLBundleName host)) by reflexivity.
  split; [split; [exact Hurl|exact Hone]|]. split; [|reflexivity].
  intros pre' X' post' [Ho HX']. rewrite Hurl in Ho. cbn [app] in Ho. split.
  - apply (starts_within_leftmost (str "/codeql-bundle-") public_download_prefix pre' _ _
             public_download_prefix_leftmost Ho).
  - intros Hl. symmetry in Hl. apply app_eq_length in Ho as [_ Ho]; [|exact Hl].
    apply (app_inv_head (str "/codeql-bundle-")) in Ho.
    apply (no_slash_longest _ _ _ _ Ho getCodeQLBundleName_no_slash).
Qed.

(** X3: the URL that the locator synthesizes for the tag [codeql-bundle-X]
    gives back that tag and the bundle version [X], on every platform. *)
Theorem public_download_url_round_trip (X : jsstring) :
  one_line X = true ->
  tryGetTagNameFromUrl (public_download_url host (Some (str "codeql-bundle-" ++ X))) =
    Some (str "codeql-bundle-" ++ X) /\
  tryGetBundleVersionFromUrl (public_download_url host (Some (str "codeql-bundle-" ++ X))) =
    Some X.
Proof.
  intros Hone. split.
  - change (tryGetTagNameFromUrl ?u) with (seg_group (str "/") (str "codeql-bundle-") u).
    rewrite seg_group_assoc.
    change (str "/" ++ str "codeql-bundle-") with (str "/codeql-bundle-").
    now rewrite public_download_url_seg.
  - rewrite tryGetBundleVersionFromUrl_seg. now apply public_download_url_seg.
Qed.
End SynthesizedURL.

Lemma public_download_url_round_trip_witness :
  tryGetBundleVersionFromUrl
    (public_download_url (Runner.host []) (Some (str "codeql-bundle-" ++ str "20230101"))) =
  Some (str "20230101").
Proof.
  exact (proj2 (public_download_url_round_trip unit (Runner.host []) (str "20230101") eq_refl)).
Defined.

(** ** The coercion, case by case *)

Module semver_clean_facts.
Import semver semver_facts semver_parse_facts semver_canonical.

Lemma drop_while_stops f s x r : drop_while f s = x :: r -> f x = false.
Proof.
  induction s as [|y s IH]; simpl; [discriminate|].
  destruct (f y) eqn:E; [exact IH|]. intros H; injection H as <- _. exact E.
Qed.

(** A text that neither starts nor ends with white space is trimmed
    already. *)
Lemma trim_ends s :
  match s with [] => True | x :: _ => is_space x = false end ->
  match rev s with [] => True | x :: _ => is_space x = false end ->
  trim s = s.
Proof.
  intros Hh Hl. unfold trim. rewrite (drop_while_head is_space s Hh).
  rewrite (drop_while_head is_space (rev s) Hl). apply rev_involutive.
Qed.

Lemma trim_last v :
  match rev (trim v) with [] => True | x :: _ => is_space x = false end.
Proof.
  unfold trim. rewrite rev_involutive.
  destruct (drop_while is_space (rev (drop_while is_space v))) as [|x r] eqn:E; [exact I|].
  exact (drop_while_stops _ _ _ _ E).
Qed.

Lemma digit_not_space c : digit c = true -> is_space c = false.
Proof. intros H. now apply letterdashnumber_not_space, digit_letterdashnumber. Qed.

Lemma digit_not_eq_v c :
  digit c = true -> char_eqb c 61%N || char_eqb c 118%N = false.
Proof.
  intros H. apply digit_cases in H.
  repeat (destruct H as [->|H]); try subst c; reflexivity.
Qed.

Lemma take_numeric_head s ds rest :
  take_numeric s = Some (ds, rest) -> exists c s', s = c :: s' /\ digit c = true.
Proof.
  intros H. apply take_numeric_sound in H as [-> Wn].
  destruct (numeric_head _ Wn) as (c & ds' & -> & Hc). simpl. eauto.
Qed.

Lemma match_FULL_v d r :
  digit d = true -> match_FULL (118%N :: d :: r) = match_FULL (d :: r).
Proof.
  intros Hd. unfold match_FULL. cbv zeta.
  rewrite (strip_v_digit (d :: r)) by exact Hd. reflexivity.
Qed.

(** What [clean] removes in front of a text that FULL matches is the
    optional v, which FULL skips. *)
Lemma match_FULL_strip t m :
  match_FULL t = Some m ->
  let t' := drop_while (fun c => char_eqb c 61%N || char_eqb c 118%N) t in
  match_FULL t' = Some m /\
  (exists c r, t' = c :: r /\ digit c = true) /\
  (t' = t \/ t = 118%N :: t').
Proof.
  intros H. assert (H0 := H). unfold match_FULL in H.
  destruct t as [|c t0].
  - simpl in H. discriminate.
  - destruct (char_eqb c 118%N) eqn:Ec.
    + apply char_eqb_eq in Ec. subst c.
      destruct (take_numeric t0) as [[m1 s1]|] eqn:E1; [|discriminate].
      destruct (take_numeric_head _ _ _ E1) as (d & r & -> & Hd).
      cbv zeta. cbn [drop_while].
      change (char_eqb 118%N 61%N || char_eqb 118%N 118%N) with true.
      cbv iota. cbn [drop_while]. rewrite (digit_not_eq_v d Hd).
      split; [|split; [eauto|now right]].
      now rewrite <- (match_FULL_v d r Hd).
    + destruct (take_numeric (c :: t0)) as [[m1 s1]|] eqn:E1; [|discriminate].
      destruct (take_numeric_head _ _ _ E1) as (d & r & Ecr & Hd).
      injection Ecr as <- <-.
      cbv zeta. cbn [drop_while]. rewrite (digit_not_eq_v c Hd).
      split; [exact H0|]. split; [eauto|now left].
Qed.

(** On a text that [parse] accepts, [clean] and [valid] agree. *)
Lemma clean_of_valid v s : valid v = Some s -> clean v = Some s.
Proof.
  unfold valid, clean. destruct (parse v) as [sv|] eqn:Ep; [|discriminate].
  intros H. rewrite <- H. clear H s. f_equal.
  unfold parse in Ep |- *.
  destruct (Nat.ltb MAX_LENGTH (length v)) eqn:El; [discriminate|].
  destruct (match_FULL (trim v)) as [m|] eqn:Em; [|discriminate].
  destruct (match_FULL_strip _ _ Em) as (Hm & (c & r & Et & Hc) & Hshape).
  set (t' := drop_while _ (trim v)) in *.
  apply Nat.ltb_ge in El.
  assert (Hlen : (length t' <= length v)%nat).
  { etransitivity; [apply drop_while_length|apply trim_length]. }
  replace (Nat.ltb MAX_LENGTH (length t')) with false
    by (symmetry; apply Nat.ltb_ge; lia).
  assert (Ht : trim t' = t').
  { apply trim_ends.
    - rewrite Et. now apply digit_not_space.
    - pose proof (trim_last v) as Hl. destruct Hshape as [->|E]; [exact Hl|].
      rewrite E in Hl. cbn [rev] in Hl. rewrite Et in Hl |- *. cbn [rev] in Hl |- *.
      destruct (rev r ++ [c]) as [|y l] eqn:Er; [exact I|]. exact Hl. }
  now rewrite Ht, Hm.
Qed.

Lemma valid_truthy v s : valid v = Some s -> truthy s = true.
Proof.
  unfold valid. destruct (parse v) as [sv|] eqn:Ep; [|discriminate].
  intros H; injection H as <-. pose proof (format_head _ _ Ep) as Hh.
  now destruct (format sv).
Qed.

(** The wrapped text [0.0.0-v] of a pre-release text [v] is canonical. *)
Lemma clean_wrapped v :
  prerelease_text v = true -> (length v <= 250)%nat ->
  clean (str "0.0.0-" ++ v) = Some (str "0.0.0-" ++ v).
Proof.
  intros Hv Hl. apply andb_true_iff in Hv as [Hplus Hids].
  set (m := {| g_major := str "0"; g_minor := str "0"; g_patch := str "0";
               g_prerelease := Some v; g_build := None |}).
  assert (Hc : str "0.0.0-" ++ v = canon m) by reflexivity.
  assert (Wm : wf_groups m).
  { repeat split; try reflexivity; assumption. }
  rewrite Hc. unfold clean.
  rewrite trim_no_space by (intros c; now apply canon_no_space).
  rewrite drop_while_head by (rewrite <- Hc; reflexivity).
  unfold parse.
  replace (Nat.ltb MAX_LENGTH (length (canon m))) with false.
  2:{ symmetry. apply Nat.ltb_ge. rewrite <- Hc, length_app.
      change (length (str "0.0.0-")) with 6%nat. unfold MAX_LENGTH. lia. }
  rewrite trim_no_space by (intros c; now apply canon_no_space).
  rewrite (match_FULL_canon _ Wm).
  destruct (of_groups (no_build m)) as [sv|] eqn:Eg; [|discriminate Eg].
  cbn [option_map]. f_equal. exact (of_groups_format _ _ (wf_no_build _ Wm) Eg).
Qed.
End semver_clean_facts.

(** X4: what the coercion returns is a version that the library accepts
    and leaves as it is; it is never the empty string. *)
Theorem convertToSemVer_returns_canonical (v s : jsstring) :
  convertToSemVer v = Ok s -> semver.valid s = Some s /\ s <> [].
Proof.
  unfold convertToSemVer, convertToSemVer_with.
  destruct (semver.clean _) as [s'|] eqn:E; [|discriminate].
  destruct (truthy s') eqn:Ht; [|discriminate].
  intros H; injection H as <-. split.
  - exact (proj1 (semver_clean_canonical _ _ E)).
  - now apply truthy_not_nil.
Qed.

Lemma convertToSemVer_returns_canonical_witness :
  semver.valid (str "0.0.0-20230101") = Some (str "0.0.0-20230101").
Proof.
  refine (proj1 (convertToSemVer_returns_canonical (str "20230101") _ _)).
  vm_compute. reflexivity.
Defined.

(** X5: a version that the library accepts is not wrapped: the coercion
    returns the canonical text of that very version, and does not throw. *)
Theorem convertToSemVer_keeps_valid (v s : jsstring) :
  semver.valid v = Some s -> convertToSemVer v = Ok s.
Proof.
  intros Hv. unfold convertToSemVer, convertToSemVer_with. rewrite Hv.
  cbn [truthy_opt]. rewrite (semver_clean_facts.valid_truthy _ _ Hv). cbn [negb].
  rewrite (semver_clean_facts.clean_of_valid _ _ Hv).
  now rewrite (semver_clean_facts.valid_truthy _ _ Hv).
Qed.

Lemma convertToSemVer_keeps_valid_witness :
  convertToSemVer (str " v2.12.1+build ") = Ok (str "2.12.1").
Proof.
  apply (convertToSemVer_keeps_valid (str " v2.12.1+build ") (str "2.12.1")).
  vm_compute. reflexivity.
Defined.

(** X6: a text that the library does not accept as a version but that can
    stand as a pre-release, of at most 250 characters, is wrapped without
    loss: the coercion returns [0.0.0-] followed by the text itself. *)
Theorem convertToSemVer_wraps (v : jsstring) :
  semver.valid v = None -> prerelease_text v = true -> (length v <= 250)%nat ->
  convertToSemVer v = Ok (str "0.0.0-" ++ v).
Proof.
  intros Hv Hp Hl. unfold convertToSemVer, convertToSemVer_with. rewrite Hv.
  cbn [truthy_opt negb]. now rewrite (semver_clean_facts.clean_wrapped _ Hp Hl).
Qed.

Lemma convertToSemVer_wraps_witness :
  convertToSemVer (str "20230101") = Ok (str "0.0.0-20230101").
Proof.
  apply (convertToSemVer_wraps (str "20230101")).
  - vm_compute. reflexivity.
  - vm_compute. reflexivity.
  - vm_compute. lia.
Defined.

(** ** The CLI version of a release *)

Lemma rmatch_close_lit t bol acc s :
  rmatch (GroupClose :: map Chr t) bol (Some acc) s =
  match strip_prefix t s with
  | Some rest => Some (Some (rev acc), rest)
  | None => None
  end.
Proof.
  cbn [rmatch]. rewrite <- (app_nil_r (map Chr t)), rmatch_lit.
  destruct (strip_prefix t s); reflexivity.
Qed.

Lemma re_cli_version_marker_eq :
  re_cli_version_marker =
  map Chr (str "cli-version-") ++ GroupOpen :: Many dot 0 :: GroupClose :: map Chr (str ".txt").
Proof. reflexivity. Qed.

(** A match of the marker pattern at the start of [s]: the group takes
    the longest one-line [X] that [.txt] follows. *)
Lemma rmatch_marker_some bol s cap rest :
  rmatch re_cli_version_marker bol None s = Some (cap, rest) <->
  exists X, s = str "cli-version-" ++ X ++ str ".txt" ++ rest /\ cap = Some X /\
    one_line X = true /\
    forall X' rest', X ++ str ".txt" ++ rest = X' ++ str ".txt" ++ rest' ->
      one_line X' = true -> (length X' <= length X)%nat.
Proof.
  rewrite re_cli_version_marker_eq, rmatch_lit.
  destruct (strip_prefix (str "cli-version-") s) as [s1|] eqn:E1.
  2:{ split; [discriminate|]. intros (X & Hs & _).
      apply strip_prefix_spec in Hs. congruence. }
  apply strip_prefix_spec in E1. subst s.
  rewrite rmatch_GroupOpen, rmatch_Many, many_go_some. cbn [pushes option_map].
  split.
  - intros (a & b & Hs & Ha & _ & Hk & Hmax).
    rewrite app_nil_r, rmatch_close_lit in Hk.
    destruct (strip_prefix (str ".txt") b) as [r|] eqn:Eb; [|discriminate].
    apply strip_prefix_spec in Eb. subst b.
    injection Hk as <- <-. exists a. subst s1. rewrite rev_involutive.
    repeat split; auto.
    intros X' rest' HX HX'.
    destruct (Nat.le_gt_cases (length X') (length a)) as [Hle|Hgt]; [exact Hle|].
    specialize (Hmax X' (str ".txt" ++ rest') HX HX' Hgt).
    rewrite app_nil_r, rmatch_close_lit, strip_prefix_app in Hmax. discriminate.
  - intros (X & Hs & -> & HX & Hmax).
    apply app_inv_head in Hs. subst s1.
    exists X, (str ".txt" ++ rest). repeat split; auto; try lia.
    + now rewrite app_nil_r, rmatch_close_lit, strip_prefix_app, rev_involutive.
    + intros a' b' Hs' Ha' Hl. rewrite app_nil_r, rmatch_close_lit.
      destruct (strip_prefix (str ".txt") b') as [r|] eqn:Eb; [|reflexivity].
      apply strip_prefix_spec in Eb. subst b'.
      specialize (Hmax a' r Hs' Ha'). lia.
Qed.

Lemma includes_spec s p :
  includes s p = false -> forall pre post, s <> pre ++ p ++ post.
Proof.
  induction s as [|x s IH]; cbn [includes]; intros H pre post E.
  - apply orb_false_iff in H as [H _].
    destruct pre; [|discriminate E]. cbn [app] in E.
    assert (startsWith [] p = true) by (apply startsWith_spec; eauto). congruence.
  - apply orb_false_iff in H as [Hh Ht].
    destruct pre as [|y pre].
    + cbn [app] in E.
      assert (startsWith (x :: s) p = true) by (apply startsWith_spec; eauto). congruence.
    + cbn [app] in E. injection E as _ E. exact (IH Ht pre post E).
Qed.

Lemma has_group_marker : has_group re_cli_version_marker = true.
Proof. reflexivity. Qed.

Lemma marker_version_search name :
  marker_version name =
  match search re_cli_version_marker true name with
  | Some ((cap, _), _) => cap
  | None => None
  end.
Proof.
  unfold marker_version, String_match.
  destruct (search re_cli_version_marker true name) as [[[cap rest] from]|]; [|reflexivity].
  now rewrite has_group_marker.
Qed.

(** A captured version stands in the name between [cli-version-] and
    [.txt], on one line. *)
Lemma marker_version_some name v :
  marker_version name = Some v ->
  one_line v = true /\ exists pre post, name = pre ++ marker_name v ++ post.
Proof.
  rewrite marker_version_search.
  destruct (search re_cli_version_marker true name) as [[[cap rest] from]|] eqn:E;
    [|discriminate].
  intros ->. apply search_some in E as (pre & Hs & Hm & _).
  apply rmatch_marker_some in Hm as (X & Hfrom & Hcap & HX & _).
  injection Hcap as ->. split; [exact HX|].
  exists pre, rest. unfold marker_name. rewrite Hs, Hfrom. now rewrite <- !app_assoc.
Qed.

(** The name of a marker file yields its version. *)
Lemma marker_version_exact v :
  one_line v = true -> marker_version (marker_name v) = Some v.
Proof.
  intros Hv. rewrite marker_version_search.
  assert (E : search re_cli_version_marker true (marker_name v) =
              Some ((Some v, []), marker_name v)).
  { apply search_some. exists []. split; [reflexivity|]. split.
    - apply rmatch_marker_some. exists v. unfold marker_name.
      rewrite app_nil_r. repeat split; auto.
      intros X' rest' H _. apply (f_equal (@length char)) in H.
      rewrite !length_app in H. simpl in H. lia.
    - intros pre' from' _ Hl. simpl in Hl. lia. }
  now rewrite E.
Qed.

(** A name without [cli-version-] yields none. *)
Lemma marker_version_none name :
  includes name (str "cli-version-") = false -> marker_version name = None.
Proof.
  intros Hn. rewrite marker_version_search.
  assert (E : search re_cli_version_marker true name = None).
  { apply search_none. intros pre from Hs.
    rewrite re_cli_version_marker_eq, rmatch_lit.
    destruct (strip_prefix (str "cli-version-") from) as [s1|] eqn:E1; [|reflexivity].
    apply strip_prefix_spec in E1. subst from.
    now elim (includes_spec _ _ Hn pre s1). }
  now rewrite E.
Qed.

Lemma tryGetCodeQLCliVersionForRelease_eq (release : release) :
  tryGetCodeQLCliVersionForRelease release =
  match filter truthy_opt (map (fun a => marker_version (asset_name a)) (assets release)) with
  | [c] => c
  | _ => None
  end.
Proof.
  unfold tryGetCodeQLCliVersionForRelease. fold marker_version.
  change (fun asset : asset => marker_version (asset_name asset))
    with (fun a : asset => marker_version (asset_name a)).
  destruct (filter truthy_opt _) as [|c [|c' l]]; reflexivity.
Qed.

Lemma two_not_one (A : Type) (F1 F2 F3 : list (option A)) (x y : option A) :
  match F1 ++ x :: F2 ++ y :: F3 with [c] => c | _ => None end = None.
Proof.
  destruct F1 as [|c [|c' l]]; cbn [app]; try reflexivity.
  destruct F2; reflexivity.
Qed.

(** X7: the CLI version found for a release is never empty, holds no line
    terminator, and stands in the name of one of the release's assets
    between [cli-version-] and [.txt]. *)
Theorem cli_version_of_release_from_marker (release : release) (v : jsstring) :
  tryGetCodeQLCliVersionForRelease release = Some v ->
  v <> [] /\ one_line v = true /\
  exists a pre post, In a (assets release) /\
    asset_name a = pre ++ str "cli-version-" ++ v ++ str ".txt" ++ post.
Proof.
  rewrite tryGetCodeQLCliVersionForRelease_eq.
  destruct (filter truthy_opt _) as [|c [|c' l]] eqn:E; try discriminate.
  intros ->.
  assert (Hin : In (Some v) (filter truthy_opt
             (map (fun a => marker_version (asset_name a)) (assets release))))
    by (rewrite E; now left).
  apply filter_In in Hin as [Hin Ht]. apply in_map_iff in Hin as (a & Ha & Hina).
  apply marker_version_some in Ha as (Hone & pre & post & Hname).
  split; [now apply truthy_not_nil|]. split; [exact Hone|].
  exists a, pre, post. split; [exact Hina|].
  rewrite Hname. unfold marker_name. now rewrite <- !app_assoc.
Qed.

(** X8: a release with the marker files of two CLI versions has no CLI
    version: none of the two is chosen. *)
Theorem cli_version_of_release_ambiguous (release : release) (a1 a2 : asset)
    (l1 l2 l3 : list asset) (v1 v2 : jsstring) :
  assets release = l1 ++ a1 :: l2 ++ a2 :: l3 ->
  asset_name a1 = marker_name v1 -> asset_name a2 = marker_name v2 ->
  v1 <> [] -> v2 <> [] -> one_line v1 = true -> one_line v2 = true ->
  tryGetCodeQLCliVersionForRelease release = None.
Proof.
  intros Ha H1 H2 N1 N2 O1 O2. rewrite tryGetCodeQLCliVersionForRelease_eq, Ha.
  rewrite map_app, filter_app. cbn [map filter].
  rewrite H1, (marker_version_exact _ O1). cbn [truthy_opt].
  apply truthy_not_nil in N1, N2. rewrite N1.
  rewrite map_app, filter_app. cbn [map filter].
  rewrite H2, (marker_version_exact _ O2). cbn [truthy_opt]. rewrite N2.
  apply two_not_one.
Qed.

(** X9: a release with one marker file, whose other assets do not have
    [cli-version-] in their names, has the CLI version of that file. *)
Theorem cli_version_of_release_unique (release : release) (a : asset)
    (l1 l2 : list asset) (v : jsstring) :
  assets release = l1 ++ a :: l2 ->
  asset_name a = marker_name v -> v <> [] -> one_line v = true ->
  (forall b, In b (l1 ++ l2) -> includes (asset_name b) (str "cli-version-") = false) ->
  tryGetCodeQLCliVersionForRelease release = Some v.
Proof.
  intros Ha Hname Hv Hone Hothers.
  assert (Hnone : forall l, (forall b, In b l ->
                     includes (asset_name b) (str "cli-version-") = false) ->
                  filter truthy_opt (map (fun a => marker_version (asset_name a)) l) = []).
  { induction l as [|b l IH]; intros Hl; [reflexivity|]. cbn [map filter].
    rewrite (marker_version_none _ (Hl b (or_introl eq_refl))). cbn [truthy_opt].
    apply IH. intros b' Hb'. apply Hl. now right. }
  rewrite tryGetCodeQLCliVersionForRelease_eq, Ha, map_app, filter_app.
  cbn [map filter]. rewrite Hname, (marker_version_exact _ Hone). cbn [truthy_opt].
  apply truthy_not_nil in Hv. rewrite Hv.
  rewrite !Hnone; [reflexivity| |]; intros b Hb; apply Hothers, in_app_iff; auto.
Qed.

Lemma cli_version_of_release_from_marker_witness :
  tryGetCodeQLCliVersionForRelease Fixtures.marked = Some (str "2.12.1") /\
  str "2.12.1" <> [].
Proof.
  split; [reflexivity|].
  exact (proj1 (cli_version_of_release_from_marker Fixtures.marked
                  (str "2.12.1") eq_refl)).
Defined.

Lemma cli_version_of_release_ambiguous_witness :
  tryGetCodeQLCliVersionForRelease Fixtures.ambiguous = None.
Proof.
  refine (cli_version_of_release_ambiguous Fixtures.ambiguous
            _ _ [] [_] [] (str "2.12.1") (str "2.12.2") eq_refl eq_refl eq_refl _ _
            eq_refl eq_refl); discriminate.
Defined.

Lemma cli_version_of_release_unique_witness :
  tryGetCodeQLCliVersionForRelease Fixtures.marked = Some (str "2.12.1").
Proof.
  refine (cli_version_of_release_unique Fixtures.marked
            _ [_] [_] (str "2.12.1") eq_refl eq_refl _ eq_refl _); [discriminate|].
  intros b Hb. cbn [app In] in Hb. destruct Hb as [<-|[<-|[]]]; reflexivity.
Defined.

(** ** Lookups that cannot fail *)

Lemma jseqb_refl (a : jsstring) : jseqb a a = true.
Proof. now apply jseqb_eq. Qed.

Lemma find_asset_some name l u :
  find_asset name l = Some u ->
  exists a, In a l /\ asset_name a = name /\ asset_url a = u.
Proof.
  induction l as [|a l IH]; cbn [find_asset]; [discriminate|].
  destruct (jseqb (asset_name a) name) eqn:E.
  - intros H; injection H as <-. apply jseqb_eq in E. exists a. split; [now left|auto].
  - intros H. destruct (IH H) as (b & Hb & Hn). exists b. split; [now right|exact Hn].
Qed.

Section Lookups.
Variable W : Type.
Variable host : Host W.

(** X10: the lookup of the CLI version of a bundle never throws: whatever
    the environment and the API do, it returns a version or undefined,
    after at most one request; a version returned is the one of a release
    that the API returned for the tag. *)
Theorem cli_version_lookup_never_throws (tagName : jsstring) (st : state W) :
  exists v st',
    tryFindCliVersionDotcomOnly host tagName st = (Ok v, st') /\
    (trace st' = trace st \/
     exists owner repo, trace st' = trace st ++ [GetReleaseByTag owner repo (Some tagName)]) /\
    (forall c, v = Some c ->
       exists w owner repo release w',
         getReleaseByTag host w owner repo (Some tagName) = (Ok release, w') /\
         tryGetCodeQLCliVersionForRelease release = Some c).
Proof.
  destruct (tryFindCliVersionDotcomOnly host tagName st) as [r st'] eqn:Hrun.
  unfold tryFindCliVersionDotcomOnly, getCodeQLActionRepository, releaseByTag in Hrun.
  inv_run.
  all: do 2 eexists; split; [reflexivity|]; cbn [trace]; split;
    [ first [left; reflexivity | right; eauto]
    | intros c Hc; try discriminate Hc; eauto 10 ].
Qed.

(** *** The asset locator *)

Lemma tryDownloadSources_run tagName sources (st : state W) r st' :
  tryDownloadSources host tagName sources st = (r, st') ->
  exists found n,
    r = Ok found /\
    trace st' = trace st ++
                map (lookup_event tagName) (firstn n (before_public host sources)) /\
    (forall u, found = Some u ->
       exists w owner repo release w',
         getReleaseByTag host w owner repo tagName = (Ok release, w') /\
         find_asset (getCodeQLBundleName host) (assets release) = Some u).
Proof.
  revert st; induction sources as [|[a rp] l IH]; intros st Hrun.
  - cbn [tryDownloadSources] in Hrun. inv_run.
    exists None, 0%nat. cbn. rewrite app_nil_r. repeat split; auto. discriminate.
  - cbn [tryDownloadSources before_public] in Hrun |- *. destruct (_ && _).
    + inv_run. exists None, 0%nat. cbn. rewrite app_nil_r. repeat split; auto. discriminate.
    + unfold releaseByTag in Hrun.
      apply inv_bind in Hrun as [(e & Hrun & ->) | (found & st1 & Hfirst & Hrun)].
      * exfalso. inv_run.
      * assert (Hst1 : trace st1 = trace st ++ [lookup_event tagName (a, rp)]).
        { inv_run; reflexivity. }
        destruct found as [u|].
        -- apply inv_ret in Hrun as [-> ->].
           exists (Some u), 1%nat. split; [reflexivity|]. split; [exact Hst1|].
           intros u' Hu. injection Hu as <-. inv_run; eauto 10.
        -- destruct (IH _ Hrun) as (found & n & -> & Htrace & Hfound).
           exists found, (S n). split; [reflexivity|]. split; [|exact Hfound].
           rewrite Htrace, Hst1. cbn [firstn map]. now rewrite <- app_assoc.
Qed.

Lemma tryGhaeEndpoint_run tagName (st : state W) r st' :
  tryGhaeEndpoint host tagName st = (r, st') ->
  exists found events,
    r = Ok found /\ trace st' = trace st ++ events /\
    forallb is_api_request events = true /\
    filter is_release_lookup events = [] /\
    (forall u, found = Some u -> exists w id w', ghaeDownload host w id = (Ok u, w')).
Proof.
  intros Hrun. unfold tryGhaeEndpoint in Hrun. inv_run.
  all: cbn [trace]; rewrite <- ?app_assoc; cbn [app];
       do 2 eexists; split; [reflexivity|]; split; [reflexivity|];
       split; [reflexivity|]; split; [reflexivity|];
       intros u Hu; try discriminate Hu; injection Hu as <-; eauto.
Qed.

Lemma before_public_unique_length apiDetails repository :
  (length (before_public host (uniqueDownloadSources host apiDetails repository)) <= 2)%nat.
Proof.
  rewrite uniqueDownloadSources_first_occurrences.
  unfold potentialDownloadSources. cbn [first_occurrences existsb app].
  repeat match goal with
         | |- context [if ?c then _ else _] => destruct c
         end;
    cbn [before_public first_occurrences]; rewrite ?jseqb_refl; cbn [andb];
    repeat match goal with
           | |- context [if ?c then _ else _] => destruct c
           end; simpl; lia.
Qed.

Lemma filter_lookup_events tagName (l : list source) :
  filter is_release_lookup (map (lookup_event tagName) l) = map (lookup_event tagName) l.
Proof. induction l as [|x l IH]; simpl; [reflexivity|]. now rewrite IH. Qed.

Lemma forallb_lookup_events tagName (l : list source) :
  forallb is_api_request (map (lookup_event tagName) l) = true.
Proof. induction l as [|x l IH]; simpl; auto. Qed.

(** X11: once the Action's repository is known the locator cannot fail:
    whatever the API answers it returns a URL.  The release lookups it
    makes are those of the first candidates in front of the public pair,
    in order, so at most two. *)
Theorem download_url_never_fails (tagName : maybe) (apiDetails : GitHubApiDetails)
    (variant : GitHubVariant) (repository : jsstring) (st : state W) :
  let tried := before_public host (uniqueDownloadSources host apiDetails repository) in
  action_repository host repository ->
  exists u st' n,
    getCodeQLBundleDownloadURL host tagName apiDetails variant st = (Ok u, st') /\
    filter is_release_lookup (skipn (length (trace st)) (trace st')) =
      map (lookup_event tagName) (firstn n tried) /\
    (length tried <= 2)%nat.
Proof.
  intros tried Hrepo.
  destruct (getCodeQLBundleDownloadURL host tagName apiDetails variant st)
    as [r st'] eqn:Hrun.
  unfold getCodeQLBundleDownloadURL in Hrun.
  apply inv_bind in Hrun as [(e & Hrun & ->) | (repo & st1 & Hrepo1 & Hrun)];
    rewrite (getCodeQLActionRepository_known W host repository st Hrepo) in *;
    [discriminate|].
  injection Hrepo1 as <- <-.
  apply inv_bind in Hrun as [(e & Hghae & ->) | (fromGhae & st1 & Hghae & Hrun)].
  { exfalso. destruct (GitHubVariant_eqb variant GHAE).
    - apply tryGhaeEndpoint_run in Hghae as (? & ? & ? & _). discriminate.
    - inv_run. }
  assert (Hst1 : exists events, trace st1 = trace st ++ events /\
                                filter is_release_lookup events = []).
  { destruct (GitHubVariant_eqb variant GHAE).
    - apply tryGhaeEndpoint_run in Hghae as (? & events & _ & Ht & _ & Hf & _). eauto.
    - apply inv_ret in Hghae as [_ ->]. exists []. now rewrite app_nil_r. }
  destruct Hst1 as (events & Hst1 & Hevents).
  destruct fromGhae as [downloadURL|].
  - apply inv_ret in Hrun as [-> ->]. exists downloadURL, st1, 0%nat.
    split; [reflexivity|]. split; [|apply before_public_unique_length].
    rewrite Hst1, skipn_app, skipn_all, Nat.sub_diag. cbn [skipn app firstn map].
    exact Hevents.
  - apply inv_bind in Hrun as [(e & Hloop & ->) | (found & st2 & Hloop & Hrun)].
    { apply tryDownloadSources_run in Hloop as (? & ? & ? & _). discriminate. }
    apply tryDownloadSources_run in Hloop as (found' & n & Hf & Hst2 & _).
    injection Hf as <-.
    assert (Hst' : st' = st2 /\ exists u, r = Ok u).
    { destruct found; apply inv_ret in Hrun as [-> ->]; eauto. }
    destruct Hst' as (-> & u & ->). exists u, st2, n.
    split; [reflexivity|]. split; [|apply before_public_unique_length].
    rewrite Hst2, Hst1, <- app_assoc, skipn_app, skipn_all, Nat.sub_diag.
    cbn [skipn app]. rewrite filter_app, Hevents. apply filter_lookup_events.
Qed.

(** X12: a URL that the locator returns is the download URL that the
    GitHub AE endpoint gave, the URL of an asset that has the bundle's
    name in a release that the API returned for the tag, or the
    synthesized public URL; never anything else. *)
Theorem download_url_provenance (tagName : maybe) (apiDetails : GitHubApiDetails)
    (variant : GitHubVariant) (st st' : state W) (u : jsstring) :
  getCodeQLBundleDownloadURL host tagName apiDetails variant st = (Ok u, st') ->
  (variant = GHAE /\ exists w id w', ghaeDownload host w id = (Ok u, w')) \/
  (exists w owner repo release w' a,
     getReleaseByTag host w owner repo tagName = (Ok release, w') /\
     In a (assets release) /\ asset_name a = getCodeQLBundleName host /\
     asset_url a = u) \/
  u = public_download_url host tagName.
Proof.
  intros Hrun. unfold getCodeQLBundleDownloadURL in Hrun.
  apply inv_bind in Hrun as [(e & _ & He) | (repo & st1 & _ & Hrun)]; [discriminate|].
  apply inv_bind in Hrun as [(e & _ & He) | (fromGhae & st2 & Hghae & Hrun)];
    [discriminate|].
  destruct fromGhae as [downloadURL|].
  - apply inv_ret in Hrun as [Hu _]. injection Hu as <-. left.
    destruct (GitHubVariant_eqb variant GHAE) eqn:Ev.
    + split; [destruct variant; (reflexivity || discriminate Ev)|].
      apply tryGhaeEndpoint_run in Hghae as (found & ? & Hf & _ & _ & _ & Hu).
      injection Hf as <-. now apply Hu.
    + inv_run.
  - right.
    apply inv_bind in Hrun as [(e & _ & He) | (found & st3 & Hloop & Hrun)];
      [discriminate|].
    apply tryDownloadSources_run in Hloop as (found' & n & Hf & _ & Hfound).
    injection Hf as <-. destruct found as [u'|].
    + apply inv_ret in Hrun as [Hu _]. injection Hu as <-. left.
      destruct (Hfound u eq_refl) as (w & owner & rp & release & w' & Hrel & Hasset).
      apply find_asset_some in Hasset as (a & Ha & Hn & Hu).
      exists w, owner, rp, release, w', a. auto.
    + apply inv_ret in Hrun as [Hu _]. injection Hu as Hu. right.
      rewrite Hu. reflexivity.
Qed.
End Lookups.

Lemma download_url_never_fails_witness :
  exists u,
    fst (getCodeQLBundleDownloadURL (Runner.host []) (Some (str "codeql-bundle-20230101"))
           Scenarios.enterprise_api GHES (start tt)) = Ok u.
Proof.
  destruct (download_url_never_fails unit (Runner.host [])
              (Some (str "codeql-bundle-20230101")) Scenarios.enterprise_api GHES
              (str "github/codeql-action") (start tt) eq_refl) as (u & st' & n & E & _).
  exists u. now rewrite E.
Defined.

Lemma download_url_provenance_witness :
  Scenarios.release_url =
  public_download_url (Runner.host []) (Some (str "codeql-bundle-20230101")).
Proof.
  destruct (download_url_provenance unit (Runner.host [])
              (Some (str "codeql-bundle-20230101")) Scenarios.enterprise_api GHES
              (start tt) _ Scenarios.release_url (surjective_pairing _))
    as [[Hv _]|[(w & o & r & rel & w' & a & Hrel & _)|E]].
  - discriminate Hv.
  - discriminate Hrel.
  - exact E.
Defined.

(** ** The resolver and what it touches *)

Section ResolverEffects.
Variable W : Type.
Variable host : Host W.

Lemma getCodeQLBundleDownloadURL_events tagName apiDetails variant (st : state W) r st' :
  getCodeQLBundleDownloadURL host tagName apiDetails variant st = (r, st') ->
  exists events, trace st' = trace st ++ events /\ forallb is_api_request events = true.
Proof.
  intros Hrun. unfold getCodeQLBundleDownloadURL in Hrun.
  assert (Hnil : exists events, trace st = trace st ++ events /\
                                forallb is_api_request events = true)
    by (exists []; now rewrite app_nil_r).
  apply inv_bind in Hrun as [(e & Hrepo & ->) | (repo & st1 & Hrepo & Hrun)].
  { unfold getCodeQLActionRepository in Hrepo. inv_run; exact Hnil. }
  assert (st1 = st) as -> by (unfold getCodeQLActionRepository in Hrepo; inv_run; reflexivity).
  clear Hrepo.
  assert (Hghae : forall r1 st1,
            (if GitHubVariant_eqb variant GHAE then tryGhaeEndpoint host tagName
             else ret None) st = (r1, st1) ->
            exists events, trace st1 = trace st ++ events /\
                           forallb is_api_request events = true).
  { intros r1 st1 H. destruct (GitHubVariant_eqb variant GHAE).
    - apply tryGhaeEndpoint_run in H as (? & events & _ & Ht & Hf & _). eauto.
    - apply inv_ret in H as [_ ->]. exact Hnil. }
  apply inv_bind in Hrun as [(e & H1 & ->) | (fromGhae & st1 & H1 & Hrun)];
    [exact (Hghae _ _ H1)|].
  destruct (Hghae _ _ H1) as (ev1 & Ht1 & Hf1).
  destruct fromGhae as [downloadURL|].
  { apply inv_ret in Hrun as [_ ->]. eauto. }
  assert (Hloop : forall r2 st2,
            tryDownloadSources host tagName
              (uniqueDownloadSources host apiDetails repo) st1 = (r2, st2) ->
            exists events, trace st2 = trace st ++ events /\
                           forallb is_api_request events = true).
  { intros r2 st2 H. apply tryDownloadSources_run in H as (? & n & _ & Ht2 & _).
    exists (ev1 ++ map (lookup_event tagName)
                     (firstn n (before_public host
                                  (uniqueDownloadSources host apiDetails repo)))).
    rewrite Ht2, Ht1, <- app_assoc. split; [reflexivity|].
    now rewrite forallb_app, Hf1, forallb_lookup_events. }
  apply inv_bind in Hrun as [(e & H2 & ->) | (found & st2 & H2 & Hrun)];
    [exact (Hloop _ _ H2)|].
  destruct found; apply inv_ret in Hrun as [_ ->]; exact (Hloop _ _ H2).
Qed.

Lemma overridingTools_toolcache variant toolsInput (w : W) src :
  overridingTools host variant toolsInput w = Some src ->
  exists codeqlFolder v, src = SourceToolcache codeqlFolder v.
Proof.
  unfold overridingTools, findOverridingToolsInCache.
  destruct (_ && _); [|discriminate].
  destruct (filter _ _) as [|c [|c' l]]; try discriminate.
  intros H; injection H as <-. eauto.
Qed.

(** A local or cached source is found without a call. *)
Lemma getCodeQLSource_unchanged toolsInput defaultCliVersion apiDetails variant
    (st : state W) r st' :
  getCodeQLSource host toolsInput defaultCliVersion apiDetails variant st = (r, st') ->
  (forall codeqlTarPath v, r = Ok (SourceLocal codeqlTarPath v) ->
     st' = st /\ toolsInput = Some codeqlTarPath) /\
  (forall codeqlFolder v, r = Ok (SourceToolcache codeqlFolder v) -> st' = st).
Proof.
  intros Hrun. unfold getCodeQLSource, resolveURL in Hrun.
  inv_run.
  all: try match goal with
           | H : overridingTools _ _ _ _ = Some _ |- _ =>
               apply overridingTools_toolcache in H as (? & ? & ->)
           end.
  all: try (split; intros; try discriminate; try reflexivity).
  clean_run. split; [reflexivity|].
  destruct toolsInput; [reflexivity|discriminate].
Qed.

(** X13: the resolver only asks: the calls it makes are requests to the
    API, never a download, an extraction, a cache entry or a deletion; and
    when it resolves to a local archive, which is the tool specification
    itself, or to the tool cache it has made no call at all and left the
    world as it was. *)
Theorem resolver_reads_only (toolsInput : maybe)
    (defaultCliVersion : CodeQLDefaultVersionInfo) (apiDetails : GitHubApiDetails)
    (variant : GitHubVariant) (st : state W) (r : result CodeQLToolsSource)
    (st' : state W) :
  getCodeQLSource host toolsInput defaultCliVersion apiDetails variant st = (r, st') ->
  (exists events, trace st' = trace st ++ events /\
                  forallb is_api_request events = true) /\
  (forall codeqlTarPath v, r = Ok (SourceLocal codeqlTarPath v) ->
     st' = st /\ toolsInput = Some codeqlTarPath) /\
  (forall codeqlFolder v, r = Ok (SourceToolcache codeqlFolder v) -> st' = st).
Proof.
  intros Hrun. split; [|exact (getCodeQLSource_unchanged _ _ _ _ _ _ _ Hrun)].
  assert (Hnil : exists events, trace st = trace st ++ events /\
                                forallb is_api_request events = true)
    by (exists []; now rewrite app_nil_r).
  unfold getCodeQLSource, resolveURL in Hrun.
  inv_run.
  all: try exact Hnil.
  all: eapply getCodeQLBundleDownloadURL_events; eassumption.
Qed.

(** X14: with the tool specification [latest] the resolver works from the
    versions shipped with the Action: the default passed in has no
    influence, and a source it returns is for the shipped CLI version, from
    the tool cache or as a download, on every variant. *)
Theorem resolver_latest_uses_shipped (d d' : CodeQLDefaultVersionInfo)
    (apiDetails : GitHubApiDetails) (variant : GitHubVariant) (st : state W) :
  getCodeQLSource host (Some (str "latest")) d apiDetails variant st =
  getCodeQLSource host (Some (str "latest")) d' apiDetails variant st /\
  forall src st',
    getCodeQLSource host (Some (str "latest")) d apiDetails variant st = (Ok src, st') ->
    (exists codeqlFolder, src = SourceToolcache codeqlFolder (defaults_cliVersion host)) \/
    (exists bundleVersion codeqlURL,
       src = SourceDownload bundleVersion (Some (defaults_cliVersion host)) codeqlURL
               (defaults_cliVersion host)).
Proof.
  split; [reflexivity|].
  intros src st' Hrun. unfold getCodeQLSource, resolveURL in Hrun.
  change (isLocalPath (Some (str "latest"))) with false in Hrun.
  cbv iota in Hrun.
  assert (Hreq : requestedTools host (Some (str "latest")) d =
                 Ok (Some (defaults_cliVersion host),
                     Some (defaults_bundleVersion host), None)) by reflexivity.
  rewrite Hreq in Hrun.
  assert (Hover : forall w, overridingTools host variant (Some (str "latest")) w = None).
  { intros w. unfold overridingTools.
    change (forceShippedTools (Some (str "latest"))) with true.
    cbn [negb]. now rewrite andb_false_r. }
  inv_run; try (rewrite Hover in *; discriminate); cbn [nullish]; eauto.
Qed.


(** X16: an entry of the tool cache under the very CLI version asked for
    is always used, whatever else the cache holds, on every variant. *)
Theorem resolver_exact_version_first (toolsInput : maybe)
    (defaultCliVersion : CodeQLDefaultVersionInfo) (apiDetails : GitHubApiDetails)
    (variant : GitHubVariant) (st : state W) (cli : jsstring) (tagName url : maybe) :
  isLocalPath toolsInput = false ->
  requestedTools host toolsInput defaultCliVersion = Ok (Some cli, tagName, url) ->
  truthy cli = true ->
  truthy (toolcache_find host (world st) (str "CodeQL") cli) = true ->
  getCodeQLSource host toolsInput defaultCliVersion apiDetails variant st =
    (Ok (SourceToolcache (toolcache_find host (world st) (str "CodeQL") cli) cli), st).
Proof.
  intros Hlocal Hreq Hcli Hfind.
  unfold getCodeQLSource. rewrite Hlocal, Hreq.
  unfold bind, lift, query, ret. cbn [humanReadableVersion findByCliVersion].
  rewrite Hcli, Hfind. unfold findByFallbackVersion. cbn [truthy_opt].
  rewrite Hfind. cbn [negb andb nullish truthy_opt]. now rewrite Hfind.
Qed.
End ResolverEffects.

(** ** The pipeline and the cache *)

Section PipelineEffects.
Variable W : Type.
Variable host : Host W.

(** The version of the cache entry when the CLI version is supplied. *)
Lemma pipeline_cache_version codeqlURL maybeBundleVersion cli apiDetails variant tempDir
    (w : W) r st' sourceDir tool version :
  downloadCodeQL host codeqlURL maybeBundleVersion (Some cli) apiDetails variant tempDir
    (start w) = (r, st') ->
  In (CacheDir sourceDir tool version) (trace st') ->
  exists bundleVersion,
    bundle_version_for maybeBundleVersion codeqlURL = Some bundleVersion /\
    ((is_stable_release (Some cli) = true /\ version = cli ++ str "-" ++ bundleVersion) \/
     (is_stable_release (Some cli) = false /\ convertToSemVer bundleVersion = Ok version)).
Proof.
  intros Hrun Hin. unfold downloadCodeQL, printDiskSpace in Hrun.
  inv_run.
  all: in_trace Hin.
  all: injection Hin as <- <- <-.
  all: match goal with
       | H : _ = Some ?b |- _ =>
           match type of H with
           | context [tryGetBundleVersionFromUrl] => exists b
           end
       end.
  all: (split; [unfold bundle_version_for; assumption|]).
  all: first [ left; split; reflexivity
             | right; split; [reflexivity|symmetry; assumption] ].
Qed.

(** X17: what the pipeline caches, the resolver finds: when the pipeline
    has cached a bundle for a CLI version and a bundle version, and the
    tool cache holds that entry and no other, the resolver asked for the
    same CLI version and the tag of that bundle version returns the entry,
    without a request. *)
Theorem cached_bundle_is_found (codeqlURL bundleVersion cli : jsstring)
    (apiDetails : GitHubApiDetails) (variant : GitHubVariant) (tempDir : jsstring)
    (w : W) (r : result DownloadResult) (st1 : state W)
    (sourceDir tool version : jsstring)
    (toolsInput : maybe) (defaultCliVersion : CodeQLDefaultVersionInfo)
    (tag : jsstring) (url : maybe) (st2 : state W) :
  downloadCodeQL host codeqlURL (Some bundleVersion) (Some cli) apiDetails variant tempDir
    (start w) = (r, st1) ->
  In (CacheDir sourceDir tool version) (trace st1) ->
  isLocalPath toolsInput = false ->
  requestedTools host toolsInput defaultCliVersion = Ok (Some cli, Some tag, url) ->
  tryGetBundleVersionFromTagName tag = Some bundleVersion ->
  truthy cli = true ->
  toolcache_find host (world st2) (str "CodeQL") cli = [] ->
  toolcache_findAllVersions host (world st2) (str "CodeQL") = [version] ->
  truthy (toolcache_find host (world st2) (str "CodeQL") version) = true ->
  getCodeQLSource host toolsInput defaultCliVersion apiDetails variant st2 =
    (Ok (SourceToolcache (toolcache_find host (world st2) (str "CodeQL") version) cli), st2).
Proof.
  intros Hrun Hin Hlocal Hreq Htag Hcli Hexact Hall Hfolder.
  destruct (pipeline_cache_version _ _ _ _ _ _ _ _ _ _ _ _ Hrun Hin)
    as (bv & Hbv & Hversion).
  cbn [bundle_version_for] in Hbv. injection Hbv as <-.
  unfold getCodeQLSource. rewrite Hlocal, Hreq.
  unfold bind at 1, lift at 1. cbn [humanReadableVersion].
  unfold bind at 1, lift at 1. unfold bind at 1, query at 1.
  unfold bind at 1, query at 1. unfold bind at 1, lift at 1.
  unfold findByCliVersion. rewrite Hcli, Hexact, Hall. cbn [truthy filter].
  assert (Hdone : forall folder,
            truthy folder = true ->
            findByFallbackVersion host (world st2) (Some folder) (Some cli) (Some tag) =
            Ok (Some folder)).
  { intros folder Hf. unfold findByFallbackVersion. cbn [truthy_opt].
    now rewrite Hf. }
  destruct (startsWith version (cli ++ str "-")) eqn:Hprefix.
  - rewrite (Hdone _ Hfolder). cbn [truthy_opt nullish]. now rewrite Hfolder.
  - destruct Hversion as [[_ ->]|[_ Hcoerced]].
    + exfalso. rewrite app_assoc in Hprefix.
      assert (startsWith ((cli ++ str "-") ++ bundleVersion) (cli ++ str "-") = true)
        by (apply startsWith_spec; eauto).
      congruence.
    + unfold findByFallbackVersion, tryGetFallbackToolcacheVersion.
      cbn [truthy_opt truthy negb andb nullish].
      assert (Hbv : truthy bundleVersion = true).
      { destruct bundleVersion; [|reflexivity]. vm_compute in Hcoerced. discriminate. }
      assert (Hv : truthy version = true).
      { apply truthy_not_nil.
        unfold convertToSemVer, convertToSemVer_with in Hcoerced.
        destruct (semver.clean _) as [s|]; [|discriminate].
        destruct (truthy s) eqn:Hs; [|discriminate].
        injection Hcoerced as <-. now apply truthy_not_nil. }
      assert (Htruthy_tag : truthy tag = true).
      { destruct tag; [discriminate Htag|reflexivity]. }
      rewrite Htruthy_tag, Htag, Hbv, Hcoerced. cbn [truthy_opt nullish].
      rewrite Hv. cbn [truthy_opt]. now rewrite Hfolder.
Qed.

(** X18: the pipeline handles its own artifacts only: what it extracts is
    the file that the download returned, what it caches is a directory
    that the extraction returned, and what it deletes is one of the two. *)
Theorem pipeline_handles_own_artifacts (codeqlURL : jsstring)
    (maybeBundleVersion maybeCliVersion : maybe) (apiDetails : GitHubApiDetails)
    (variant : GitHubVariant) (tempDir : jsstring) (w : W)
    (r : result DownloadResult) (st' : state W) :
  downloadCodeQL host codeqlURL maybeBundleVersion maybeCliVersion apiDetails variant
    tempDir (start w) = (r, st') ->
  let downloaded (path : jsstring) :=
    exists w1 dest authorization headers w2,
      toolcache_downloadTool host w1 codeqlURL dest authorization headers = (Ok path, w2) in
  let extracted (path : jsstring) :=
    exists w1 file w2, downloaded file /\
      toolcache_extractTar host w1 file = (Ok path, w2) in
  (forall file, In (ExtractTar file) (trace st') -> downloaded file) /\
  (forall sourceDir tool version,
      In (CacheDir sourceDir tool version) (trace st') -> extracted sourceDir) /\
  (forall path, In (Del path) (trace st') -> downloaded path \/ extracted path).
Proof.
  intros Hrun downloaded extracted. subst downloaded extracted.
  unfold downloadCodeQL in Hrun.
  unfold printDiskSpace, tryFindCliVersionDotcomOnly, getCodeQLActionRepository,
    releaseByTag in Hrun.
  inv_run.
  all: (split; [|split]);
    [ intros file Hin; in_trace Hin; injection Hin as <-; eauto 10
    | intros sourceDir tool version Hin; in_trace Hin; injection Hin as <- <- <-;
      eauto 15
    | intros path Hin; in_trace Hin; injection Hin as <-;
      first [left; solve [eauto 10] | right; solve [eauto 15]] ].
Qed.

(** X19: the deletion of the extracted copy after caching is not guarded:
    where it fails, the pipeline fails although the cache entry exists. *)
Theorem pipeline_fails_when_extracted_copy_stays (codeqlURL : jsstring)
    (maybeBundleVersion maybeCliVersion : maybe) (apiDetails : GitHubApiDetails)
    (variant : GitHubVariant) (tempDir : jsstring) (w : W)
    (r : result DownloadResult) (st' : state W) (sourceDir tool version : jsstring) :
  downloadCodeQL host codeqlURL maybeBundleVersion maybeCliVersion apiDetails variant
    tempDir (start w) = (r, st') ->
  In (CacheDir sourceDir tool version) (trace st') ->
  (forall w1, exists e, fst (del host w1 sourceDir) = Throw e) ->
  exists e, r = Throw e.
Proof.
  intros Hrun Hin Hdel.
  unfold downloadCodeQL in Hrun.
  unfold printDiskSpace, tryFindCliVersionDotcomOnly, getCodeQLActionRepository,
    releaseByTag in Hrun.
  inv_run.
  all: try (eexists; reflexivity).
  all: in_trace Hin.
  all: injection Hin as <- <- <-.
  all: match goal with
       | H : del host ?w1 ?p = (Ok _, _) |- _ =>
           match goal with
           | Hd : forall w1, exists e, fst (del host w1 p) = Throw e |- _ =>
               destruct (Hd w1) as [e He]; rewrite H in He; discriminate He
           end
       end.
Qed.
End PipelineEffects.

(** An event of a recorded trace, looked for from its end. *)
Ltac event_in :=
  cbn [trace];
  repeat first [ apply in_or_app; right; left; reflexivity
               | apply in_or_app; left ].

Section SetupEffects.
Variable W : Type.
Variable host : Host W.

(** A host operation that is known to succeed did not fail. *)
Ltac did_not_fail :=
  match goal with
  | H : checkDiskSpace host ?w = (Throw _, _),
    Hp : forall w, fst (checkDiskSpace host w) = Ok tt |- _ =>
      specialize (Hp w); rewrite H in Hp; discriminate Hp
  | H : toolcache_downloadTool host ?w ?u ?d ?a ?h = (Throw _, _),
    Hp : forall w u dest a h, exists p, fst (toolcache_downloadTool host w u dest a h) = Ok p
    |- _ =>
      destruct (Hp w u d a h) as [? Hq]; rewrite H in Hq; discriminate Hq
  | H : toolcache_extractTar host ?w ?f = (Throw _, _),
    Hp : forall w file, exists p, fst (toolcache_extractTar host w file) = Ok p |- _ =>
      destruct (Hp w f) as [? Hq]; rewrite H in Hq; discriminate Hq
  | H : toolcache_cacheDir host ?w ?s ?t ?v = (Throw _, _),
    Hp : forall w sourceDir tool version,
           exists p, fst (toolcache_cacheDir host w sourceDir tool version) = Ok p |- _ =>
      destruct (Hp w s t v) as [? Hq]; rewrite H in Hq; discriminate Hq
  | H : del host ?w ?dir = (Throw _, _),
    He : toolcache_extractTar host _ _ = (Ok ?dir, _),
    Hp : forall w w1 file w2 dir,
           toolcache_extractTar host w1 file = (Ok dir, w2) -> fst (del host w dir) = Ok tt
    |- _ =>
      specialize (Hp w _ _ _ _ He); rewrite H in Hp; discriminate Hp
  end.

(** X20: the pipeline does not need the archive to be deleted: when the
    URL parses, the probes, the download, the extraction and the caching
    succeed, the extracted copy can be deleted and the bundle version can
    be coerced, it returns the folder of the cache entry it made, whether
    the deletion of the archive fails or not, and whatever the lookup of
    the CLI version gives. *)
Theorem pipeline_survives_archive_deletion (codeqlURL : jsstring)
    (maybeBundleVersion maybeCliVersion : maybe) (apiDetails : GitHubApiDetails)
    (variant : GitHubVariant) (tempDir : jsstring) (w : W)
    (search bundleVersion coerced : jsstring) :
  URL_search host codeqlURL = Ok search ->
  acquisition_succeeds host ->
  caching_succeeds host ->
  bundle_version_for maybeBundleVersion codeqlURL = Some bundleVersion ->
  convertToSemVer bundleVersion = Ok coerced ->
  exists res st',
    downloadCodeQL host codeqlURL maybeBundleVersion maybeCliVersion apiDetails variant
      tempDir (start w) = (Ok res, st') /\
    exists w1 sourceDir version w2,
      In (CacheDir sourceDir (str "CodeQL") version) (trace st') /\
      toolcache_cacheDir host w1 sourceDir (str "CodeQL") version =
        (Ok (codeqlFolder res), w2).
Proof.
  intros Hurl (Hprobe & Hdownload & Hextract) (Hcache & Hdel) Hbundle Hcoerced.
  destruct (downloadCodeQL host codeqlURL maybeBundleVersion maybeCliVersion apiDetails
              variant tempDir (start w)) as [r st'] eqn:Hrun.
  unfold downloadCodeQL in Hrun. unfold bundle_version_for in Hbundle.
  rewrite Hurl in Hrun.
  unfold printDiskSpace, tryFindCliVersionDotcomOnly, getCodeQLActionRepository,
    releaseByTag in Hrun.
  inv_run.
  all: try did_not_fail.
  all: match goal with
       | H : ?X = _ |- _ =>
           match X with
           | context [tryGetBundleVersionFromUrl] =>
               pose proof (eq_trans (eq_sym H) Hbundle) as Hsame
           end
       end.
  all: try discriminate Hsame.
  all: injection Hsame as ->.
  all: try congruence.
  all: do 2 eexists; split; [reflexivity|]; cbn [codeqlFolder];
       do 4 eexists; split; [|eassumption]; event_in.
Qed.

(** The pipeline has made its download request when it returns. *)
Lemma downloadCodeQL_ok_downloaded codeqlURL maybeBundleVersion maybeCliVersion apiDetails
    variant tempDir (st : state W) res st' :
  downloadCodeQL host codeqlURL maybeBundleVersion maybeCliVersion apiDetails variant
    tempDir st = (Ok res, st') ->
  exists dest authorization headers,
    In (DownloadTool codeqlURL dest authorization headers) (trace st').
Proof.
  intros Hrun. unfold downloadCodeQL in Hrun.
  unfold printDiskSpace, tryFindCliVersionDotcomOnly, getCodeQLActionRepository,
    releaseByTag in Hrun.
  inv_run.
  all: do 3 eexists; event_in.
Qed.

(** X21: what the setup reports is what it did.  A source reported as the
    tool cache cost no call at all; a local source cost the extraction
    of the archive given and nothing else; the source is reported as a
    download exactly when a download request was made, and exactly then
    a download duration is reported. *)
Theorem setup_reports_what_it_did (toolsInput : maybe) (apiDetails : GitHubApiDetails)
    (tempDir : jsstring) (variant : GitHubVariant)
    (defaultCliVersion : CodeQLDefaultVersionInfo) (w : W)
    (res : SetupResult) (st' : state W) :
  setupCodeQLBundle host toolsInput apiDetails tempDir variant defaultCliVersion
    (start w) = (Ok res, st') ->
  (setup_toolsSource res = Toolcache -> st' = start w) /\
  (setup_toolsSource res = Local ->
     exists codeqlTarPath, toolsInput = Some codeqlTarPath /\
                           trace st' = [ExtractTar codeqlTarPath]) /\
  (setup_toolsSource res = Download <->
     exists u dest authorization headers,
       In (DownloadTool u dest authorization headers) (trace st')) /\
  (setup_toolsSource res = Download <-> setup_toolsDownloadDurationMs res <> None) /\
  setup_toolsSource res <> Unknown.
Proof.
  intros Hrun. unfold setupCodeQLBundle in Hrun.
  apply inv_bind in Hrun as [(e & _ & He) | (source & st1 & Hsource & Hrun)];
    [discriminate|].
  destruct (getCodeQLSource_unchanged W host _ _ _ _ _ _ _ Hsource) as (Hlocal & Hcache).
  destruct source as [codeqlTarPath v|codeqlFolder v|bundleVersion cliVersion codeqlURL v].
  - destruct (Hlocal _ _ eq_refl) as [-> ->]. inv_run. cbn.
    split; [discriminate|]. split; [eauto|].
    split; [split; [discriminate|]|split; [split; [discriminate|congruence]|discriminate]].
    intros (u & d & a & h & [Hin|[]]). discriminate.
  - rewrite (Hcache _ _ eq_refl) in *. inv_run. cbn.
    split; [reflexivity|]. split; [discriminate|].
    split; [split; [discriminate|]|split; [split; [discriminate|congruence]|discriminate]].
    intros (u & d & a & h & []).
  - apply inv_bind in Hrun as [(e & _ & He) | (result & st2 & Hpipeline & Hrun)];
      [discriminate|].
    apply inv_ret in Hrun as [Hres ->]. injection Hres as ->. cbn.
    split; [discriminate|]. split; [discriminate|].
    split; [|split; [split; [discriminate|reflexivity]|discriminate]].
    split; [intros _|reflexivity].
    destruct (downloadCodeQL_ok_downloaded _ _ _ _ _ _ _ _ _ Hpipeline) as (d & a & h & Hin).
    eauto.
Qed.
End SetupEffects.

(** ** The pinned version *)

Lemma filter_singleton (A : Type) (f : A -> bool) (l : list A) (x : A) :
  filter f l = [x] ->
  In x l /\ f x = true /\ forall y, In y l -> f y = true -> y = x.
Proof.
  induction l as [|a l IH]; cbn [filter]; [discriminate|].
  destruct (f a) eqn:E.
  - intros H. injection H as -> Hl. split; [now left|]. split; [exact E|].
    intros y [<-|Hy] Hfy; [reflexivity|]. exfalso.
    assert (Hin : In y (filter f l)) by (apply filter_In; auto).
    rewrite Hl in Hin. destruct Hin.
  - intros H. destruct (IH H) as (Hin & Hfx & Huniq).
    split; [now right|]. split; [exact Hfx|].
    intros y [<-|Hy] Hfy; [congruence|]. now apply Huniq.
Qed.

Section Override.
Variable W : Type.
Variable host : Host W.

(** The version that overrides is the one pinned version. *)
Lemma findOverridingToolsInCache_some (w : W) src :
  findOverridingToolsInCache host w = Some src ->
  exists version,
    src = SourceToolcache (toolcache_find host w (str "CodeQL") version) version /\
    pinned host w version /\
    forall version', pinned host w version' -> version' = version.
Proof.
  unfold findOverridingToolsInCache.
  destruct (filter _ (map _ _)) as [|c [|c' l]] eqn:E; try discriminate.
  intros H; injection H as <-.
  apply filter_singleton in E as (Hin & Hpinned & Huniq).
  apply in_map_iff in Hin as (version & <- & Hin).
  apply filter_In in Hin as [Hin Hgood]. cbn [fst snd] in *.
  exists version. split; [reflexivity|]. split; [repeat split; assumption|].
  intros version' (Hin' & Hgood' & Hpinned').
  specialize (Huniq (toolcache_find host w (str "CodeQL") version', version')).
  cbn [fst] in Huniq.
  assert (Heq : (toolcache_find host w (str "CodeQL") version', version') =
                (toolcache_find host w (str "CodeQL") version, version)).
  { apply Huniq; [|exact Hpinned'].
    apply in_map_iff. exists version'. split; [reflexivity|].
    apply filter_In. auto. }
  now injection Heq.
Qed.

(** X22: the search for an overriding version returns a version of the
    tool cache only when it is the one good version whose folder holds
    the file [pinned-version]; with two of them it returns none. *)
Theorem overriding_tools_exactly_one (w : W) :
  (forall src, findOverridingToolsInCache host w = Some src ->
     exists version,
       src = SourceToolcache (toolcache_find host w (str "CodeQL") version) version /\
       pinned host w version /\
       forall version', pinned host w version' -> version' = version) /\
  (forall v1 v2, pinned host w v1 -> pinned host w v2 -> v1 <> v2 ->
     findOverridingToolsInCache host w = None).
Proof.
  split; [exact (findOverridingToolsInCache_some w)|].
  intros v1 v2 H1 H2 Hne.
  destruct (findOverridingToolsInCache host w) as [src|] eqn:E; [|reflexivity].
  exfalso. destruct (findOverridingToolsInCache_some w src E) as (version & _ & _ & Huniq).
  apply Hne. now rewrite (Huniq v1 H1), (Huniq v2 H2).
Qed.

(** X23: without a tool specification the resolver works from the default
    passed in: a source it returns is for the default CLI version, from
    the tool cache or as a download, or else, and on an enterprise
    variant only, it is the pinned version of the tool cache. *)
Theorem resolver_default_version (d : CodeQLDefaultVersionInfo)
    (apiDetails : GitHubApiDetails) (variant : GitHubVariant) (st : state W)
    (src : CodeQLToolsSource) (st' : state W) :
  getCodeQLSource host None d apiDetails variant st = (Ok src, st') ->
  (exists codeqlFolder, src = SourceToolcache codeqlFolder (cliVersion d)) \/
  (variant <> DOTCOM /\
   exists version,
     pinned host (world st) version /\
     src = SourceToolcache (toolcache_find host (world st) (str "CodeQL") version)
             version) \/
  (exists bundleVersion codeqlURL,
     src = SourceDownload bundleVersion (Some (cliVersion d)) codeqlURL (cliVersion d)).
Proof.
  intros Hrun. unfold getCodeQLSource, resolveURL in Hrun.
  change (isLocalPath None) with false in Hrun. cbv iota in Hrun.
  assert (Hreq : requestedTools host None d =
                 Ok (Some (cliVersion d), Some (tagName d), None)) by reflexivity.
  rewrite Hreq in Hrun.
  inv_run; cbn [nullish]; eauto.
  right. left.
  match goal with
  | H : overridingTools _ _ _ _ = Some _ |- _ =>
      unfold overridingTools in H; destruct variant; cbn in H; try discriminate H;
        apply findOverridingToolsInCache_some in H as (version & -> & Hpinned & _)
  end.
  all: split; [discriminate|eauto].
Qed.

(** With the repository known the locator returns. *)
Lemma getCodeQLBundleDownloadURL_ok tagName apiDetails variant repository
    (st : state W) r st' :
  action_repository host repository ->
  getCodeQLBundleDownloadURL host tagName apiDetails variant st = (r, st') ->
  exists u, r = Ok u.
Proof.
  intros Hrepo Hrun. unfold getCodeQLBundleDownloadURL in Hrun.
  apply inv_bind in Hrun as [(e & Hrun & _) | (repo & st1 & _ & Hrun)];
    [rewrite (getCodeQLActionRepository_known W host repository st Hrepo) in Hrun;
     discriminate Hrun|].
  apply inv_bind in Hrun as [(e & Hghae & _) | (fromGhae & st2 & _ & Hrun)].
  { exfalso. destruct (GitHubVariant_eqb variant GHAE).
    - apply tryGhaeEndpoint_run in Hghae as (? & ? & ? & _). discriminate.
    - apply inv_ret in Hghae as [? _]. discriminate. }
  destruct fromGhae as [downloadURL|]; [apply inv_ret in Hrun as [-> _]; eauto|].
  apply inv_bind in Hrun as [(e & Hloop & _) | (found & st3 & _ & Hrun)].
  { apply tryDownloadSources_run in Hloop as (? & ? & ? & _). discriminate. }
  destruct found; apply inv_ret in Hrun as [-> _]; eauto.
Qed.

(** The versions asked for are always found out: the coercion of a
    valid bundle version does not throw. *)
Lemma requestedTools_returns toolsInput d :
  exists cli url,
    requestedTools host toolsInput d = Ok (cli, requested_tag host toolsInput d, url).
Proof.
  unfold requestedTools, requested_tag.
  destruct (forceShippedTools toolsInput); [eauto|].
  destruct toolsInput as [t|]; [|eauto].
  destruct (tryGetTagNameFromUrl t) as [tag|]; [|eauto].
  destruct (truthy tag); [|eauto].
  destruct (tryGetBundleVersionFromTagName tag) as [bv|]; [|eauto].
  destruct (truthy bv); cbn [andb]; [|eauto].
  destruct (semver.valid bv) as [s|] eqn:Hv; cbn [truthy_opt]; [|eauto].
  destruct (truthy s) eqn:Hs; [|eauto].
  unfold convertToSemVer, convertToSemVer_with. rewrite Hv. cbn [truthy_opt].
  rewrite Hs. cbn [negb].
  rewrite (semver_clean_facts.clean_of_valid _ _ Hv), Hs. eauto.
Qed.

(** X24: the resolver returns a source whenever the bundle version of the
    tag it works with, if there is one, can be coerced, and the Action's
    repository is known: neither the tool cache nor the API can make it
    fail. *)
Theorem resolver_returns (toolsInput : maybe) (d : CodeQLDefaultVersionInfo)
    (apiDetails : GitHubApiDetails) (variant : GitHubVariant) (st : state W)
    (repository : jsstring) :
  (forall bundleVersion,
      and_then (requested_tag host toolsInput d) tryGetBundleVersionFromTagName =
        Some bundleVersion ->
      truthy bundleVersion = true ->
      exists coerced, convertToSemVer bundleVersion = Ok coerced) ->
  action_repository host repository ->
  exists src st',
    getCodeQLSource host toolsInput d apiDetails variant st = (Ok src, st').
Proof.
  intros Hcoerce Hrepo.
  destruct (requestedTools_returns toolsInput d) as (cli & url & Hreq).
  set (tag := requested_tag host toolsInput d) in *.
  destruct (getCodeQLSource host toolsInput d apiDetails variant st) as [r st'] eqn:Hrun.
  assert (Hfallback : forall bv, tryGetBundleVersionFromTagName (nullish tag []) = Some bv ->
                        truthy_opt tag = true ->
                        and_then tag tryGetBundleVersionFromTagName = Some bv).
  { intros bv Hbv Ht. destruct tag as [t|]; [|discriminate Ht].
    cbn [truthy_opt] in Ht. cbn [and_then nullish] in *. now rewrite Ht. }
  unfold getCodeQLSource, resolveURL in Hrun. rewrite Hreq in Hrun.
  unfold humanReadableVersion, findByFallbackVersion, tryGetFallbackToolcacheVersion
    in Hrun.
  inv_run.
  all: try (do 2 eexists; reflexivity).
  all: try match goal with
       | H : getCodeQLBundleDownloadURL _ _ _ _ _ = (Throw _, _) |- _ =>
           destruct (getCodeQLBundleDownloadURL_ok _ _ _ _ _ _ _ Hrepo H) as [? Hu];
             discriminate Hu
       end.
  all: exfalso.
  all: repeat match goal with
       | H : Throw _ = match ?x with _ => _ end |- _ =>
           destruct x eqn:?; try discriminate H
       | H : match ?x with _ => _ end = Throw _ |- _ =>
           destruct x eqn:?; try discriminate H
       end.
  - destruct (Hcoerce _ eq_refl) as [c Hc]; [assumption|]. congruence.
  - match goal with
    | Hb : _ && truthy_opt tag = true |- _ => apply andb_true_iff in Hb as [_ Ht]
    end.
    match goal with
    | Hbv : tryGetBundleVersionFromTagName _ = Some ?bv |- _ =>
        destruct (Hcoerce bv (Hfallback bv eq_refl Ht)) as [c Hc]; [assumption|]
    end.
    congruence.
Qed.
End Override.

(** ** The statements at work on the example runners *)

Lemma resolver_reads_only_witness :
  snd (getCodeQLSource (Runner.host Scenarios.one_entry) None Scenarios.default_version
         Runner.api DOTCOM (start tt)) = start tt.
Proof.
  destruct (resolver_reads_only unit (Runner.host Scenarios.one_entry) None
              Scenarios.default_version Runner.api DOTCOM (start tt) _ _
              (surjective_pairing _)) as (_ & _ & Hcache).
  apply (Hcache (str "/opt/hostedtoolcache/CodeQL/2.12.1-20230101/x64") (str "2.12.1")).
  vm_compute. reflexivity.
Defined.


Lemma resolver_exact_version_first_witness :
  fst (getCodeQLSource (Runner.host Fixtures.exact_and_prefixed) None
         Scenarios.default_version Runner.api GHES (start tt)) =
  Ok (SourceToolcache (str "/opt/hostedtoolcache/CodeQL/2.12.1/x64") (str "2.12.1")).
Proof.
  rewrite (resolver_exact_version_first unit (Runner.host Fixtures.exact_and_prefixed)
             None Scenarios.default_version Runner.api GHES (start tt) (str "2.12.1")
             (Some (str "codeql-bundle-20230101")) None eq_refl eq_refl eq_refl eq_refl).
  reflexivity.
Defined.

Lemma cached_bundle_is_found_witness :
  In (CacheDir (str "/tmp/0000.d") (str "CodeQL") (str "2.12.1-20230101"))
     (trace (snd (downloadCodeQL (Runner.host Scenarios.one_entry) Scenarios.release_url
                    (Some (str "20230101")) (Some (str "2.12.1")) Runner.api DOTCOM
                    (str "/tmp") (start tt)))) /\
  fst (getCodeQLSource (Runner.host Scenarios.one_entry) None Scenarios.default_version
         Runner.api DOTCOM (start tt)) =
  Ok (SourceToolcache (str "/opt/hostedtoolcache/CodeQL/2.12.1-20230101/x64")
        (str "2.12.1")).
Proof.
  assert (Hin : In (CacheDir (str "/tmp/0000.d") (str "CodeQL") (str "2.12.1-20230101"))
     (trace (snd (downloadCodeQL (Runner.host Scenarios.one_entry) Scenarios.release_url
                    (Some (str "20230101")) (Some (str "2.12.1")) Runner.api DOTCOM
                    (str "/tmp") (start tt))))).
  { vm_compute. repeat (first [left; reflexivity | right]). }
  split; [exact Hin|].
  rewrite (cached_bundle_is_found unit (Runner.host Scenarios.one_entry)
             Scenarios.release_url (str "20230101") (str "2.12.1") Runner.api DOTCOM
             (str "/tmp") tt _ _ (str "/tmp/0000.d") (str "CodeQL") (str "2.12.1-20230101")
             None Scenarios.default_version (str "codeql-bundle-20230101") None (start tt)
             (surjective_pairing _) Hin eq_refl eq_refl eq_refl eq_refl eq_refl eq_refl
             eq_refl).
  reflexivity.
Defined.

Lemma pipeline_handles_own_artifacts_witness :
  exists w1 dest authorization headers w2,
    toolcache_downloadTool (Runner.host []) w1 Scenarios.release_url dest authorization
      headers = (Ok (str "/tmp/0000"), w2).
Proof.
  destruct (pipeline_handles_own_artifacts unit (Runner.host []) Scenarios.release_url
              None None Runner.api DOTCOM (str "/tmp") tt _ _ (surjective_pairing _))
    as (Hextract & _ & _).
  apply Hextract. vm_compute. repeat (first [left; reflexivity | right]).
Defined.

Lemma pipeline_fails_when_extracted_copy_stays_witness :
  exists e,
    fst (downloadCodeQL
           (Fixtures.host_deleting (fun path => negb (Fixtures.is_extracted path)))
           Scenarios.release_url None (Some (str "2.12.1")) Runner.api DOTCOM (str "/tmp")
           (start tt)) = Throw e.
Proof.
  apply (pipeline_fails_when_extracted_copy_stays unit
           (Fixtures.host_deleting (fun path => negb (Fixtures.is_extracted path)))
           Scenarios.release_url None (Some (str "2.12.1")) Runner.api DOTCOM (str "/tmp")
           tt _ _ (str "/tmp/0000.d") (str "CodeQL") (str "2.12.1-20230101")
           (surjective_pairing _)).
  - vm_compute. repeat (first [left; reflexivity | right]).
  - intros w1. eexists. vm_compute. reflexivity.
Defined.

Lemma is_extracted_app (file : jsstring) :
  Fixtures.is_extracted (file ++ str ".d") = true.
Proof.
  unfold Fixtures.is_extracted. rewrite rev_app_distr.
  apply startsWith_spec. eauto.
Qed.

Lemma host_deleting_extracted_caches :
  caching_succeeds (Fixtures.host_deleting Fixtures.is_extracted).
Proof.
  split.
  - intros w sourceDir tool version. eexists. reflexivity.
  - intros w w1 file w2 dir H.
    change (toolcache_extractTar (Fixtures.host_deleting Fixtures.is_extracted) w1 file)
      with (@Ok jsstring (file ++ str ".d"), w1) in H.
    injection H as <- _.
    change (fst (del (Fixtures.host_deleting Fixtures.is_extracted) w (file ++ str ".d")))
      with (if Fixtures.is_extracted (file ++ str ".d")
            then Ok tt else Throw (str "EPERM")).
    now rewrite is_extracted_app.
Qed.

Lemma pipeline_survives_archive_deletion_witness :
  fst (del (Fixtures.host_deleting Fixtures.is_extracted) tt (str "/tmp/0000")) =
    Throw (str "EPERM") /\
  exists res,
    fst (downloadCodeQL (Fixtures.host_deleting Fixtures.is_extracted)
           Scenarios.release_url None (Some (str "2.12.1")) Runner.api DOTCOM (str "/tmp")
           (start tt)) = Ok res.
Proof.
  split; [reflexivity|].
  destruct (pipeline_survives_archive_deletion unit
              (Fixtures.host_deleting Fixtures.is_extracted) Scenarios.release_url None
              (Some (str "2.12.1")) Runner.api DOTCOM (str "/tmp") tt
              (Runner.search_of Scenarios.release_url) (str "20230101")
              (str "0.0.0-20230101") eq_refl)
    as (res & st' & Hrun & _).
  - repeat split; intros; eexists; reflexivity.
  - exact host_deleting_extracted_caches.
  - reflexivity.
  - vm_compute. reflexivity.
  - exists res. now rewrite Hrun.
Defined.

Lemma setup_reports_what_it_did_witness :
  snd (setupCodeQLBundle (Runner.host Scenarios.one_entry) None Runner.api (str "/tmp")
         DOTCOM Scenarios.default_version (start tt)) = start tt.
Proof.
  assert (Hrun : setupCodeQLBundle (Runner.host Scenarios.one_entry) None Runner.api
                   (str "/tmp") DOTCOM Scenarios.default_version (start tt) =
                 (Ok {| setup_codeqlFolder :=
                          str "/opt/hostedtoolcache/CodeQL/2.12.1-20230101/x64";
                        setup_toolsDownloadDurationMs := None;
                        setup_toolsSource := Toolcache;
                        setup_toolsVersion := str "2.12.1" |},
                  snd (setupCodeQLBundle (Runner.host Scenarios.one_entry) None Runner.api
                         (str "/tmp") DOTCOM Scenarios.default_version (start tt)))).
  { vm_compute. reflexivity. }
  destruct (setup_reports_what_it_did unit (Runner.host Scenarios.one_entry) None
              Runner.api (str "/tmp") DOTCOM Scenarios.default_version tt _ _ Hrun)
    as (Hcache & _).
  apply Hcache. reflexivity.
Defined.

Lemma resolver_default_version_witness :
  exists codeqlFolder,
    fst (getCodeQLSource (Runner.host Scenarios.one_entry) None Scenarios.default_version
           Runner.api DOTCOM (start tt)) =
    Ok (SourceToolcache codeqlFolder (str "2.12.1")).
Proof.
  destruct (resolver_default_version unit (Runner.host Scenarios.one_entry)
              Scenarios.default_version Runner.api DOTCOM (start tt)
              (SourceToolcache (str "/opt/hostedtoolcache/CodeQL/2.12.1-20230101/x64")
                 (str "2.12.1"))
              _ (surjective_pairing _))
    as [[folder E]|[[Hv _]|(bv & u & E)]].
  - injection E as Hfolder. exists folder. rewrite <- Hfolder.
    vm_compute. reflexivity.
  - now elim Hv.
  - discriminate E.
Defined.

Lemma resolver_returns_witness :
  exists src,
    fst (getCodeQLSource (Runner.host []) None Scenarios.default_version
           Scenarios.enterprise_api GHES (start tt)) = Ok src.
Proof.
  destruct (resolver_returns unit (Runner.host []) None Scenarios.default_version
              Scenarios.enterprise_api GHES (start tt) (str "github/codeql-action"))
    as (src & st' & E).
  - intros bundleVersion Hbv _. vm_compute in Hbv. injection Hbv as <-.
    eexists. vm_compute. reflexivity.
  - reflexivity.
  - exists src. now rewrite E.
Defined.

(** ** Dependency caching *)

Lemma inv_request (W A : Type) (e : cache_event) (op : W -> result A * W)
    (st : state (cache_world W)) r st' :
  request e op st = (r, st') ->
  exists w', op (outside (world st)) = (r, w') /\
             st' = {| world := {| outside := w'; calls := calls (world st) ++ [e] |};
                      trace := trace st |}.
Proof.
  unfold request. destruct (op (outside (world st))) as [r0 w'].
  intros H. injection H as <- <-. eauto.
Qed.

(** Takes a run of the caching code apart, call by call. *)
Ltac inv_cache_step :=
  match goal with
  | H : request _ _ _ = _ |- _ => apply inv_request in H as (? & H & ?)
  | H : throw _ _ = _ |- _ => unfold throw in H; injection H as ? ?
  | _ => inv_step
  end.

Ltac inv_cache := repeat (inv_cache_step; clean_run).

Lemma same_start_same_text (d : char) (a a' r r' : jsstring) :
  existsb (char_eqb d) a = false -> existsb (char_eqb d) a' = false ->
  a ++ d :: r = a' ++ d :: r' -> a = a'.
Proof.
  revert a'; induction a as [|x a IH]; intros [|y a'] Ha Ha' H; cbn in *.
  - reflexivity.
  - injection H as <- _. now rewrite char_eqb_refl in Ha'.
  - injection H as -> _. now rewrite char_eqb_refl in Ha.
  - injection H as -> H. apply orb_false_iff in Ha as [_ Ha], Ha' as [_ Ha'].
    f_equal. now apply IH.
Qed.

Lemma subsequence_refl_skip (a b : list jsstring) (y : jsstring) :
  subsequence a b -> subsequence a (y :: b).
Proof. destruct a; cbn; auto. Qed.

Section DependencyCachingFacts.
Variables W Globber : Type.
Variable host : CacheHost W Globber.

Lemma own_property_configured language cacheConfig :
  own_property language (CODEQL_DEFAULT_CACHE_CONFIG host) = Some cacheConfig ->
  configured language.
Proof.
  unfold CODEQL_DEFAULT_CACHE_CONFIG, configured. cbn [own_property].
  destruct (jseqb (str "java") language) eqn:E1;
    [apply jseqb_eq in E1; auto|].
  destruct (jseqb (str "csharp") language) eqn:E2;
    [apply jseqb_eq in E2; auto|].
  destruct (jseqb (str "go") language) eqn:E3;
    [apply jseqb_eq in E3; auto|discriminate].
Qed.

Lemma get_property_own language cacheConfig :
  get_property (CODEQL_DEFAULT_CACHE_CONFIG host) language = Own cacheConfig ->
  own_property language (CODEQL_DEFAULT_CACHE_CONFIG host) = Some cacheConfig.
Proof.
  unfold get_property. destruct (own_property _ _) as [c|].
  - intros H; injection H as <-. reflexivity.
  - destruct (existsb _ _); discriminate.
Qed.

Lemma cachePrefix_run language (st : state (cache_world W)) r st' :
  cachePrefix host language st = (r, st') ->
  st' = st /\
  forall prefix, r = Ok prefix ->
    exists runnerOs, env_getRequiredEnvParam host (str "RUNNER_OS") = Ok runnerOs /\
                     prefix = cache_prefix_text runnerOs language.
Proof.
  intros Hrun. unfold cachePrefix in Hrun. inv_cache.
  - split; [reflexivity|discriminate].
  - split; [reflexivity|]. intros prefix Hp. injection Hp as <-.
    eexists. split; [symmetry; eassumption|reflexivity].
Qed.

Lemma cacheKey_run language cacheConfig (st : state (cache_world W)) r st' :
  cacheKey host language cacheConfig st = (r, st') ->
  calls (world st') =
    calls (world st) ++ [HashFiles (join [10%N] (hash cacheConfig))] /\
  forall key, r = Ok key ->
    exists runnerOs hash_,
      env_getRequiredEnvParam host (str "RUNNER_OS") = Ok runnerOs /\
      key = cache_prefix_text runnerOs language ++ hash_.
Proof.
  intros Hrun. unfold cacheKey in Hrun.
  apply inv_bind in Hrun as [(e & Hh & ->) | (h & st1 & Hh & Hrun)];
    apply inv_request in Hh as (w' & _ & ->).
  - split; [reflexivity|discriminate].
  - apply inv_bind in Hrun as [(e & Hp & ->) | (prefix & st2 & Hp & Hrun)];
      apply cachePrefix_run in Hp as [-> Hp].
    + split; [reflexivity|discriminate].
    + apply inv_ret in Hrun as [-> ->]. split; [reflexivity|].
      intros key Hk. injection Hk as <-.
      destruct (Hp prefix eq_refl) as (runnerOs & Hos & ->). eauto.
Qed.

(** The loop of the download: the calls it adds, and what it adds to the
    languages restored. *)
Lemma downloadDependencyCaches_from_run languages :
  forall restoredCaches (st : state (cache_world W)) r st',
  downloadDependencyCaches_from host languages restoredCaches st = (r, st') ->
  (exists new_calls,
     calls (world st') = calls (world st) ++ new_calls /\
     Forall (well_keyed host) new_calls) /\
  forall result, r = Ok result ->
    exists added,
      result = restoredCaches ++ added /\ subsequence added languages /\
      forall language, In language added ->
        exists cacheConfig w primaryKey restoreKeys hitKey w',
          own_property language (CODEQL_DEFAULT_CACHE_CONFIG host) = Some cacheConfig /\
          actionsCache_restoreCache host w (paths cacheConfig) primaryKey restoreKeys =
            (Ok (Some hitKey), w').
Proof.
  induction languages as [|language rest IH]; intros restoredCaches st r st' Hrun.
  - cbn [downloadDependencyCaches_from] in Hrun. apply inv_ret in Hrun as [-> ->].
    split; [exists []; now rewrite app_nil_r|].
    intros result H; injection H as <-. exists []. rewrite app_nil_r.
    repeat split; auto. intros ? [].
  - cbn [downloadDependencyCaches_from] in Hrun.
    assert (Hskip : forall st0 restored0 added0,
      downloadDependencyCaches_from host rest restored0 st0 = (r, st') ->
      calls (world st0) = calls (world st) ++ added0 -> Forall (well_keyed host) added0 ->
      exists new_calls,
        calls (world st') = calls (world st) ++ new_calls /\
        Forall (well_keyed host) new_calls).
    { intros st0 restored0 added0 Hrest Hcalls Hkeyed.
      destruct (IH _ _ _ _ Hrest) as ((new_calls & Hnew & Hall) & _).
      exists (added0 ++ new_calls). rewrite Hnew, Hcalls, <- app_assoc.
      split; [reflexivity|]. apply Forall_app. auto. }
    destruct (get_property (CODEQL_DEFAULT_CACHE_CONFIG host) language)
      as [cacheConfig| |] eqn:Hconfig.
    + apply get_property_own in Hconfig.
      unfold makeGlobber in Hrun.
      apply inv_bind in Hrun as [(e & Hg & ->) | (globber & st1 & Hg & Hrun)];
        apply inv_request in Hg as (w1 & _ & ->).
      { split; [|discriminate]. eexists. split; [reflexivity|].
        repeat constructor. }
      apply inv_bind in Hrun as [(e & Hf & ->) | (files & st2 & Hf & Hrun)];
        apply inv_request in Hf as (w2 & _ & ->).
      { split; [|discriminate]. cbn [world calls]. rewrite <- app_assoc.
        eexists. split; [reflexivity|]. repeat constructor. }
      cbn [world calls] in *.
      destruct (Nat.eqb (length files) 0).
      { split.
        - eapply Hskip; [exact Hrun| |];
            [cbn [world calls]; rewrite <- ?app_assoc; reflexivity|repeat constructor].
        - intros result ->. destruct (IH _ _ _ _ Hrun) as (_ & Hres).
          destruct (Hres result eq_refl) as (added & -> & Hsub & Hhit).
          exists added. split; [reflexivity|]. split; [|exact Hhit].
          now apply subsequence_refl_skip. }
      apply inv_bind in Hrun as [(e & Hk & ->) | (primaryKey & st3 & Hk & Hrun)];
        apply cacheKey_run in Hk as [Hc3 Hkey].
      { split; [|discriminate]. cbn [world calls] in Hc3. rewrite Hc3, <- !app_assoc.
        eexists. split; [reflexivity|]. repeat constructor. }
      apply inv_bind in Hrun as [(e & Hp & ->) | (restoreKey & st4 & Hp & Hrun)];
        apply cachePrefix_run in Hp as [-> Hprefix].
      { split; [|discriminate]. cbn [world calls] in Hc3. rewrite Hc3, <- !app_assoc.
        eexists. split; [reflexivity|]. repeat constructor. }
      destruct (Hkey _ eq_refl) as (runnerOs & hash_ & Hos & ->).
      destruct (Hprefix _ eq_refl) as (runnerOs' & Hos' & ->).
      assert (runnerOs' = runnerOs) as -> by congruence.
      assert (Hrestore : well_keyed host
                (RestoreCache (paths cacheConfig)
                   (cache_prefix_text runnerOs language ++ hash_)
                   [cache_prefix_text runnerOs language])).
      { cbn. exists language, cacheConfig, runnerOs, hash_. auto. }
      apply inv_bind in Hrun as [(e & Hr & ->) | (hitKey & st5 & Hr & Hrun)];
        apply inv_request in Hr as (w5 & Hhit & ->).
      { split; [|discriminate]. cbn [world calls]. cbn [world calls] in Hc3.
        rewrite Hc3, <- !app_assoc.
        eexists. split; [reflexivity|]. repeat constructor. exact Hrestore. }
      assert (Hcalls5 : calls (world {| world := {| outside := w5;
                            calls := calls (world st3) ++
                              [RestoreCache (paths cacheConfig)
                                 (cache_prefix_text runnerOs language ++ hash_)
                                 [cache_prefix_text runnerOs language]] |};
                          trace := trace st3 |}) =
                        calls (world st) ++
                        [GlobCreate (join [10%N] (hash cacheConfig)); GlobberGlob;
                         HashFiles (join [10%N] (hash cacheConfig));
                         RestoreCache (paths cacheConfig)
                           (cache_prefix_text runnerOs language ++ hash_)
                           [cache_prefix_text runnerOs language]]).
      { cbn [world calls]. cbn [world calls] in Hc3. rewrite Hc3, <- !app_assoc.
        reflexivity. }
      assert (Hkeyed : Forall (well_keyed host)
                [GlobCreate (join [10%N] (hash cacheConfig)); GlobberGlob;
                 HashFiles (join [10%N] (hash cacheConfig));
                 RestoreCache (paths cacheConfig)
                   (cache_prefix_text runnerOs language ++ hash_)
                   [cache_prefix_text runnerOs language]]).
      { repeat constructor. exact Hrestore. }
      destruct hitKey as [hit|].
      * split; [exact (Hskip _ _ _ Hrun Hcalls5 Hkeyed)|].
        intros result ->. destruct (IH _ _ _ _ Hrun) as (_ & Hres).
        destruct (Hres result eq_refl) as (added & -> & Hsub & Hhits).
        exists (language :: added). rewrite <- app_assoc. split; [reflexivity|].
        split; [left; auto|].
        intros l [<-|Hl]; [|now apply Hhits].
        exists cacheConfig. eauto 10.
      * split; [exact (Hskip _ _ _ Hrun Hcalls5 Hkeyed)|].
        intros result ->. destruct (IH _ _ _ _ Hrun) as (_ & Hres).
        destruct (Hres result eq_refl) as (added & -> & Hsub & Hhits).
        exists added. split; [reflexivity|]. split; [|exact Hhits].
        now apply subsequence_refl_skip.
    + unfold no_hash_property, throw in Hrun. injection Hrun as <- <-.
      split; [exists []; now rewrite app_nil_r|discriminate].
    + split.
      * eapply Hskip; [exact Hrun| |]; [symmetry; apply app_nil_r|constructor].
      * intros result ->. destruct (IH _ _ _ _ Hrun) as (_ & Hres).
        destruct (Hres result eq_refl) as (added & -> & Hsub & Hhit).
        exists added. split; [reflexivity|]. split; [|exact Hhit].
        now apply subsequence_refl_skip.
Qed.


(** X25: the languages that [downloadDependencyCaches] reports as restored
    are among the languages asked for, in their order, and each of them
    has a caching configuration (java, csharp or go) for whose paths
    [restoreCache] returned the key of a hit. *)
Theorem restored_caches_are_hits (languages : list Language)
    (st : state (cache_world W)) (restored : list Language)
    (st' : state (cache_world W)) :
  downloadDependencyCaches host languages st = (Ok restored, st') ->
  subsequence restored languages /\
  forall language, In language restored ->
    configured language /\
    exists cacheConfig w primaryKey restoreKeys hitKey w',
      own_property language (CODEQL_DEFAULT_CACHE_CONFIG host) = Some cacheConfig /\
      actionsCache_restoreCache host w (paths cacheConfig) primaryKey restoreKeys =
        (Ok (Some hitKey), w').
Proof.
  intros Hrun. unfold downloadDependencyCaches in Hrun.
  destruct (downloadDependencyCaches_from_run _ _ _ _ _ Hrun) as (_ & Hres).
  destruct (Hres restored eq_refl) as (added & Hadded & Hsub & Hhits).
  cbn [app] in Hadded. subst added. split; [exact Hsub|].
  intros language Hin.
  destruct (Hhits language Hin) as (cacheConfig & w & pk & rk & hit & w' & Hown & Hhit).
  split; [exact (own_property_configured _ _ Hown)|].
  exists cacheConfig, w, pk, rk, hit, w'. auto.
Qed.


(** X27: the restore key of one language does not match a cache key of
    another: with names without a dash, the prefix that [cachePrefix]
    gives for a language is not a prefix of a key that [cacheKey] gives
    for a different language. *)
Theorem restore_key_matches_own_language_only (language language' : Language)
    (cacheConfig : CacheConfig) (st1 st1' st2 st2' : state (cache_world W))
    (restoreKey key : jsstring) :
  cachePrefix host language st1 = (Ok restoreKey, st1') ->
  cacheKey host language' cacheConfig st2 = (Ok key, st2') ->
  has_dash language = false -> has_dash language' = false ->
  language <> language' ->
  startsWith key restoreKey = false.
Proof.
  intros Hp Hk Hd Hd' Hne.
  apply cachePrefix_run in Hp as [_ Hp]. destruct (Hp _ eq_refl) as (os & Hos & ->).
  apply cacheKey_run in Hk as [_ Hk]. destruct (Hk _ eq_refl) as (os' & h & Hos' & ->).
  assert (os' = os) as -> by congruence.
  destruct (startsWith _ _) eqn:E; [|reflexivity]. exfalso.
  apply startsWith_spec in E as [rest E]. unfold cache_prefix_text in E.
  rewrite <- !app_assoc in E.
  apply (app_inv_head (str "codeql-dependencies-1-")) in E.
  apply app_inv_head in E. apply (app_inv_head (str "-")) in E.
  apply Hne. symmetry.
  apply (same_start_same_text semver.dash _ _ _ _ Hd' Hd E).
Qed.
End DependencyCachingFacts.

(** ** The job status *)

Section JobStatusFacts.
Variable JOB_STATUS : jsstring.

Lemma setJobStatusIfUnsuccessful_env status p :
  env (setJobStatusIfUnsuccessful JOB_STATUS status p) JOB_STATUS =
  match env p JOB_STATUS with
  | Some v => Some v
  | None => option_map JobStatus_value (job_status_for status)
  end.
Proof.
  destruct status; cbn [setJobStatusIfUnsuccessful core_exportVariable env job_status_for
                         option_map];
    rewrite ?jseqb_refl; destruct (env p JOB_STATUS); reflexivity.
Qed.

Lemma setJobStatusIfUnsuccessful_exported status p name val :
  In (name, val) (exported (setJobStatusIfUnsuccessful JOB_STATUS status p)) ->
  In (name, val) (exported p) \/
  (name = JOB_STATUS /\
   env (setJobStatusIfUnsuccessful JOB_STATUS status p) JOB_STATUS = Some val).
Proof.
  destruct status; cbn [setJobStatusIfUnsuccessful core_exportVariable env exported];
    rewrite ?jseqb_refl, ?in_app_iff; cbn [In]; intros H; auto;
    destruct H as [H|[H|[]]]; auto; injection H as <- <-; auto.
Qed.

(** X28: over the steps of a job, the job status is set by the first
    unsuccessful action and never changed afterwards: a value that the
    variable already has is kept, a successful or starting action sets
    nothing, and every export made is of the job status, with the value
    the variable ends with. *)
Theorem job_status_first_failure_wins (statuses : list ActionStatus) (p : process) :
  let p' := after_steps JOB_STATUS statuses p in
  env p' JOB_STATUS =
    match env p JOB_STATUS with
    | Some v => Some v
    | None => option_map JobStatus_value (first_unsuccessful statuses)
    end /\
  (forall name val, In (name, val) (exported p') ->
     In (name, val) (exported p) \/ (name = JOB_STATUS /\ env p' JOB_STATUS = Some val)).
Proof.
  cbv zeta. unfold after_steps. revert p.
  induction statuses as [|status rest IH]; intros p; cbn [fold_left first_unsuccessful].
  - split; [now destruct (env p JOB_STATUS)|]. auto.
  - destruct (IH (setJobStatusIfUnsuccessful JOB_STATUS status p)) as (Hjob & Hexp).
    split.
    + rewrite Hjob, setJobStatusIfUnsuccessful_env.
      destruct (env p JOB_STATUS); [reflexivity|].
      destruct (job_status_for status); reflexivity.
    + intros name val Hin. destruct (Hexp name val Hin) as [Hbefore|Hnow]; [|auto].
      apply setJobStatusIfUnsuccessful_exported in Hbefore as [Hold|[-> Hset]]; [auto|].
      right. split; [reflexivity|]. rewrite Hjob, Hset. reflexivity.
Qed.
End JobStatusFacts.

(** ** The caching code at work on the example runner *)

Lemma restored_caches_are_hits_witness :
  subsequence [str "java"; str "go"] [str "cpp"; str "java"; str "toml"; str "go"].
Proof.
  assert (Hrun : downloadDependencyCaches (Fixtures.cache_host [str "pom.xml"])
                   [str "cpp"; str "java"; str "toml"; str "go"] Fixtures.cache_start =
                 (Ok [str "java"; str "go"],
                  snd (downloadDependencyCaches (Fixtures.cache_host [str "pom.xml"])
                         [str "cpp"; str "java"; str "toml"; str "go"]
                         Fixtures.cache_start))).
  { vm_compute. reflexivity. }
  exact (proj1 (restored_caches_are_hits unit jsstring
                  (Fixtures.cache_host [str "pom.xml"]) _ _ _ _ Hrun)).
Defined.

Lemma restore_key_matches_own_language_only_witness :
  startsWith (str "codeql-dependencies-1-Linux-javascript-0a1b2c")
             (str "codeql-dependencies-1-Linux-java-") = false.
Proof.
  refine (restore_key_matches_own_language_only unit jsstring (Fixtures.cache_host [])
            (str "java") (str "javascript") {| paths := []; hash := [] |}
            Fixtures.cache_start _ Fixtures.cache_start _ _ _
            (surjective_pairing _) (surjective_pairing _) eq_refl eq_refl _).
  discriminate.
Defined.
